(** * ResignIPA: the resigning pipeline of [pkg/resigner/resigner.go]

    A shallow embedding of the Go package [resigner] and the properties
    its specification states about it.

    - Go strings are byte strings: [string].  File data is [list byte].
    - The operating system is a finite map from cleaned paths to nodes
      (regular file or directory).  Distinct cleaned paths are distinct
      files (no links), there are no permissions and no umask, and a
      file holding a zip container is represented by the archive it
      decodes to.
    - The external tools ([security], [PlistBuddy], [codesign]) are an
      oracle from the argument vector and the filesystem to an exit
      status, an output and a new filesystem.
    - The progress callback is a function that either returns or panics.
    - Go functions become computations in a state monad with two abrupt
      outcomes: a returned [error] and a panic. *)

From Stdlib Require Import Strings.Byte Strings.Ascii Strings.String.
From stdpp Require Import base tactics option list strings pretty sorting gmap.

Local Open Scope string_scope.
Local Open Scope list_scope.
Local Open Scope stdpp_scope.

(** ** Byte strings *)

Module Str.

Definition is_slash (c : ascii) : bool := bool_decide (c = "/"%char).
Definition is_dot (c : ascii) : bool := bool_decide (c = "."%char).

Fixpoint has_slash (s : string) : bool :=
  match s with
  | "" => false
  | String c r => is_slash c || has_slash r
  end.

Fixpoint has_dot (s : string) : bool :=
  match s with
  | "" => false
  | String c r => is_dot c || has_dot r
  end.

(** [strings.HasPrefix] and [strings.HasSuffix]. *)
Fixpoint HasPrefix (s p : string) : bool :=
  match p, s with
  | "", _ => true
  | String a p', String b s' => bool_decide (a = b) && HasPrefix s' p'
  | String _ _, "" => false
  end.

Definition HasSuffix (s p : string) : bool :=
  HasPrefix (String.rev s) (String.rev p).

(** [strings.TrimSuffix]. *)
Definition TrimSuffix (s suffix : string) : string :=
  if HasSuffix s suffix
  then String.substring 0 (String.length s - String.length suffix) s
  else s.

(** [strings.ToLower], on the ASCII letters. *)
Definition lower_ascii (c : ascii) : ascii :=
  let n := nat_of_ascii c in
  if bool_decide (65 ≤ n ≤ 90)%nat then ascii_of_nat (n + 32) else c.

Fixpoint ToLower (s : string) : string :=
  match s with
  | "" => ""
  | String c r => String (lower_ascii c) (ToLower r)
  end.

(** [strings.Split(s, "/")]: never empty, [""] splits to [[""]]. *)
Fixpoint split (s : string) : list string :=
  match s with
  | "" => [""]
  | String c r =>
      if is_slash c then "" :: split r
      else match split r with
           | x :: l => String c x :: l
           | [] => [String c ""]
           end
  end.

(** [strings.Join(l, "/")]. *)
Definition join (l : list string) : string := String.concat "/" l.

End Str.

(** ** Package [path/filepath] (Unix) *)

Module filepath.

(** A cleaned path: whether it is rooted, and its elements. *)
Definition key : Type := bool * list string.

Definition IsAbs (path : string) : bool :=
  match path with
  | String c _ => Str.is_slash c
  | "" => false
  end.

(** One step of [Clean]: the elements seen so far are kept in reverse. *)
Definition clean_step (rooted : bool) (rstack : list string) (c : string)
  : list string :=
  if bool_decide (c = "") then rstack
  else if bool_decide (c = ".") then rstack
  else if bool_decide (c = "..") then
    match rstack with
    | [] => if rooted then [] else [c]
    | top :: rest => if bool_decide (top = "..") then c :: rstack else rest
    end
  else c :: rstack.

Definition clean_elems (rooted : bool) (rstack : list string)
  (l : list string) : list string :=
  foldl (clean_step rooted) rstack l.

(** The file a path names. *)
Definition path_key (path : string) : key :=
  (IsAbs path, rev (clean_elems (IsAbs path) [] (Str.split path))).

Definition render (k : key) : string :=
  match k with
  | (true, l) => "/" +:+ Str.join l
  | (false, []) => "."
  | (false, l) => Str.join l
  end.

Definition Clean (path : string) : string := render (path_key path).

(** [Join] of two elements: empty elements are ignored, the result is
    cleaned. *)
Definition Join (a b : string) : string :=
  match a, b with
  | "", "" => ""
  | "", _ => Clean b
  | _, "" => Clean a
  | _, _ => Clean (a +:+ "/" +:+ b)
  end.

(** [Ext]: the suffix beginning at the last dot of the last element. *)
Fixpoint Ext (path : string) : string :=
  match path with
  | "" => ""
  | String c rest =>
      if Str.has_slash rest || Str.has_dot rest then Ext rest
      else if Str.is_dot c then path else ""
  end.

(** The part of the path up to and including the last slash. *)
Fixpoint dir_part (path : string) : string :=
  match path with
  | "" => ""
  | String c rest =>
      if Str.has_slash rest || Str.is_slash c
      then String c (dir_part rest) else ""
  end.

Definition Dir (path : string) : string := Clean (dir_part path).

Fixpoint strip_trailing_slashes (rev_path : string) : string :=
  match rev_path with
  | String c r => if Str.is_slash c then strip_trailing_slashes r else rev_path
  | "" => ""
  end.

Definition Base (path : string) : string :=
  if bool_decide (path = "") then "."
  else
    let p := String.rev (strip_trailing_slashes (String.rev path)) in
    if bool_decide (p = "") then "/"
    else List.last (Str.split p) "".

(** [Rel]: the target relative to the base, both cleaned. *)
Fixpoint strip_common (b t : list string) : list string * list string :=
  match b, t with
  | x :: b', y :: t' =>
      if bool_decide (x = y) then strip_common b' t' else (b, t)
  | _, _ => (b, t)
  end.

Definition Rel (basepath targpath : string) : option string :=
  let '(ab, kb) := path_key basepath in
  let '(at_, kt) := path_key targpath in
  if negb (bool_decide (ab = at_)) then None
  else
    let '(rb, rt) := strip_common kb kt in
    if bool_decide (".." ∈ rb) then None
    else Some (render (false, (const ".." <$> rb) ++ rt)).

End filepath.


(** ** Errors *)

Inductive Errno := ENOENT | ENOTDIR | EISDIR | EEXIST.

Inductive error :=
  | Errorf (msg : string)                       (* fmt.Errorf *)
  | PathError (op path : string) (errno : Errno) (* *fs.PathError *)
  | ExitError (status : string)                 (* *exec.ExitError *)
  | ErrFormat.                                  (* zip.ErrFormat *)

Definition errno_text (e : Errno) : string :=
  match e with
  | ENOENT => "no such file or directory"
  | ENOTDIR => "not a directory"
  | EISDIR => "is a directory"
  | EEXIST => "file exists"
  end.

(** [err.Error()] *)
Definition Error (e : error) : string :=
  match e with
  | Errorf msg => msg
  | PathError op path errno => op +:+ " " +:+ path +:+ ": " +:+ errno_text errno
  | ExitError status => status
  | ErrFormat => "zip: not a valid zip file"
  end.

(** [fmt.Errorf(ctx + ": %w", err)] *)
Definition wrap (ctx : string) (e : error) : error :=
  Errorf (ctx +:+ ": " +:+ Error e).

(** [os.IsNotExist] *)
Definition IsNotExist (e : error) : bool :=
  match e with
  | PathError _ _ ENOENT => true
  | _ => false
  end.

(** ** The filesystem *)

(** What a regular file holds: plain bytes, or a zip container, given by
    the files it decodes to. *)
Inductive content :=
  | Raw (data : list byte)
  | Archive (files : list zfile)
with zfile :=
  | ZFile (zname : string) (zmode : N) (zdirbit : bool) (zbody : content).

Definition zname (f : zfile) : string := let 'ZFile n _ _ _ := f in n.
Definition zmode (f : zfile) : N := let 'ZFile _ m _ _ := f in m.
Definition zbody (f : zfile) : content := let 'ZFile _ _ _ b := f in b.

(** [f.FileInfo().IsDir()]: the directory bit of the external attributes,
    or a name that ends in a slash. *)
Definition zIsDir (f : zfile) : bool :=
  let 'ZFile n _ d _ := f in d || Str.HasSuffix n "/".

Inductive node :=
  | File (mode : N) (c : content)
  | Directory (mode : N).

Definition node_is_dir (n : node) : bool :=
  match n with Directory _ => true | File _ _ => false end.
Definition node_mode (n : node) : N :=
  match n with Directory m => m | File m _ => m end.

Abbreviation key := filepath.key.
Abbreviation FS := (gmap key node).

Record FileInfo := { fi_name : string; fi_isdir : bool; fi_mode : N }.

Definition info_of (name : string) (n : node) : FileInfo :=
  {| fi_name := name; fi_isdir := node_is_dir n; fi_mode := node_mode n |}.

Definition ModePerm : N := 511.  (* 0777 *)

Module os.

Import filepath.

(** [os.Stat], [os.Lstat] *)
Definition Stat (fs : FS) (path : string) : error + FileInfo :=
  match fs !! path_key path with
  | Some n => inr (info_of (Base path) n)
  | None => inl (PathError "stat" path ENOENT)
  end.

(** [os.MkdirAll]: nothing to do when the directory exists; otherwise
    the parent is made first.  [rl] is the list of elements reversed. *)
Fixpoint mkdir_all (rooted : bool) (rl : list string) (perm : N) (fs : FS)
  : option FS :=
  match fs !! (rooted, rev rl) with
  | Some (Directory _) => Some fs
  | Some (File _ _) => None
  | None =>
      match rl with
      | [] => Some (<[(rooted, []) := Directory perm]> fs)
      | _ :: parent =>
          match mkdir_all rooted parent perm fs with
          | Some fs' => Some (<[(rooted, rev rl) := Directory perm]> fs')
          | None => None
          end
      end
  end.

Definition MkdirAll (fs : FS) (path : string) (perm : N) : error + FS :=
  let k := path_key path in
  match mkdir_all k.1 (rev k.2) perm fs with
  | Some fs' => inr fs'
  | None => inl (PathError "mkdir" path ENOTDIR)
  end.

(** The parent directory of a key must exist for a file to be made. *)
Definition parent (k : key) : key := (k.1, removelast k.2).

Definition parent_check (fs : FS) (k : key) : option Errno :=
  match k.2 with
  | [] => None
  | _ =>
      match fs !! parent k with
      | Some (Directory _) => None
      | Some (File _ _) => Some ENOTDIR
      | None => Some ENOENT
      end
  end.

(** [os.OpenFile(path, O_WRONLY|O_CREATE|O_TRUNC, perm)]: the file is
    made empty; an existing file keeps its mode. *)
Definition OpenFile (fs : FS) (path : string) (perm : N) : error + FS :=
  let k := path_key path in
  match fs !! k with
  | Some (Directory _) => inl (PathError "open" path EISDIR)
  | Some (File m _) => inr (<[k := File m (Raw [])]> fs)
  | None =>
      match parent_check fs k with
      | Some e => inl (PathError "open" path e)
      | None => inr (<[k := File perm (Raw [])]> fs)
      end
  end.

(** [os.Create] *)
Definition Create (fs : FS) (path : string) : error + FS :=
  OpenFile fs path 438.  (* 0666 *)

(** [os.Open]: files and directories can both be opened for reading. *)
Definition Open (fs : FS) (path : string) : option error :=
  match fs !! path_key path with
  | Some _ => None
  | None => Some (PathError "open" path ENOENT)
  end.

(** Reading an open file to its end. *)
Definition read_all (fs : FS) (path : string) : error + content :=
  match fs !! path_key path with
  | Some (File _ c) => inr c
  | Some (Directory _) => inl (PathError "read" path EISDIR)
  | None => inl (PathError "read" path ENOENT)
  end.

(** Writing to a file opened for writing. *)
Definition write_all (fs : FS) (path : string) (c : content) : FS :=
  let k := path_key path in
  match fs !! k with
  | Some (File m _) => <[k := File m c]> fs
  | _ => fs
  end.

(** The names in a directory, in the order [os.ReadDir] and
    [filepath.Walk] list them. *)
Definition child_name (k : key) (e : key * node) : option string :=
  let '((r, l), _) := e in
  if bool_decide (r = k.1 ∧ removelast l = k.2 ∧ l ≠ [])
  then Some (List.last l "") else None.

Definition children (fs : FS) (k : key) : list string :=
  merge_sort String.le (omap (child_name k) (map_to_list fs)).

Definition ReadDir (fs : FS) (path : string) : error + list string :=
  match fs !! path_key path with
  | Some (Directory _) => inr (children fs (path_key path))
  | Some (File _ _) => inl (PathError "readdirent" path ENOTDIR)
  | None => inl (PathError "open" path ENOENT)
  end.

(** [k] is at or below [root]; the result is the path from [root]. *)
Fixpoint strip_prefix (root l : list string) : option (list string) :=
  match root, l with
  | [], _ => Some l
  | x :: root', y :: l' =>
      if bool_decide (x = y) then strip_prefix root' l' else None
  | _ :: _, [] => None
  end.

Definition below (root k : key) : option (list string) :=
  if bool_decide (root.1 = k.1) then strip_prefix root.2 k.2 else None.

(** [os.RemoveAll]: the path and everything below it; no error when
    the path does not exist. *)
Definition RemoveAll (fs : FS) (path : string) : FS :=
  filter (λ e : key * node, below (path_key path) e.1 = None) fs.

End os.

(** ** The program's types *)

(** Config holds the configuration for resigning an IPA. *)
Record Config := {
  SourceIPA : string;
  Certificate : string;
  Entitlements : string;
  MobileProvision : string;
  BundleID : string
}.

(** What a call of the progress callback does, given the messages it has
    been handed before and the new one. *)
Inductive CallbackResult :=
  | CbReturns
  | CbPanics (value : string).

Definition ProgressCallback : Type := list string → string → CallbackResult.

(** Resigner handles the IPA resigning process; a [callback] of [None]
    is the nil function. *)
Record Resigner := {
  config : Config;
  callback : option ProgressCallback;
  tmpDir : string;
  appDir : string
}.

(** NewResigner creates a new Resigner instance. *)
Definition NewResigner (config : Config) (callback : option ProgressCallback)
  : Resigner :=
  {| config := config; callback := callback; tmpDir := ""; appDir := "" |}.

(** ** The world and the monad of effects *)

Record World := {
  fs : FS;                      (* the filesystem *)
  delivered : list string;      (* messages the callback returned from *)
  stdout : list string;         (* lines of fmt.Println *)
  execlog : list (list string)  (* external commands run, oldest first *)
}.

Record State := { self : Resigner; world : World }.

Inductive Outcome (A : Type) :=
  | Ret (a : A) (s : State)
  | Err (e : error) (s : State)
  | Panicked (value : string) (s : State).
Arguments Ret {A} a s.
Arguments Err {A} e s.
Arguments Panicked {A} value s.

Definition final {A} (o : Outcome A) : State :=
  match o with Ret _ s | Err _ s | Panicked _ s => s end.

(** The value of a computation that returned. *)
Definition returned {A} (o : Outcome A) : option A :=
  match o with Ret a _ => Some a | _ => None end.

(** The error a computation returned. *)
Definition failed {A} (o : Outcome A) : option error :=
  match o with Err e _ => Some e | _ => None end.

Definition M (A : Type) : Type := State → Outcome A.

Definition ret {A} (a : A) : M A := λ s, Ret a s.

Definition bind {A B} (m : M A) (k : A → M B) : M B :=
  λ s, match m s with
       | Ret a s' => k a s'
       | Err e s' => Err e s'
       | Panicked v s' => Panicked v s'
       end.

Notation "x <- m ;; k" := (bind m (λ x, k))
  (at level 100, m at next level, right associativity, only parsing).
Notation "m ;;; k" := (bind m (λ _, k))
  (at level 100, right associativity, only parsing).

(** [return err] *)
Definition fail {A} (e : error) : M A := λ s, Err e s.

(** [if err != nil { return fmt.Errorf(ctx + ": %w", err) }] *)
Definition wrapping {A} (ctx : string) (m : M A) : M A :=
  λ s, match m s with
       | Err e s' => Err (wrap ctx e) s'
       | o => o
       end.

(** The error of a call kept as a value: [err := f()]. *)
Definition try {A} (m : M A) : M (error + A) :=
  λ s, match m s with
       | Ret a s' => Ret (inr a) s'
       | Err e s' => Ret (inl e) s'
       | Panicked v s' => Panicked v s'
       end.

Definition get_fs : M FS := λ s, Ret (fs (world s)) s.
Definition get_config : M Config := λ s, Ret (config (self s)) s.
Definition get_callback : M (option ProgressCallback) :=
  λ s, Ret (callback (self s)) s.
Definition get_tmpDir : M string := λ s, Ret (tmpDir (self s)) s.
Definition get_appDir : M string := λ s, Ret (appDir (self s)) s.

Definition set_fs (f : FS) (w : World) : World :=
  {| fs := f; delivered := delivered w; stdout := stdout w;
     execlog := execlog w |}.

Definition put_fs (f : FS) : M unit :=
  λ s, Ret () {| self := self s; world := set_fs f (world s) |}.

(** [r.tmpDir = tmpDir; r.appDir = appDir] *)
Definition set_dirs (tmp app : string) : M unit :=
  λ s, Ret () {| self := {| config := config (self s);
                            callback := callback (self s);
                            tmpDir := tmp; appDir := app |};
                 world := world s |}.

(** A filesystem call that fails or changes the filesystem. *)
Definition fs_update (f : FS → error + FS) : M unit :=
  x <- get_fs ;;
  match f x with
  | inl e => fail e
  | inr x' => put_fs x'
  end.

(** A filesystem call that fails or returns a value. *)
Definition fs_read {A} (f : FS → error + A) : M A :=
  x <- get_fs ;;
  match f x with
  | inl e => fail e
  | inr a => ret a
  end.

(** [fmt.Println] *)
Definition Println (message : string) : M unit :=
  λ s, let w := world s in
       Ret () {| self := self s;
                 world := {| fs := fs w; delivered := delivered w;
                             stdout := stdout w ++ [message];
                             execlog := execlog w |} |}.

(** Calling a non-nil callback. *)
Definition call (cb : ProgressCallback) (message : string) : M unit :=
  λ s, let w := world s in
       match cb (delivered w) message with
       | CbReturns =>
           Ret () {| self := self s;
                     world := {| fs := fs w;
                                 delivered := delivered w ++ [message];
                                 stdout := stdout w;
                                 execlog := execlog w |} |}
       | CbPanics v => Panicked v s
       end.

(** ** [filepath.Walk]

    The tree below the root is listed when the walk starts, each
    directory before its entries and the entries of a directory in name
    order; the function given is called on each with the path built by
    [filepath.Join] from the root, and the walk stops at its first
    error. *)

Definition WalkFunc (S : Type) : Type :=
  string → option FileInfo → option error → S → M S.

Fixpoint lex_leb (a b : list string) : bool :=
  match a, b with
  | [], _ => true
  | _ :: _, [] => false
  | x :: a', y :: b' =>
      if bool_decide (x = y) then lex_leb a' b' else String.leb x y
  end.

Definition walk_le (a b : list string * node) : Prop := lex_leb a.1 b.1.

Definition below_entry (root : key) (e : key * node)
  : option (list string * node) :=
  match os.below root e.1 with
  | Some [] => None
  | Some rel => Some (rel, e.2)
  | None => None
  end.

(** The entries strictly below [root], in walk order. *)
Definition descendants (f : FS) (root : key) : list (list string * node) :=
  merge_sort walk_le (omap (below_entry root) (map_to_list f)).

Definition walk_path (root : string) (rel : list string) : string :=
  foldl filepath.Join root rel.

Definition walk_info (root : string) (e : list string * node) : FileInfo :=
  info_of (List.last e.1 (filepath.Base root)) e.2.

Fixpoint walk_list {S} (fn : WalkFunc S) (root : string)
  (l : list (list string * node)) (acc : S) : M S :=
  match l with
  | [] => ret acc
  | e :: l' =>
      acc' <- fn (walk_path root e.1) (Some (walk_info root e)) None acc ;;
      walk_list fn root l' acc'
  end.

Definition Walk {S} (root : string) (fn : WalkFunc S) (acc : S) : M S :=
  f <- get_fs ;;
  match f !! filepath.path_key root with
  | None => fn root None (Some (PathError "lstat" root ENOENT)) acc
  | Some n =>
      walk_list fn root (([], n) :: descendants f (filepath.path_key root)) acc
  end.

(** ** External commands *)

Record ToolResult := {
  tool_fs : FS;                 (* the filesystem the command leaves *)
  tool_out : list byte;         (* its output *)
  tool_err : option string      (* its exit status when not zero *)
}.

Definition Tools : Type := list string → FS → ToolResult.

Definition when (b : bool) (m : M unit) : M unit := if b then m else ret ().

Definition nonempty (s : string) : bool := negb (bool_decide (s = "")).

Definition fs_modify (f : FS → FS) : M unit :=
  x <- get_fs ;; put_fs (f x).

Definition fs_check (f : FS → option error) : M unit :=
  x <- get_fs ;;
  match f x with
  | Some e => fail e
  | None => ret ()
  end.

(** ** Package [archive/zip] *)

Module zip.

(** [zip.OpenReader] with the list [r.File]. *)
Definition OpenReader (src : string) : M (list zfile) :=
  fs_read (λ f,
    match f !! filepath.path_key src with
    | Some (File _ (Archive files)) => inr files
    | Some (File _ (Raw _)) => inl ErrFormat
    | Some (Directory _) => inl (PathError "read" src EISDIR)
    | None => inl (PathError "open" src ENOENT)
    end).

Definition in_progress (c : content) : list zfile :=
  match c with Archive files => files | Raw _ => [] end.

(** [archive.CreateHeader(header)] on the writer of the file [target]:
    a new entry, empty so far. *)
Definition CreateHeader (target : string) (header : zfile) : M unit :=
  fs_modify (λ f,
    match os.read_all f target with
    | inr c => os.write_all f target (Archive (in_progress c ++ [header]))
    | inl _ => f
    end).

Definition set_body (c : content) (f : zfile) : zfile :=
  let 'ZFile n m d _ := f in ZFile n m d c.

Definition set_last_body (c : content) (files : list zfile) : list zfile :=
  match reverse files with
  | [] => []
  | f :: r => reverse (set_body c f :: r)
  end.

(** [io.Copy(writer, file)]: the data of the entry created last. *)
Definition Write (target : string) (c : content) : M unit :=
  fs_modify (λ f,
    match os.read_all f target with
    | inr a => os.write_all f target (Archive (set_last_body c (in_progress a)))
    | inl _ => f
    end).

(** [archive.Close()] *)
Definition Close (target : string) : M unit :=
  fs_modify (λ f,
    match os.read_all f target with
    | inr c => os.write_all f target (Archive (in_progress c))
    | inl _ => f
    end).

End zip.

Section Resigner.

Variable tools : Tools.

(** [exec.Command(argv...)] run to its end: the output and the error. *)
Definition Command (argv : list string) : M (list byte * option error) :=
  λ s, let w := world s in
       let r := tools argv (fs w) in
       Ret (tool_out r, ExitError <$> tool_err r)
           {| self := self s;
              world := {| fs := tool_fs r; delivered := delivered w;
                          stdout := stdout w;
                          execlog := execlog w ++ [argv] |} |}.

(** [cmd.Output()] *)
Definition Output (argv : list string) : M (list byte) :=
  r <- Command argv ;;
  match r.2 with
  | Some e => fail e
  | None => ret r.1
  end.

(** [cmd.Run()] *)
Definition Run (argv : list string) : M unit :=
  Output argv ;;; ret ().

(** logProgress sends a progress message. *)
Definition logProgress (message : string) : M unit :=
  cb <- get_callback ;;
  match cb with
  | Some cb => call cb message
  | None => ret ()
  end ;;;
  Println message.

Definition stat_not_exist (f : FS) (path : string) : bool :=
  match os.Stat f path with
  | inl e => IsNotExist e
  | inr _ => false
  end.

(** validate checks if all required inputs are valid. *)
Definition validate : M unit :=
  c <- get_config ;;
  f <- get_fs ;;
  when (bool_decide (SourceIPA c = ""))
    (fail (Errorf "source IPA path is required")) ;;;
  when (bool_decide (Certificate c = ""))
    (fail (Errorf "certificate is required")) ;;;
  when (stat_not_exist f (SourceIPA c))
    (fail (Errorf ("source file does not exist: " +:+ SourceIPA c))) ;;;
  when (nonempty (MobileProvision c) && stat_not_exist f (MobileProvision c))
    (fail (Errorf ("mobile provision file does not exist: "
                     +:+ MobileProvision c))) ;;;
  when (nonempty (Entitlements c) && stat_not_exist f (Entitlements c))
    (fail (Errorf ("entitlements file does not exist: "
                     +:+ Entitlements c))).

(** setupDirectories creates temporary directories. *)
Definition setupDirectories : M unit :=
  c <- get_config ;;
  let outDir := filepath.Dir (SourceIPA c) in
  let tmpDir := filepath.Join outDir "tmp" in
  let appDir := filepath.Join tmpDir "app" in
  fs_update (λ f, os.MkdirAll f appDir 493) ;;;  (* 0755 *)
  set_dirs tmpDir appDir.

(** copyFile copies a file from src to dst. *)
Definition copyFile (src dst : string) : M unit :=
  fs_check (λ f, os.Open f src) ;;;
  fs_update (λ f, os.Create f dst) ;;;
  data <- fs_read (λ f, os.read_all f src) ;;
  fs_modify (λ f, os.write_all f dst data).

Definition Rel (basepath targpath : string) : M string :=
  match filepath.Rel basepath targpath with
  | Some rel => ret rel
  | None =>
      fail (Errorf ("Rel: can't make " +:+ targpath +:+ " relative to "
                      +:+ basepath))
  end.

(** copyDir recursively copies a directory. *)
Definition copyDir (src dst : string) : M unit :=
  Walk src (λ path info err _,
    match err, info with
    | Some e, _ => fail e
    | None, None => ret ()
    | None, Some info =>
        relPath <- Rel src path ;;
        let targetPath := filepath.Join dst relPath in
        if fi_isdir info
        then fs_update (λ f, os.MkdirAll f targetPath (fi_mode info))
        else copyFile path targetPath
    end) ().

(** The body of the loop of [unzip], over [r.File]. *)
Fixpoint unzip_files (dest : string) (files : list zfile) : M unit :=
  match files with
  | [] => ret ()
  | f :: rest =>
      let fpath := filepath.Join dest (zname f) in
      (if zIsDir f
       then try (fs_update (λ x, os.MkdirAll x fpath ModePerm)) ;;; ret ()
       else
         fs_update (λ x, os.MkdirAll x (filepath.Dir fpath) ModePerm) ;;;
         fs_update (λ x, os.OpenFile x fpath (zmode f)) ;;;
         fs_modify (λ x, os.write_all x fpath (zbody f))) ;;;
      unzip_files dest rest
  end.

(** unzip extracts a zip file to a destination. *)
Definition unzip (src dest : string) : M unit :=
  files <- zip.OpenReader src ;;
  unzip_files dest files.

(** zipDirectory creates a zip file from a directory. *)
Definition zipDirectory (source target : string) : M unit :=
  fs_update (λ f, os.Create f target) ;;;
  r <- try (Walk source (λ path info err _,
    match err, info with
    | Some e, _ => fail e
    | None, None => ret ()
    | None, Some info =>
        relPath <- Rel source path ;;
        let name := if fi_isdir info then relPath +:+ "/" else relPath in
        zip.CreateHeader target
          (ZFile name (fi_mode info) (fi_isdir info) (Raw [])) ;;;
        if negb (fi_isdir info) then
          fs_check (λ f, os.Open f path) ;;;
          data <- fs_read (λ f, os.read_all f path) ;;
          zip.Write target data
        else ret ()
    end) ()) ;;
  zip.Close target ;;;
  match r with
  | inl e => fail e
  | inr _ => ret ()
  end.

Definition is_ext (path ext : string) : bool :=
  bool_decide (filepath.Ext path = ext).

(** findComponents finds all components that need to be signed. *)
Definition findComponents (appPath : string) : M (list string) :=
  components <- Walk appPath (λ path info err components,
    match err, info with
    | Some e, _ => fail e
    | None, None => ret components
    | None, Some info =>
        if fi_isdir info then
          if is_ext path ".app" || is_ext path ".appex"
             || is_ext path ".framework"
          then ret (components ++ [path]) else ret components
        else
          if is_ext path ".dylib"
          then ret (components ++ [path]) else ret components
    end) [] ;;
  let appComponents :=
    foldl (λ acc comp, if is_ext comp ".app" then acc ++ [comp] else acc)
          [] components in
  let nonAppComponents :=
    foldl (λ acc comp, if negb (is_ext comp ".app") then acc ++ [comp]
                       else acc)
          [] components in
  ret (nonAppComponents ++ appComponents).

(** extractApp extracts IPA or copies .app file.  This is the first
    half: the [if ext == ".ipa"] chain. *)
Definition extractPayload : M unit :=
  c <- get_config ;;
  appDir <- get_appDir ;;
  let source := SourceIPA c in
  let ext := Str.ToLower (filepath.Ext source) in
  if bool_decide (ext = ".ipa") then
    logProgress "Extracting IPA file..." ;;;
    unzip source appDir
  else if bool_decide (ext = ".app") then
    logProgress "Copying .app file..." ;;;
    let payloadDir := filepath.Join appDir "Payload" in
    fs_update (λ f, os.MkdirAll f payloadDir 493) ;;;
    copyDir source (filepath.Join payloadDir (filepath.Base source))
  else
    fail (Errorf ("unsupported file type: " +:+ ext
                    +:+ " (must be .ipa or .app)")).

(** The second half: [// Get application path]. *)
Definition applicationPath : M string :=
  appDir <- get_appDir ;;
  let payloadDir := filepath.Join appDir "Payload" in
  entries <- fs_read (λ f, os.ReadDir f payloadDir) ;;
  match entries with
  | [] => fail (Errorf "no app found in Payload directory")
  | entry0 :: _ => ret (filepath.Join payloadDir entry0)
  end.

Definition extractApp : M string :=
  extractPayload ;;; applicationPath.

(** handleMobileProvision copies the mobile provision file. *)
Definition handleMobileProvision (appPath : string) : M unit :=
  c <- get_config ;;
  if bool_decide (MobileProvision c = "") then
    logProgress
      "Sign process using existing provisioning profile from payload"
  else
    logProgress "Copying provisioning profile into application payload" ;;;
    let dest := filepath.Join appPath "embedded.mobileprovision" in
    copyFile (MobileProvision c) dest.

(** [os.WriteFile] *)
Definition WriteFile (name : string) (data : list byte) (perm : N)
  : M unit :=
  fs_update (λ f, os.OpenFile f name perm) ;;;
  fs_modify (λ f, os.write_all f name (Raw data)).

(** extractEntitlements extracts entitlements from mobile provision. *)
Definition extractEntitlements (appPath : string) : M string :=
  logProgress "Extract entitlements from mobileprovision" ;;;
  c <- get_config ;;
  tmpDir <- get_tmpDir ;;
  let entitlementsPath := filepath.Join tmpDir "entitlements.plist" in
  if nonempty (Entitlements c) then
    copyFile (Entitlements c) entitlementsPath ;;;
    logProgress ("Using provided entitlements: " +:+ Entitlements c) ;;;
    ret entitlementsPath
  else
    let provisionPath := filepath.Join appPath "embedded.mobileprovision" in
    let provisioningPlist := filepath.Join tmpDir "provisioning.plist" in
    output <- wrapping "failed to decode provisioning profile"
                (Output ["security"; "cms"; "-D"; "-i"; provisionPath]) ;;
    WriteFile provisioningPlist output 420 ;;;  (* 0644 *)
    output <- wrapping "failed to extract entitlements"
                (Output ["/usr/libexec/PlistBuddy"; "-x"; "-c";
                         "Print:Entitlements"; provisioningPlist]) ;;
    WriteFile entitlementsPath output 420 ;;;
    ret entitlementsPath.

Definition plistbuddy_set (identifier infoPlist : string) : list string :=
  ["/usr/libexec/PlistBuddy"; "-c";
   "Set:CFBundleIdentifier " +:+ identifier; infoPlist].

(** handleBundleID changes the bundle identifier if specified. *)
Definition handleBundleID (appPath : string) : M unit :=
  c <- get_config ;;
  if bool_decide (BundleID c = "") then
    logProgress "Sign using existing bundle identifier from payload"
  else
    logProgress ("Changing bundle identifier with: " +:+ BundleID c) ;;;
    let infoPlist := filepath.Join appPath "Info.plist" in
    Run (plistbuddy_set (BundleID c) infoPlist).

Definition codesign_argv (certificate entitlementsPath component : string)
  : list string :=
  ["/usr/bin/codesign"; "--continue"; "--generate-entitlement-der"; "-f";
   "-s"; certificate; "--entitlements"; entitlementsPath; component].

(** codesign signs a component. *)
Definition codesign (component entitlementsPath : string) : M unit :=
  c <- get_config ;;
  res <- Command (codesign_argv (Certificate c) entitlementsPath
                    component) ;;
  match res.2 with
  | Some err =>
      fail (Errorf ("codesign failed: " +:+ string_of_list_byte res.1
                      +:+ " - " +:+ Error err))
  | None => ret ()
  end.

(** The first loop of signComponents; [extraCounter] is its variable. *)
Fixpoint sign_inner (entitlementsPath : string) (components : list string)
  (extraCounter : nat) : M unit :=
  match components with
  | [] => ret ()
  | component :: rest =>
      if is_ext component ".appex" then
        c <- get_config ;;
        extraCounter' <-
          (if nonempty (BundleID c) then
             let newBundleID :=
               BundleID c +:+ ".extra" +:+ pretty extraCounter in
             logProgress ("Changing .appex bundle identifier with: "
                            +:+ newBundleID) ;;;
             let infoPlist := filepath.Join component "Info.plist" in
             res <- Command (plistbuddy_set newBundleID infoPlist) ;;
             match res.2 with
             | Some err =>
                 logProgress ("Warning: Failed to change bundle ID for "
                                +:+ component +:+ ": " +:+ Error err)
             | None => ret ()
             end ;;;
             ret (S extraCounter)
           else ret extraCounter) ;;
        wrapping ("failed to sign " +:+ component)
          (codesign component entitlementsPath) ;;;
        sign_inner entitlementsPath rest extraCounter'
      else if is_ext component ".framework" || is_ext component ".dylib" then
        wrapping ("failed to sign " +:+ component)
          (codesign component entitlementsPath) ;;;
        sign_inner entitlementsPath rest extraCounter
      else sign_inner entitlementsPath rest extraCounter
  end.

(** The second loop: the application bundles. *)
Fixpoint sign_apps (entitlementsPath : string) (components : list string)
  : M unit :=
  match components with
  | [] => ret ()
  | component :: rest =>
      when (is_ext component ".app")
        (wrapping ("failed to sign " +:+ component)
           (codesign component entitlementsPath)) ;;;
      sign_apps entitlementsPath rest
  end.

(** signComponents signs all app components. *)
Definition signComponents (appPath entitlementsPath : string) : M unit :=
  c <- get_config ;;
  logProgress ("Get list of components and sign with certificate: "
                 +:+ Certificate c) ;;;
  components <- findComponents appPath ;;
  logProgress "Sign plugins, frameworks, dylibs" ;;;
  sign_inner entitlementsPath components 0 ;;;
  logProgress "Sign app" ;;;
  sign_apps entitlementsPath components.

(** createResignedIPA creates the resigned IPA or copies the .app. *)
Definition createResignedIPA (appPath : string) : M unit :=
  c <- get_config ;;
  appDir <- get_appDir ;;
  let outDir := filepath.Dir (SourceIPA c) in
  let resignedDir := filepath.Join outDir "Resigned" in
  fs_modify (λ f, os.RemoveAll f resignedDir) ;;;
  fs_update (λ f, os.MkdirAll f resignedDir 493) ;;;
  let ext := Str.ToLower (filepath.Ext (SourceIPA c)) in
  if bool_decide (ext = ".ipa") then
    let appName := filepath.Base appPath in
    let filename :=
      Str.TrimSuffix appName (filepath.Ext appName) +:+ ".ipa" in
    let outputPath := filepath.Join resignedDir filename in
    logProgress ("Creating the signed ipa: " +:+ filename) ;;;
    zipDirectory appDir outputPath ;;;
    logProgress ("Resigned IPA saved to: " +:+ outputPath)
  else if bool_decide (ext = ".app") then
    let appName := filepath.Base appPath in
    let outputPath := filepath.Join resignedDir appName in
    logProgress "Moving resigned .app file..." ;;;
    copyDir appPath outputPath ;;;
    logProgress ("Resigned .app saved to: " +:+ outputPath)
  else ret ().

(** The body of Resign, between the [defer] and the returns. *)
Definition Resign_body : M unit :=
  validate ;;;
  logProgress "Start (re)sign the app..." ;;;
  wrapping "failed to setup directories" setupDirectories ;;;
  appPath <- wrapping "failed to extract app" extractApp ;;
  wrapping "failed to handle mobile provision"
    (handleMobileProvision appPath) ;;;
  entitlementsPath <- wrapping "failed to extract entitlements"
                        (extractEntitlements appPath) ;;
  wrapping "failed to handle bundle ID" (handleBundleID appPath) ;;;
  wrapping "failed to sign components"
    (signComponents appPath entitlementsPath) ;;;
  wrapping "failed to create resigned IPA" (createResignedIPA appPath) ;;;
  logProgress "XReSign FINISHED".

(** The deferred function: [rec] is what [recover()] returns, [err]
    the named result when it runs. *)
Definition Resign_deferred (rec : option string) (err : option error)
  : M (option error) :=
  err <- match rec with
         | Some v =>
             let err := Errorf ("panic occurred: " +:+ v) in
             logProgress ("ERROR: " +:+ Error err) ;;;
             ret (Some err)
         | None => ret err
         end ;;
  tmpDir <- get_tmpDir ;;
  when (nonempty tmpDir)
    (fs_modify (λ f, os.RemoveAll f tmpDir)) ;;;
  ret err.

(** Resign performs the resigning operation.  Its result is the named
    result [err]: a run that returns is [Ret]; [Panicked] is a panic
    that leaves Resign. *)
Definition Resign : M (option error) :=
  λ s, match Resign_body s with
       | Ret _ s' => Resign_deferred None None s'
       | Err e s' => Resign_deferred None (Some e) s'
       | Panicked v s' => Resign_deferred (Some v) None s'
       end.

End Resigner.

(** ** Definitions used to state the properties *)

Definition start (c : Config) (cb : option ProgressCallback) (w : World)
  : State :=
  {| self := NewResigner c cb; world := w |}.

(** A relation between states that every step of a computation keeps. *)
Definition preserves (R : relation State) {A} (m : M A) : Prop :=
  ∀ s, R s (final (m s)).


Definition keeps_self : relation State := λ s s', self s' = self s.

Definition keeps_fs : relation State :=
  λ s s', self s' = self s ∧ fs (world s') = fs (world s)
          ∧ execlog (world s') = execlog (world s).

Definition keeps_execlog : relation State :=
  λ s s', execlog (world s') = execlog (world s).

(** What validate rejects: a mandatory field left empty, or a path that
    is named and does not exist. *)
Definition rejected (c : Config) (f : FS) : Prop :=
  SourceIPA c = "" ∨ Certificate c = ""
  ∨ f !! filepath.path_key (SourceIPA c) = None
  ∨ (MobileProvision c ≠ ""
     ∧ f !! filepath.path_key (MobileProvision c) = None)
  ∨ (Entitlements c ≠ ""
     ∧ f !! filepath.path_key (Entitlements c) = None).

(** ** Concrete worlds for the examples *)

Definition mkfs (l : list (string * node)) : FS :=
  list_to_map (prod_map filepath.path_key id <$> l).

Definition mkworld (l : list (string * node)) : World :=
  {| fs := mkfs l; delivered := []; stdout := []; execlog := [] |}.

(** External tools that always succeed and leave the files alone. *)
Definition quiet_tools : Tools :=
  λ _ f, {| tool_fs := f; tool_out := []; tool_err := None |}.

Definition exists_at (w : World) (path : string) : bool :=
  bool_decide (is_Some (fs w !! filepath.path_key path)).




(** The package of the end-to-end scenario: [Payload/MyApp.app] with a
    dynamic library and one extension. *)
Definition demo_ipa : content :=
  Archive [
    ZFile "Payload/" 493 true (Raw []);
    ZFile "Payload/MyApp.app/" 493 true (Raw []);
    ZFile "Payload/MyApp.app/Info.plist" 420 false (Raw ["073"%byte]);
    ZFile "Payload/MyApp.app/libFoo.dylib" 420 false (Raw ["207"%byte]);
    ZFile "Payload/MyApp.app/PlugIns/W.appex/Info.plist" 420 false
      (Raw ["105"%byte]);
    ZFile "Payload/MyApp.app/embedded.mobileprovision" 420 false
      (Raw ["060"%byte])].

Definition demo_world : World :=
  mkworld [(".", Directory 493); ("work", Directory 493);
           ("work/MyApp.ipa", File 420 demo_ipa);
           ("work/my.plist", File 420 (Raw ["060"%byte; "077"%byte]))].

Definition demo_config : Config :=
  {| SourceIPA := "work/MyApp.ipa"; Certificate := "Test Cert";
     Entitlements := ""; MobileProvision := ""; BundleID := "com.acme.app" |}.

(** A package with two bundles in its Payload directory. *)
Definition two_apps_ipa : content :=
  Archive [
    ZFile "Payload/B.app/Info.plist" 420 false (Raw ["102"%byte]);
    ZFile "Payload/A.app/Info.plist" 420 false (Raw ["101"%byte]);
    ZFile "Payload/A.app/embedded.mobileprovision" 420 false (Raw [])].

Definition two_apps_world : World :=
  mkworld [(".", Directory 493); ("work", Directory 493);
           ("work/Two.ipa", File 420 two_apps_ipa)].

Definition two_apps_config : Config :=
  {| SourceIPA := "work/Two.ipa"; Certificate := "Test Cert";
     Entitlements := ""; MobileProvision := ""; BundleID := "" |}.


(** The state of a Resigner whose directories are set up. *)
Definition prepared (c : Config) (cb : option ProgressCallback) (w : World)
  : State :=
  final ((setupDirectories ;;; ret ()) (start c cb w)).

(** ** Runs that differ in the callback only *)

(** A callback that returns from every call. *)
Definition total (cb : ProgressCallback) : Prop := ∀ h m, cb h m = CbReturns.

(** What a run can see of its observer: the callback and what it has
    been handed. *)
Definition observer (s : State) : option ProgressCallback * list string :=
  (callback (self s), delivered (world s)).

(** Two states that agree on everything but, possibly, the observer;
    the observers are related by [Q]. *)
Definition agree (Q : relation (option ProgressCallback * list string))
  (s1 s2 : State) : Prop :=
  config (self s1) = config (self s2)
  ∧ tmpDir (self s1) = tmpDir (self s2)
  ∧ appDir (self s1) = appDir (self s2)
  ∧ fs (world s1) = fs (world s2)
  ∧ stdout (world s1) = stdout (world s2)
  ∧ execlog (world s1) = execlog (world s2)
  ∧ Q (observer s1) (observer s2).

(** Two outcomes of the same kind, neither a panic, with the same value
    and related states. *)
Definition same_outcome (R : relation State) {A} (o1 o2 : Outcome A) : Prop :=
  match o1, o2 with
  | Ret a s1, Ret b s2 => a = b ∧ R s1 s2
  | Err e s1, Err e' s2 => e = e' ∧ R s1 s2
  | _, _ => False
  end.

Definition related (R : relation State) {A} (m : M A) : Prop :=
  ∀ s1 s2, R s1 s2 → same_outcome R (m s1) (m s2).

(** A nil callback, which is handed nothing beyond [d0], against the
    callback [cb], which always returns. *)
Definition nil_against (cb : ProgressCallback) (d0 : list string)
  : relation (option ProgressCallback * list string) :=
  λ o1 o2, o1 = (None, d0) ∧ o2.1 = Some cb.

(** The same observer on both sides: nil, or a callback that always
    returns. *)
Definition same_observer
  : relation (option ProgressCallback * list string) :=
  λ o1 o2, o1 = o2 ∧ match o1.1 with Some cb => total cb | None => True end.

(** The value of a panic that left the computation. *)
Definition panicked {A} (o : Outcome A) : option string :=
  match o with Panicked v _ => Some v | _ => None end.

(** Callbacks for the examples: one that always returns, one that panics
    on every call but its first. *)
Definition returning : ProgressCallback := λ _ _, CbReturns.

Definition panics_after_first : ProgressCallback :=
  λ h _, match h with [] => CbReturns | _ => CbPanics "observer failed" end.

(** ** The commands a computation runs *)

Definition PlistBuddy : string := "/usr/libexec/PlistBuddy".
Definition Codesign : string := "/usr/bin/codesign".

(** The command line [argv] is a call of the tool [name]. *)
Definition is_tool (name : string) (argv : list string) : Prop :=
  head argv = Some name.

#[global] Instance is_tool_dec name argv : Decision (is_tool name argv).
Proof. unfold is_tool. apply _. Defined.

(** The identifiers given to the extensions among [components], counted
    from zero in the order of the list, as the commands that set them. *)
Definition extension_identifiers (bundle : string) (components : list string)
  : list (list string) :=
  imap (λ i component,
          plistbuddy_set (bundle +:+ ".extra" +:+ pretty i)
                         (filepath.Join component "Info.plist"))
       (filter (λ c, filepath.Ext c = ".appex") components).

(** The components the first loop of signComponents signs. *)
Definition signed_first (component : string) : Prop :=
  filepath.Ext component = ".appex" ∨ filepath.Ext component = ".framework"
  ∨ filepath.Ext component = ".dylib".

(** [m], run from [s], keeps the Resigner and runs a prefix of the
    commands [full]; when it returns, it returns [v] and has run them
    all. *)
Definition emits {A} (m : M A) (s : State) (full : list (list string)) (v : A)
  : Prop :=
  self (final (m s)) = self s
  ∧ ∃ cmds, execlog (world (final (m s))) = execlog (world s) ++ cmds
            ∧ cmds `prefix_of` full
            ∧ ∀ a, returned (m s) = Some a → a = v ∧ cmds = full.

(** The commands of the first loop of signComponents, for [components]
    and the counter at [n]. *)
Fixpoint inner_commands (c : Config) (entitlementsPath : string)
  (components : list string) (n : nat) : list (list string) :=
  match components with
  | [] => []
  | x :: l =>
      if is_ext x ".appex" then
        (if nonempty (BundleID c)
         then [plistbuddy_set (BundleID c +:+ ".extra" +:+ pretty n)
                 (filepath.Join x "Info.plist")]
         else [])
        ++ [codesign_argv (Certificate c) entitlementsPath x]
        ++ inner_commands c entitlementsPath l
             (if nonempty (BundleID c) then S n else n)
      else if is_ext x ".framework" || is_ext x ".dylib" then
        codesign_argv (Certificate c) entitlementsPath x
        :: inner_commands c entitlementsPath l n
      else inner_commands c entitlementsPath l n
  end.

(** The commands of the second loop. *)
Definition app_commands (c : Config) (entitlementsPath : string)
  (components : list string) : list (list string) :=
  codesign_argv (Certificate c) entitlementsPath
    <$> filter (λ x, filepath.Ext x = ".app") components.

(** ** The tree that findComponents walks *)

(** Whether the walk function of findComponents keeps the entry. *)
Definition is_component (e : string * FileInfo) : bool :=
  if fi_isdir e.2
  then is_ext e.1 ".app" || is_ext e.1 ".appex" || is_ext e.1 ".framework"
  else is_ext e.1 ".dylib".

(** The entries of the tree at [root], whose node is [n], with the paths
    the walk hands to its function, in walk order. *)
Definition tree_entries (f : FS) (root : string) (n : node)
  : list (string * FileInfo) :=
  (λ e, (walk_path root e.1, walk_info root e))
    <$> (([], n) :: descendants f (filepath.path_key root)).

(** The components in walk order, and with the application bundles moved
    to the end. *)
Definition walked_components (f : FS) (root : string) (n : node)
  : list string :=
  (filter (λ e, is_component e) (tree_entries f root n)).*1.

Definition apps_last (components : list string) : list string :=
  filter (λ c, filepath.Ext c ≠ ".app") components
  ++ filter (λ c, filepath.Ext c = ".app") components.

(** A package with three extensions, a framework and a dynamic library. *)
Definition acme_ipa : content :=
  Archive [
    ZFile "Payload/Acme.app/Info.plist" 420 false (Raw ["001"%byte]);
    ZFile "Payload/Acme.app/embedded.mobileprovision" 420 false (Raw []);
    ZFile "Payload/Acme.app/PlugIns/Share.appex/Info.plist" 420 false (Raw []);
    ZFile "Payload/Acme.app/PlugIns/Today.appex/Info.plist" 420 false (Raw []);
    ZFile "Payload/Acme.app/PlugIns/Watch.appex/Info.plist" 420 false (Raw []);
    ZFile "Payload/Acme.app/Frameworks/Core.framework/Core" 493 false (Raw []);
    ZFile "Payload/Acme.app/Frameworks/libz.dylib" 493 false (Raw [])].

Definition acme_world : World :=
  mkworld [(".", Directory 493); ("work", Directory 493);
           ("work/Acme.ipa", File 420 acme_ipa)].

Definition acme_config : Config :=
  {| SourceIPA := "work/Acme.ipa"; Certificate := "Test Cert";
     Entitlements := ""; MobileProvision := ""; BundleID := "com.acme.app" |}.

(** The state in which signComponents starts: the package is extracted. *)
Definition extracted (c : Config) (cb : option ProgressCallback) (w : World)
  : State :=
  final ((setupDirectories ;;; extractApp) (start c cb w)).

(** External tools of which PlistBuddy always fails. *)
Definition failing_PlistBuddy : Tools :=
  λ argv f,
    {| tool_fs := f; tool_out := [];
       tool_err := if bool_decide (is_tool PlistBuddy argv)
                   then Some "exit status 1" else None |}.

(** ** Forced failures of the external tools *)

(** The callback of the state is nil or returns from every call. *)
Definition quiet_state (s : State) : Prop :=
  match callback (self s) with
  | Some cb => total cb
  | None => True
  end.

Definition codesign_succeeds (tools : Tools) : Prop :=
  ∀ args f, tool_err (tools (Codesign :: args) f) = None.

(** Every PlistBuddy command fails with exit status [st]. *)
Definition PlistBuddy_fails (tools : Tools) (st : string) : Prop :=
  ∀ args f, tool_err (tools (PlistBuddy :: args) f) = Some st.

(** The warning logged for the extension [component]. *)
Definition warning (component st : string) : string :=
  "Warning: Failed to change bundle ID for " +:+ component +:+ ": " +:+ st.

(** The command that sets the identifier of the primary bundle fails
    with exit status [st], whatever the bundle and the files. *)
Definition primary_mutation_fails (tools : Tools) (c : Config) (st : string)
  : Prop :=
  ∀ infoPlist f,
    tool_err (tools (plistbuddy_set (BundleID c) infoPlist) f) = Some st.

(** From [s] to [s'] the configuration is kept and codesign is not run. *)
Definition unsigned : relation State :=
  λ s s', config (self s') = config (self s)
          ∧ callback (self s') = callback (self s)
          ∧ ∃ cmds, execlog (world s') = execlog (world s) ++ cmds
                    ∧ Forall (λ argv, ¬ is_tool Codesign argv) cmds.

(** [m], run from [s], does not return, and codesign is not run. *)
Definition halts {A} (m : M A) (s : State) : Prop :=
  returned (m s) = None ∧ unsigned s (final (m s)).

(** External tools of which only the command that sets the identifier
    [com.acme.app] fails. *)
Definition failing_primary : Tools :=
  λ argv f,
    {| tool_fs := f; tool_out := [];
       tool_err :=
         if bool_decide (argv !! 2 = Some "Set:CFBundleIdentifier com.acme.app")
         then Some "exit status 1" else None |}.

(** The acme package resigned with given entitlements. *)
Definition acme_world_entitled : World :=
  mkworld [(".", Directory 493); ("work", Directory 493);
           ("work/Acme.ipa", File 420 acme_ipa);
           ("work/my.plist", File 420 (Raw ["060"%byte]))].

Definition acme_config_entitled : Config :=
  {| SourceIPA := "work/Acme.ipa"; Certificate := "Test Cert";
     Entitlements := "work/my.plist"; MobileProvision := "";
     BundleID := "com.acme.app" |}.

(** ** File names *)

(** A name a directory entry can have. *)
Definition valid_name (n : string) : Prop :=
  n ≠ "" ∧ n ≠ "." ∧ n ≠ ".." ∧ Str.has_slash n = false.

(** Appending elements to a cleaned path. *)
Definition key_app (k : key) (rel : list string) : key := (k.1, k.2 ++ rel).

(** ** The bundle tree *)

Inductive Kind := Application | Extension | Framework | DynamicLibrary.

#[global] Instance Kind_eq_dec : EqDecision Kind.
Proof. solve_decision. Defined.

(** The kind of a directory entry, by its name and what it is. *)
Definition kind_of (name : string) (n : node) : option Kind :=
  match n with
  | Directory _ =>
      if bool_decide (filepath.Ext name = ".app") then Some Application
      else if bool_decide (filepath.Ext name = ".appex") then Some Extension
      else if bool_decide (filepath.Ext name = ".framework")
      then Some Framework else None
  | File _ _ =>
      if bool_decide (filepath.Ext name = ".dylib")
      then Some DynamicLibrary else None
  end.

(** The entries of the filesystem strictly below [root], each with its
    path from [root]. *)
Definition below_root (f : FS) (root : key) : list (list string * node) :=
  omap (below_entry root) (map_to_list f).

Definition entry_kind (e : list string * node) : option Kind :=
  kind_of (List.last e.1 "") e.2.

(** How many entries of the kind [k] the tree below [root] has. *)
Definition count_kind (f : FS) (root : string) (k : Kind) : nat :=
  length (filter (λ e, entry_kind e = Some k)
            (below_root f (filepath.path_key root))).

(** The names below [root] are names of directory entries. *)
Definition valid_tree (f : FS) (root : string) : Prop :=
  Forall (λ e : list string * node, Forall valid_name e.1)
         (below_root f (filepath.path_key root)).

(** A bundle with one entry of each kind below it. *)
Definition bundle_world : World :=
  mkworld [(".", Directory 493);
           ("Demo.app", Directory 493);
           ("Demo.app/Info.plist", File 420 (Raw []));
           ("Demo.app/PlugIns", Directory 493);
           ("Demo.app/PlugIns/W.appex", Directory 493);
           ("Demo.app/PlugIns/W.appex/W", File 493 (Raw []));
           ("Demo.app/Frameworks", Directory 493);
           ("Demo.app/Frameworks/F.framework", Directory 493);
           ("Demo.app/Frameworks/libz.dylib", File 493 (Raw []));
           ("Demo.app/Watch", Directory 493);
           ("Demo.app/Watch/Inner.app", Directory 493)].

(** [valid_name] and [valid_tree] as tests. *)
Definition valid_nameb (n : string) : bool :=
  negb (bool_decide (n = "")) && negb (bool_decide (n = "."))
  && negb (bool_decide (n = "..")) && negb (Str.has_slash n).

Definition valid_treeb (f : FS) (root : string) : bool :=
  forallb (λ e : list string * node, forallb valid_nameb e.1)
          (below_root f (filepath.path_key root)).

(** A cleaned path: names, after leading [..] elements when the path is
    not rooted. *)
Definition clean_key (k : key) : Prop :=
  ∃ d v, k.2 = replicate d ".." ++ v ∧ Forall valid_name v
         ∧ (k.1 = true → d = 0).

(** Cleaning further elements onto a cleaned path. *)
Definition extend (k : key) (l : list string) : key :=
  (k.1, rev (filepath.clean_elems k.1 (rev k.2) l)).

(** ** Trees, for the round trip *)

Definition with_fs (g : FS) (s : State) : State :=
  {| self := self s; world := set_fs g (world s) |}.





(** The body of the loop of unzip, as a function of the filesystem. *)
Definition extract_file (dest : string) (f : zfile) (g : FS) : error + FS :=
  let fpath := filepath.Join dest (zname f) in
  if zIsDir f then
    match os.MkdirAll g fpath ModePerm with
    | inr g' => inr g'
    | inl _ => inr g
    end
  else
    match os.MkdirAll g (filepath.Dir fpath) ModePerm with
    | inl e => inl e
    | inr g1 =>
        match os.OpenFile g1 fpath (zmode f) with
        | inl e => inl e
        | inr g2 => inr (os.write_all g2 fpath (zbody f))
        end
    end.

Fixpoint extract_files (dest : string) (files : list zfile) (g : FS)
  : error + FS :=
  match files with
  | [] => inr g
  | f :: rest =>
      match extract_file dest f g with
      | inl e => inl e
      | inr g' => extract_files dest rest g'
      end
  end.





(** Whether [os.Create] can make the file. *)
Definition can_create (f : FS) (path : string) : bool :=
  match os.Create f path with inr _ => true | inl _ => false end.

(** A working directory with a package and an empty directory. *)
Definition round_trip_world : World :=
  mkworld [(".", Directory 493); ("work", Directory 493);
           ("work/MyApp.ipa", File 420 demo_ipa);
           ("work/again", Directory 493)].

(** The package extracted to [work/out]. *)
Definition round_trip_start : State :=
  final (unzip "work/MyApp.ipa" "work/out"
           (start demo_config None round_trip_world)).

(** The mode of the file that [os.Create] leaves: that of the file
    there was, 0666 for a new one. *)
Definition created_mode (f : FS) (path : string) : N :=
  match f !! filepath.path_key path with
  | Some (File m _) => m
  | _ => 438
  end.

(** ** Entries that are kept *)

(** The same kind of entry with the same mode; the bytes of a file may
    differ. *)
Definition same_kind (x y : node) : Prop :=
  match x, y with
  | Directory m, Directory m' => m = m'
  | File m _, File m' _ => m = m'
  | _, _ => False
  end.

(** Every entry of [f] is still there in [g], as the same kind of entry. *)
Definition entries_kept (f g : FS) : Prop :=
  ∀ k x, f !! k = Some x → ∃ y, g !! k = Some y ∧ same_kind x y.

Definition keeps_entries : relation State :=
  λ s s', entries_kept (fs (world s)) (fs (world s')).

(** A package whose only entry is named for the directory above the
    destination. *)
Definition slip_ipa : content :=
  Archive [ZFile "../evil.sh" 493 false (Raw ["035"%byte])].

Definition slip_world : World :=
  mkworld [(".", Directory 493); ("work", Directory 493);
           ("work/out", Directory 493);
           ("work/slip.ipa", File 420 slip_ipa)].

(** A package of directory entries only. *)
Definition dirs_ipa : content :=
  Archive [ZFile "Payload/" 493 true (Raw []);
           ZFile "Payload/MyApp.app/" 493 true (Raw [])].

Definition dirs_world : World :=
  mkworld [(".", Directory 493); ("work", Directory 493);
           ("work/dirs.ipa", File 420 dirs_ipa);
           ("work/taken", File 420 (Raw []))].


(** * Package [cmd]: the command line and the window *)

Module cmd.

(** [s[n:]] *)
Definition slice_from (s : string) (n : nat) : string :=
  String.substring n (String.length s - n) s.

(** [if cond { return err }], one after the other: the first error is
    the result. *)
Definition check (cond : bool) (e : error) : option error :=
  if cond then Some e else None.

Definition orelse (a b : option error) : option error :=
  match a with Some e => Some e | None => b end.

(** [if _, err := os.Stat(path); os.IsNotExist(err) {...} else if err !=
    nil {...}] *)
Definition stat_check (f : FS) (path missing cannot : string)
  : option error :=
  match os.Stat f path with
  | inl e =>
      if IsNotExist e then Some (Errorf (missing +:+ path))
      else Some (Errorf (cannot +:+ path +:+ ": " +:+ Error e))
  | inr _ => None
  end.

(** [len(s) >= len(ext) && s[len(s)-len(ext):] == ext] *)
Definition ends_with (s ext : string) : bool :=
  (String.length ext <=? String.length s)%nat
  && String.eqb (slice_from s (String.length s - String.length ext)) ext.

(** The characters isValidBundleID lets pass, the dot apart. *)
Definition is_bundle_char (ch : ascii) : bool :=
  let n := nat_of_ascii ch in
  bool_decide (97 ≤ n ≤ 122)%nat || bool_decide (65 ≤ n ≤ 90)%nat
  || bool_decide (48 ≤ n ≤ 57)%nat || bool_decide (ch = "-"%char).

(** The loop of isValidBundleID; [hasDot] is its variable.  The loop is
    over the runes of the string: a rune that is not ASCII is refused
    like the first of its bytes is here. *)
Fixpoint bundle_loop (s : string) (hasDot : bool) : bool :=
  match s with
  | "" => hasDot
  | String ch r =>
      if bool_decide (ch = "."%char) then bundle_loop r true
      else if negb (is_bundle_char ch) then false
      else bundle_loop r hasDot
  end.

(** isValidBundleID checks if bundle ID has valid format. *)
Definition isValidBundleID (bundleID : string) : bool :=
  if bool_decide (String.length bundleID = 0) then false
  else bundle_loop bundleID false.

(** validateCLIArguments validates all CLI arguments and checks file
    existence.  The flags are the fields of a [Config]. *)
Definition validateCLIArguments (flags : Config) (f : FS) : option error :=
  let sourceIPA := SourceIPA flags in
  let certificate := Certificate flags in
  let entitlements := Entitlements flags in
  let mobileProvision := MobileProvision flags in
  let bundleID := BundleID flags in
  orelse (check (bool_decide (sourceIPA = ""))
            (Errorf "source IPA path is required (use -s flag)"))
  (orelse (check (bool_decide (certificate = ""))
             (Errorf "certificate is required (use -c flag)"))
  (orelse (stat_check f sourceIPA "source file does not exist: "
             "cannot access source file ")
  (orelse (check (negb (existsb (ends_with sourceIPA) [".ipa"; ".app"]))
             (Errorf ("source file must be .ipa or .app, got: "
                        +:+ sourceIPA)))
  (orelse (if nonempty entitlements then
             orelse (stat_check f entitlements
                       "entitlements file does not exist: "
                       "cannot access entitlements file ")
               (check ((String.length entitlements <? 6)%nat
                       || negb (String.eqb
                                  (slice_from entitlements
                                     (String.length entitlements - 6))
                                  ".plist"))
                  (Errorf ("entitlements file must be .plist, got: "
                             +:+ entitlements)))
           else None)
  (orelse (if nonempty mobileProvision then
             orelse (stat_check f mobileProvision
                       "mobile provision file does not exist: "
                       "cannot access mobile provision file ")
               (check ((String.length mobileProvision <? 17)%nat
                       || negb (String.eqb
                                  (slice_from mobileProvision
                                     (String.length mobileProvision - 17))
                                  ".mobileprovision"))
                  (Errorf ("mobile provision file must be "
                             +:+ ".mobileprovision, got: "
                             +:+ mobileProvision)))
           else None)
          (if nonempty bundleID then
             check ((String.length bundleID <? 3)%nat
                    || negb (isValidBundleID bundleID))
               (Errorf ("invalid bundle ID format: " +:+ bundleID
                          +:+ " (expected format: com.company.app)"))
           else None)))))).

(** The bullet the messages of the window begin with, as the bytes of
    the source file. *)
Definition bullet : string := "‚Ä¢ ".

(** validateGUIInputs validates GUI inputs with detailed error
    messages. *)
Definition validateGUIInputs (source cert entitlements provision
    bundleID : string) (f : FS) : list string :=
  (if bool_decide (source = "") then
     [bullet +:+ "Source IPA/APP file is required"]
   else if stat_not_exist f source then
     [bullet +:+ "Source file does not exist: " +:+ source]
   else if negb (Str.HasSuffix (Str.ToLower source) ".ipa")
           && negb (Str.HasSuffix (Str.ToLower source) ".app") then
     [bullet +:+ "Source file must be .ipa or .app"]
   else [])
  ++ (if bool_decide (cert = "") then
        [bullet +:+ "Certificate name is required"]
      else [])
  ++ (if nonempty entitlements then
        if stat_not_exist f entitlements then
          [bullet +:+ "Entitlements file does not exist: " +:+ entitlements]
        else if negb (Str.HasSuffix (Str.ToLower entitlements) ".plist") then
          [bullet +:+ "Entitlements file must be .plist"]
        else []
      else [])
  ++ (if nonempty provision then
        if stat_not_exist f provision then
          [bullet +:+ "Mobile provision file does not exist: " +:+ provision]
        else if negb (Str.HasSuffix (Str.ToLower provision)
                        ".mobileprovision") then
          [bullet +:+ "Mobile provision file must be .mobileprovision"]
        else []
      else [])
  ++ (if nonempty bundleID then
        if negb (isValidBundleID bundleID) then
          [bullet +:+ "Invalid bundle ID format: " +:+ bundleID
             +:+ " (expected: com.company.app)"]
        else []
      else []).

End cmd.

(** The characters of a bundle identifier that isValidBundleID accepts. *)
Definition bundle_charset (ch : ascii) : Prop :=
  ch = "."%char ∨ cmd.is_bundle_char ch = true.

(** Flags of a usual call with a provisioning profile. *)
Definition profile_flags : Config :=
  {| SourceIPA := "work/MyApp.ipa"; Certificate := "Test Cert";
     Entitlements := ""; MobileProvision := "work/My.mobileprovision";
     BundleID := "com.acme.app" |}.

Definition profile_world : World :=
  mkworld [(".", Directory 493); ("work", Directory 493);
           ("work/MyApp.ipa", File 420 demo_ipa);
           ("work/My.mobileprovision", File 420 (Raw ["060"%byte]))].

(** ** Copies of a tree *)




(** ** Paths that stay as they are *)

(** Only the path [k] may have changed. *)
Definition only_at (k : key) : relation State :=
  λ s s', ∀ k', k' ≠ k → fs (world s') !! k' = fs (world s) !! k'.

(** A working state in which an earlier run has left its output. *)
Definition stale_world : World :=
  mkworld [(".", Directory 493); ("work", Directory 493);
           ("work/MyApp.ipa", File 420 demo_ipa);
           ("work/tmp", Directory 493); ("work/tmp/app", Directory 493);
           ("work/tmp/app/Payload", Directory 493);
           ("work/tmp/app/Payload/MyApp.app", Directory 493);
           ("work/tmp/app/Payload/MyApp.app/Info.plist",
            File 420 (Raw ["073"%byte]));
           ("work/Resigned", Directory 493);
           ("work/Resigned/Old.ipa", File 420 (Raw ["117"%byte]));
           ("work/Resigned/notes", Directory 493);
           ("work/Resigned/notes/todo.txt", File 420 (Raw []))].

Definition stale_state : State :=
  {| self := {| config := demo_config; callback := None;
                tmpDir := "work/tmp"; appDir := "work/tmp/app" |};
     world := stale_world |}.

(** * Properties *)

Example Ext_examples :
  filepath.Ext "Payload/My.App.app" = ".app" ∧
  filepath.Ext "a.b/c" = "" ∧ filepath.Ext "/x/.appex" = ".appex" ∧
  filepath.Ext "lib.dylib/" = "".
Proof. repeat split. Qed.

Example path_examples :
  filepath.Clean "a//b/./c/.." = "a/b" ∧
  filepath.Join "/Users/me" "tmp" = "/Users/me/tmp" ∧
  filepath.Dir "test.ipa" = "." ∧ filepath.Join "." "tmp" = "tmp" ∧
  filepath.Dir "/Users/me/App.ipa" = "/Users/me" ∧
  filepath.Base "/Users/me/App.app/" = "App.app" ∧
  filepath.Join "dest" "./" = "dest" ∧
  filepath.Rel "/a/b" "/a/b/c/d" = Some "c/d" ∧
  filepath.Rel "/a/b" "/a/b" = Some "." ∧
  filepath.Join "/" "x" = "/x" ∧ filepath.Clean "../../x" = "../../x" ∧
  filepath.Clean "/../x" = "/x".
Proof. repeat split. Qed.


(** ** Running a computation step by step *)

Lemma returned_Ret {A} (o : Outcome A) a :
  returned o = Some a → o = Ret a (final o).
Proof. destruct o; naive_solver. Qed.

Lemma failed_Err {A} (o : Outcome A) e :
  failed o = Some e → o = Err e (final o).
Proof. destruct o; naive_solver. Qed.

Lemma bind_Ret {A B} (m : M A) (k : A → M B) s a s' :
  m s = Ret a s' → bind m k s = k a s'.
Proof. intros H. unfold bind. by rewrite H. Qed.

Lemma bind_Err {A B} (m : M A) (k : A → M B) s e s' :
  m s = Err e s' → bind m k s = Err e s'.
Proof. intros H. unfold bind. by rewrite H. Qed.

Lemma bind_Panicked {A B} (m : M A) (k : A → M B) s v s' :
  m s = Panicked v s' → bind m k s = Panicked v s'.
Proof. intros H. unfold bind. by rewrite H. Qed.

Lemma wrapping_Ret {A} ctx (m : M A) s a s' :
  m s = Ret a s' → wrapping ctx m s = Ret a s'.
Proof. intros H. unfold wrapping. by rewrite H. Qed.

Lemma wrapping_Err {A} ctx (m : M A) s e s' :
  m s = Err e s' → wrapping ctx m s = Err (wrap ctx e) s'.
Proof. intros H. unfold wrapping. by rewrite H. Qed.

Lemma wrapping_Panicked {A} ctx (m : M A) s v s' :
  m s = Panicked v s' → wrapping ctx m s = Panicked v s'.
Proof. intros H. unfold wrapping. by rewrite H. Qed.

(** ** Relations that every step of a computation keeps *)

Section Preserves.

Variable R : relation State.
Context `{!PreOrder R}.

Lemma preserves_ret {A} (a : A) : preserves R (ret a).
Proof. intros s. simpl. reflexivity. Qed.

Lemma preserves_fail {A} e : preserves R (@fail A e).
Proof. intros s. simpl. reflexivity. Qed.

Lemma preserves_bind {A B} (m : M A) (k : A → M B) :
  preserves R m → (∀ a, preserves R (k a)) → preserves R (bind m k).
Proof.
  intros Hm Hk s. unfold bind. specialize (Hm s).
  destruct (m s) as [a s'|e s'|v s']; simpl in *; try done.
  etrans; [exact Hm|apply Hk].
Qed.

Lemma preserves_wrapping {A} ctx (m : M A) :
  preserves R m → preserves R (wrapping ctx m).
Proof.
  intros Hm s. unfold wrapping. specialize (Hm s).
  by destruct (m s).
Qed.

Lemma preserves_try {A} (m : M A) : preserves R m → preserves R (try m).
Proof.
  intros Hm s. unfold try. specialize (Hm s).
  by destruct (m s).
Qed.

Lemma preserves_when b m : preserves R m → preserves R (when b m).
Proof. intros Hm. destruct b; [done|apply preserves_ret]. Qed.

Lemma preserves_get_fs : preserves R get_fs.
Proof. intros s. simpl. reflexivity. Qed.
Lemma preserves_get_config : preserves R get_config.
Proof. intros s. simpl. reflexivity. Qed.
Lemma preserves_get_callback : preserves R get_callback.
Proof. intros s. simpl. reflexivity. Qed.
Lemma preserves_get_tmpDir : preserves R get_tmpDir.
Proof. intros s. simpl. reflexivity. Qed.
Lemma preserves_get_appDir : preserves R get_appDir.
Proof. intros s. simpl. reflexivity. Qed.

Lemma preserves_walk_list {S} (fn : WalkFunc S) root l acc :
  (∀ p i e a, preserves R (fn p i e a)) → preserves R (walk_list fn root l acc).
Proof.
  intros Hfn. revert acc.
  induction l as [|x l IH]; intros acc; simpl.
  - apply preserves_ret.
  - apply preserves_bind; [apply Hfn|done].
Qed.

Lemma preserves_Walk {S} root (fn : WalkFunc S) acc :
  (∀ p i e a, preserves R (fn p i e a)) → preserves R (Walk root fn acc).
Proof.
  intros Hfn. unfold Walk. apply preserves_bind; [apply preserves_get_fs|].
  intros f. destruct (f !! _); [apply preserves_walk_list|]; done.
Qed.

(** What is left to show are the steps that change the state. *)
Hypothesis R_put_fs : ∀ f, preserves R (put_fs f).
Hypothesis R_Println : ∀ m, preserves R (Println m).
Hypothesis R_call : ∀ cb m, preserves R (call cb m).

Lemma preserves_fs_update f : preserves R (fs_update f).
Proof.
  unfold fs_update. apply preserves_bind; [apply preserves_get_fs|].
  intros x. destruct (f x); [apply preserves_fail|apply R_put_fs].
Qed.

Lemma preserves_fs_modify f : preserves R (fs_modify f).
Proof.
  unfold fs_modify. apply preserves_bind; [apply preserves_get_fs|].
  intros x. apply R_put_fs.
Qed.

Lemma preserves_fs_read {A} (f : FS → error + A) : preserves R (fs_read f).
Proof.
  unfold fs_read. apply preserves_bind; [apply preserves_get_fs|].
  intros x. destruct (f x); [apply preserves_fail|apply preserves_ret].
Qed.

Lemma preserves_fs_check f : preserves R (fs_check f).
Proof.
  unfold fs_check. apply preserves_bind; [apply preserves_get_fs|].
  intros x. destruct (f x); [apply preserves_fail|apply preserves_ret].
Qed.

Lemma preserves_logProgress m : preserves R (logProgress m).
Proof.
  unfold logProgress.
  apply preserves_bind; [apply preserves_get_callback|]. intros [cb|].
  - apply preserves_bind; [apply R_call|]. intros _. apply R_Println.
  - apply preserves_bind; [apply preserves_ret|]. intros _. apply R_Println.
Qed.

Ltac pres :=
  repeat match goal with
    | |- preserves R (ret _) => apply preserves_ret
    | |- preserves R (fail _) => apply preserves_fail
    | |- preserves R get_fs => apply preserves_get_fs
    | |- preserves R get_config => apply preserves_get_config
    | |- preserves R get_callback => apply preserves_get_callback
    | |- preserves R get_tmpDir => apply preserves_get_tmpDir
    | |- preserves R get_appDir => apply preserves_get_appDir
    | |- preserves R (fs_update _) => apply preserves_fs_update
    | |- preserves R (fs_modify _) => apply preserves_fs_modify
    | |- preserves R (fs_read _) => apply preserves_fs_read
    | |- preserves R (fs_check _) => apply preserves_fs_check
    | |- preserves R (logProgress _) => apply preserves_logProgress
    | |- preserves R (Walk _ _ _) => apply preserves_Walk; intros ? ? ? ?
    | |- preserves R (bind _ _) => apply preserves_bind; [|intros ?]
    | |- preserves R (wrapping _ _) => apply preserves_wrapping
    | |- preserves R (try _) => apply preserves_try
    | |- preserves R (when _ _) => apply preserves_when
    | |- preserves R (if ?b then _ else _) => destruct b
    | |- preserves R (match ?x with _ => _ end) => destruct x
    | |- preserves R _ => assumption
    end.

Lemma preserves_validate : preserves R validate.
Proof. unfold validate. pres. Qed.

Lemma preserves_copyFile src dst : preserves R (copyFile src dst).
Proof. unfold copyFile. pres. Qed.

Lemma preserves_Rel b t : preserves R (Rel b t).
Proof. unfold Rel. pres. Qed.

Lemma preserves_copyDir src dst : preserves R (copyDir src dst).
Proof. unfold copyDir. pres; apply preserves_Rel || apply preserves_copyFile. Qed.

Lemma preserves_unzip_files dest files : preserves R (unzip_files dest files).
Proof. induction files as [|f files IH]; simpl; pres. Qed.

Lemma preserves_unzip src dest : preserves R (unzip src dest).
Proof. unfold unzip, zip.OpenReader. pres. apply preserves_unzip_files. Qed.



Lemma preserves_extractApp : preserves R extractApp.
Proof.
  unfold extractApp, extractPayload, applicationPath.
  pres; apply preserves_unzip || apply preserves_copyDir.
Qed.

Lemma preserves_handleMobileProvision appPath :
  preserves R (handleMobileProvision appPath).
Proof. unfold handleMobileProvision. pres. apply preserves_copyFile. Qed.

Lemma preserves_WriteFile name data perm :
  preserves R (WriteFile name data perm).
Proof. unfold WriteFile. pres. Qed.


(** Steps that run external commands. *)
Variable tools : Tools.
Variable allowed : list string → Prop.
Hypothesis R_Command : ∀ argv, allowed argv → preserves R (Command tools argv).

Lemma preserves_Output argv : allowed argv → preserves R (Output tools argv).
Proof. intros. unfold Output. pres. by apply R_Command. Qed.


Hypothesis allowed_security : ∀ args, allowed ("security" :: args).
Hypothesis allowed_PlistBuddy :
  ∀ args, allowed ("/usr/libexec/PlistBuddy" :: args).

Lemma preserves_extractEntitlements appPath :
  preserves R (extractEntitlements tools appPath).
Proof.
  unfold extractEntitlements.
  pres; first [apply preserves_copyFile | apply preserves_WriteFile
              | apply preserves_Output]; done.
Qed.


Hypothesis allowed_codesign : ∀ args, allowed ("/usr/bin/codesign" :: args).







Hypothesis R_set_dirs : ∀ tmp app, preserves R (set_dirs tmp app).

Lemma preserves_setupDirectories : preserves R setupDirectories.
Proof. unfold setupDirectories. pres. apply R_set_dirs. Qed.

End Preserves.

(** ** The relations used below *)


#[local] Instance keeps_self_preorder : PreOrder keeps_self.
Proof. split; [by intros ?|]. intros a b c. unfold keeps_self. congruence. Qed.

#[local] Instance keeps_fs_preorder : PreOrder keeps_fs.
Proof.
  split; [by intros ?|]. intros a b c. unfold keeps_fs.
  intros (?&?&?) (?&?&?). repeat split; congruence.
Qed.

#[local] Instance keeps_execlog_preorder : PreOrder keeps_execlog.
Proof.
  split; [by intros ?|]. intros a b c. unfold keeps_execlog. congruence.
Qed.

Lemma logProgress_keeps_fs m : preserves keeps_fs (logProgress m).
Proof.
  apply preserves_logProgress; [apply _|..].
  - intros x s. by unfold Println.
  - intros cb x s. unfold call. by destruct (cb _ _).
Qed.

Lemma logProgress_never_fails m s e s' : logProgress m s ≠ Err e s'.
Proof.
  unfold logProgress, bind, get_callback, call, Println, ret.
  destruct (callback (self s)); [destruct (_ _ _)|]; done.
Qed.

(** ** Validation *)


Lemma stat_not_exist_spec f path :
  stat_not_exist f path = bool_decide (f !! filepath.path_key path = None).
Proof. unfold stat_not_exist, os.Stat. by destruct (f !! _). Qed.

Lemma validate_cases s :
  (validate s = Ret () s ∧ ¬ rejected (config (self s)) (fs (world s)))
  ∨ (∃ e, validate s = Err e s ∧ rejected (config (self s)) (fs (world s))).
Proof.
  unfold validate, rejected, bind, get_config, get_fs, when, nonempty.
  rewrite !stat_not_exist_spec.
  repeat (case_bool_decide; simpl);
    first [right; eexists; split; [reflexivity|]; tauto
          |left; split; [reflexivity|]; tauto].
Qed.









(** ** Cleaned paths *)






(** ** [os.RemoveAll] *)

Lemma RemoveAll_lookup_below f path k :
  is_Some (os.below (filepath.path_key path) k) →
  os.RemoveAll f path !! k = None.
Proof.
  intros [rel Hrel]. unfold os.RemoveAll.
  apply map_lookup_filter_None. right. intros n _. simpl. by rewrite Hrel.
Qed.

Lemma strip_prefix_self l : os.strip_prefix l l = Some [].
Proof. induction l as [|x l IH]; simpl; [done|]. by rewrite bool_decide_true. Qed.

Lemma below_self k : os.below k k = Some [].
Proof. unfold os.below. rewrite bool_decide_true by done. apply strip_prefix_self. Qed.

(** ** Cleanup *)






(** ** The application root *)

(** C3 (as amended): once the package is extracted (or the bare bundle
    copied), extractApp lists the Payload directory.  With no entry it
    fails with "no app found in Payload directory"; with one entry or
    more it returns the path of the first entry in name order, and the
    other entries are ignored. *)
Theorem extractApp_first_entry s s1 :
  extractPayload s = Ret () s1 →
  let payloadDir := filepath.Join (appDir (self s1)) "Payload" in
  extractApp s =
    match os.ReadDir (fs (world s1)) payloadDir with
    | inl e => Err e s1
    | inr [] => Err (Errorf "no app found in Payload directory") s1
    | inr (entry0 :: _) => Ret (filepath.Join payloadDir entry0) s1
    end.
Proof.
  intros H. simpl. unfold extractApp. rewrite (bind_Ret _ _ _ _ _ H).
  unfold applicationPath, bind, get_appDir, fs_read, bind, get_fs.
  destruct (os.ReadDir _ _) as [e|[|entry0 rest]]; done.
Qed.

Lemma extractApp_first_entry_witness :
  let s := prepared demo_config None demo_world in
  let s1 := final (extractPayload s) in
  let payloadDir := filepath.Join (appDir (self s1)) "Payload" in
  extractApp s =
    match os.ReadDir (fs (world s1)) payloadDir with
    | inl e => Err e s1
    | inr [] => Err (Errorf "no app found in Payload directory") s1
    | inr (entry0 :: _) => Ret (filepath.Join payloadDir entry0) s1
    end.
Proof.
  apply (extractApp_first_entry (prepared demo_config None demo_world)).
  apply returned_Ret. vm_compute. reflexivity.
Defined.

(** C3, counterexample: a package whose Payload directory has two
    top-level entries.  extractApp returns the first of them as the
    application root, and the whole run succeeds. *)
Lemma extractApp_two_entries_accepted :
  let s := prepared two_apps_config None two_apps_world in
  returned (extractApp s) = Some "work/tmp/app/Payload/A.app"
  ∧ os.ReadDir (fs (world (final (extractApp s)))) "work/tmp/app/Payload"
    = inr ["A.app"; "B.app"]
  ∧ returned (Resign quiet_tools (start two_apps_config None two_apps_world))
    = Some None.
Proof. repeat split; vm_compute; reflexivity. Qed.

(** ** Entitlements *)





(** ** Runs that differ in the callback only *)

Section Related.

Variable Q : relation (option ProgressCallback * list string).
Hypothesis Q_logProgress : ∀ m, related (agree Q) (logProgress m).

Local Abbreviation R := (agree Q).

Lemma related_ret {A} (a : A) : related R (ret a).
Proof. intros s1 s2 H. by split. Qed.

Lemma related_fail {A} e : related R (@fail A e).
Proof. intros s1 s2 H. by split. Qed.

Lemma related_bind {A B} (m : M A) (k : A → M B) :
  related R m → (∀ a, related R (k a)) → related R (bind m k).
Proof.
  intros Hm Hk s1 s2 H. unfold bind. specialize (Hm s1 s2 H).
  destruct (m s1), (m s2); simpl in Hm; try done.
  destruct Hm as [<- Hm]. by apply Hk.
Qed.

Lemma related_wrapping {A} ctx (m : M A) :
  related R m → related R (wrapping ctx m).
Proof.
  intros Hm s1 s2 H. unfold wrapping. specialize (Hm s1 s2 H).
  destruct (m s1), (m s2); simpl in *; try done.
  destruct Hm as [<- Hm]. done.
Qed.

Lemma related_try {A} (m : M A) : related R m → related R (try m).
Proof.
  intros Hm s1 s2 H. unfold try. specialize (Hm s1 s2 H).
  destruct (m s1), (m s2); simpl in *; try done;
    destruct Hm as [<- Hm]; done.
Qed.

Lemma related_when b m : related R m → related R (when b m).
Proof. intros Hm. destruct b; [done|apply related_ret]. Qed.

Lemma related_get_fs : related R get_fs.
Proof. intros s1 s2 H. split; [apply H|done]. Qed.
Lemma related_get_config : related R get_config.
Proof. intros s1 s2 H. split; [apply H|done]. Qed.
Lemma related_get_tmpDir : related R get_tmpDir.
Proof. intros s1 s2 H. split; [apply H|done]. Qed.
Lemma related_get_appDir : related R get_appDir.
Proof. intros s1 s2 H. split; [apply H|done]. Qed.

Lemma related_put_fs f : related R (put_fs f).
Proof. intros s1 s2 (?&?&?&?&?&?&?). split; [done|]. by repeat split. Qed.

Lemma related_set_dirs tmp app : related R (set_dirs tmp app).
Proof. intros s1 s2 (?&?&?&?&?&?&?). split; [done|]. by repeat split. Qed.

Lemma related_Command tools argv : related R (Command tools argv).
Proof.
  intros s1 s2 (?&?&?&Hfs&?&Hlog&?). unfold Command. simpl.
  rewrite Hfs, Hlog. split; [done|]. by repeat split.
Qed.

Lemma related_walk_list {S} (fn : WalkFunc S) root l acc :
  (∀ p i e a, related R (fn p i e a)) → related R (walk_list fn root l acc).
Proof.
  intros Hfn. revert acc.
  induction l as [|x l IH]; intros acc; simpl.
  - apply related_ret.
  - apply related_bind; [apply Hfn|done].
Qed.

Lemma related_Walk {S} root (fn : WalkFunc S) acc :
  (∀ p i e a, related R (fn p i e a)) → related R (Walk root fn acc).
Proof.
  intros Hfn. unfold Walk. apply related_bind; [apply related_get_fs|].
  intros f. destruct (f !! _); [apply related_walk_list|]; done.
Qed.

Lemma related_fs_update f : related R (fs_update f).
Proof.
  unfold fs_update. apply related_bind; [apply related_get_fs|].
  intros x. destruct (f x); [apply related_fail|apply related_put_fs].
Qed.

Lemma related_fs_modify f : related R (fs_modify f).
Proof.
  unfold fs_modify. apply related_bind; [apply related_get_fs|].
  intros x. apply related_put_fs.
Qed.

Lemma related_fs_read {A} (f : FS → error + A) : related R (fs_read f).
Proof.
  unfold fs_read. apply related_bind; [apply related_get_fs|].
  intros x. destruct (f x); [apply related_fail|apply related_ret].
Qed.

Lemma related_fs_check f : related R (fs_check f).
Proof.
  unfold fs_check. apply related_bind; [apply related_get_fs|].
  intros x. destruct (f x); [apply related_fail|apply related_ret].
Qed.

Ltac rel :=
  repeat match goal with
    | |- related _ (ret _) => apply related_ret
    | |- related _ (fail _) => apply related_fail
    | |- related _ get_fs => apply related_get_fs
    | |- related _ get_config => apply related_get_config
    | |- related _ get_tmpDir => apply related_get_tmpDir
    | |- related _ get_appDir => apply related_get_appDir
    | |- related _ (set_dirs _ _) => apply related_set_dirs
    | |- related _ (Command _ _) => apply related_Command
    | |- related _ (fs_update _) => apply related_fs_update
    | |- related _ (fs_modify _) => apply related_fs_modify
    | |- related _ (fs_read _) => apply related_fs_read
    | |- related _ (fs_check _) => apply related_fs_check
    | |- related _ (logProgress _) => apply Q_logProgress
    | |- related _ (Walk _ _ _) => apply related_Walk; intros ? ? ? ?
    | |- related _ (bind _ _) => apply related_bind; [|intros ?]
    | |- related _ (wrapping _ _) => apply related_wrapping
    | |- related _ (try _) => apply related_try
    | |- related _ (when _ _) => apply related_when
    | |- related _ (if ?b then _ else _) => destruct b
    | |- related _ (match ?x with _ => _ end) => destruct x
    | |- related _ _ => assumption
    end.

Lemma related_validate : related R validate.
Proof. unfold validate. rel. Qed.

Lemma related_setupDirectories : related R setupDirectories.
Proof. unfold setupDirectories. rel. Qed.

Lemma related_copyFile src dst : related R (copyFile src dst).
Proof. unfold copyFile. rel. Qed.

Lemma related_Rel b t : related R (Rel b t).
Proof. unfold Rel. rel. Qed.

Lemma related_copyDir src dst : related R (copyDir src dst).
Proof. unfold copyDir. rel; apply related_Rel || apply related_copyFile. Qed.

Lemma related_unzip_files dest files : related R (unzip_files dest files).
Proof. induction files as [|f files IH]; simpl; rel. Qed.

Lemma related_unzip src dest : related R (unzip src dest).
Proof. unfold unzip, zip.OpenReader. rel. apply related_unzip_files. Qed.

Lemma related_zipDirectory source target :
  related R (zipDirectory source target).
Proof.
  unfold zipDirectory, zip.CreateHeader, zip.Write, zip.Close.
  rel; apply related_Rel.
Qed.

Lemma related_findComponents appPath : related R (findComponents appPath).
Proof. unfold findComponents. rel. Qed.

Lemma related_extractApp : related R extractApp.
Proof.
  unfold extractApp, extractPayload, applicationPath.
  rel; apply related_unzip || apply related_copyDir.
Qed.

Lemma related_handleMobileProvision appPath :
  related R (handleMobileProvision appPath).
Proof. unfold handleMobileProvision. rel. apply related_copyFile. Qed.

Lemma related_WriteFile name data perm : related R (WriteFile name data perm).
Proof. unfold WriteFile. rel. Qed.

Lemma related_createResignedIPA appPath :
  related R (createResignedIPA appPath).
Proof.
  unfold createResignedIPA.
  rel; apply related_zipDirectory || apply related_copyDir.
Qed.

Variable tools : Tools.

Lemma related_extractEntitlements appPath :
  related R (extractEntitlements tools appPath).
Proof.
  unfold extractEntitlements, Output.
  rel; first [apply related_copyFile | apply related_WriteFile].
Qed.

Lemma related_handleBundleID appPath :
  related R (handleBundleID tools appPath).
Proof. unfold handleBundleID, Run, Output. rel. Qed.

Lemma related_codesign component entitlementsPath :
  related R (codesign tools component entitlementsPath).
Proof. unfold codesign. rel. Qed.

Lemma related_sign_inner entitlementsPath components extraCounter :
  related R (sign_inner tools entitlementsPath components extraCounter).
Proof.
  revert extraCounter.
  induction components as [|c l IH]; intros n; simpl;
    rel; first [apply related_codesign | apply IH].
Qed.

Lemma related_sign_apps entitlementsPath components :
  related R (sign_apps tools entitlementsPath components).
Proof.
  induction components as [|c l IH]; simpl; rel. apply related_codesign.
Qed.

Lemma related_signComponents appPath entitlementsPath :
  related R (signComponents tools appPath entitlementsPath).
Proof.
  unfold signComponents.
  rel; first [apply related_findComponents | apply related_sign_inner
             | apply related_sign_apps].
Qed.

Lemma related_Resign_body : related R (Resign_body tools).
Proof.
  unfold Resign_body.
  rel; first [apply related_validate | apply related_setupDirectories
             | apply related_extractApp
             | apply related_handleMobileProvision
             | apply related_extractEntitlements
             | apply related_handleBundleID
             | apply related_signComponents
             | apply related_createResignedIPA].
Qed.

Lemma related_Resign_deferred err :
  related R (Resign_deferred None err).
Proof. unfold Resign_deferred. rel. Qed.

Lemma related_Resign : related R (Resign tools).
Proof.
  intros s1 s2 H. unfold Resign.
  pose proof (related_Resign_body s1 s2 H) as Hbody.
  destruct (Resign_body tools s1), (Resign_body tools s2);
    simpl in Hbody; try done; destruct Hbody as [<- Hbody];
    by apply related_Resign_deferred.
Qed.

End Related.

(** ** The nil callback *)

Lemma logProgress_nil m s :
  callback (self s) = None →
  logProgress m s
  = Ret () {| self := self s;
              world := {| fs := fs (world s); delivered := delivered (world s);
                          stdout := stdout (world s) ++ [m];
                          execlog := execlog (world s) |} |}.
Proof. intros H. unfold logProgress, bind, get_callback. by rewrite H. Qed.

Lemma logProgress_nil_against cb d0 m :
  total cb → related (agree (nil_against cb d0)) (logProgress m).
Proof.
  intros Hcb s1 s2 (?&?&?&?&Hout&?&Hq1&Hq2).
  unfold observer in *. simpl in Hq2. injection Hq1 as Hc1 Hd1.
  rewrite (logProgress_nil m s1 Hc1).
  unfold logProgress, bind, get_callback, call, Println. rewrite Hq2, Hcb.
  simpl. unfold agree, observer, nil_against. simpl.
  rewrite Hout, Hc1, Hd1. by repeat split.
Qed.

(** C10: a Resigner made with a nil callback is safe.  logProgress
    tests the callback before it calls it: with a nil callback it
    returns, having printed the message and delivered nothing.  And a
    run of Resign with a nil callback does not panic and ends as the run
    with a callback that always returns does: the same result, the same
    files, the same printed lines, the same commands run, the same
    directories recorded; only nothing has been delivered. *)
Theorem Resign_nil_callback_safe tools c cb w :
  total cb →
  (∀ m s, callback (self s) = None →
     returned (logProgress m s) = Some ()
     ∧ delivered (world (final (logProgress m s))) = delivered (world s)
     ∧ stdout (world (final (logProgress m s))) = stdout (world s) ++ [m])
  ∧ same_outcome (agree (nil_against cb (delivered w)))
      (Resign tools (start c None w)) (Resign tools (start c (Some cb) w)).
Proof.
  intros Hcb. split.
  - intros m s H. by rewrite (logProgress_nil m s H).
  - apply related_Resign.
    + intros m. by apply logProgress_nil_against.
    + by repeat split.
Qed.

Lemma Resign_nil_callback_safe_witness :
  same_outcome (agree (nil_against returning (delivered demo_world)))
    (Resign quiet_tools (start demo_config None demo_world))
    (Resign quiet_tools (start demo_config (Some returning) demo_world)).
Proof.
  apply (Resign_nil_callback_safe quiet_tools demo_config returning demo_world).
  intros h m. reflexivity.
Defined.

(** ** Panics *)

(** C7, the failing run: the callback returns from its first call and
    panics in every later one.  The panic raised while "Extracting IPA
    file..." is logged is recovered by the deferred function, which then
    reports it through logProgress, where the callback panics again.
    This second panic leaves Resign, and the os.RemoveAll that follows is
    not reached: the temporary directory is still there. *)
Lemma Resign_panic_in_recovery_escapes :
  let o := Resign quiet_tools
             (start demo_config (Some panics_after_first) demo_world) in
  panicked o = Some "observer failed"
  ∧ returned o = None
  ∧ tmpDir (self (final o)) = "work/tmp"
  ∧ exists_at (world (final o)) "work/tmp" = true
  ∧ exists_at (world (final o)) "work/tmp/app" = true.
Proof. repeat split; vm_compute; reflexivity. Qed.

(** ** The commands a computation runs *)

Lemma emits_ret {A} (a : A) s : emits (ret a) s [] a.
Proof.
  split; [done|]. exists []. simpl. rewrite app_nil_r.
  repeat split; naive_solver.
Qed.

Lemma emits_bind {A B} (m : M A) (k : A → M B) s f1 f2 v1 v2 :
  emits m s f1 v1 →
  (∀ s1, m s = Ret v1 s1 → self s1 = self s → emits (k v1) s1 f2 v2) →
  emits (bind m k) s (f1 ++ f2) v2.
Proof.
  intros (Hself & cmds & Hlog & Hpre & Hret) Hk. unfold emits, bind.
  destruct (m s) as [a s1|e s1|v s1] eqn:Hm; simpl in *.
  - destruct (Hret a eq_refl) as [-> ->].
    destruct (Hk s1 eq_refl Hself) as (Hself2 & cmds2 & Hlog2 & Hpre2 & Hret2).
    split; [congruence|]. exists (f1 ++ cmds2).
    split; [by rewrite Hlog2, Hlog, (assoc_L (++))|].
    split; [by apply prefix_app|].
    intros b Hb. destruct (Hret2 b Hb) as [-> ->]. done.
  - split; [done|]. exists cmds. split; [done|].
    split; [by apply prefix_app_r|done].
  - split; [done|]. exists cmds. split; [done|].
    split; [by apply prefix_app_r|done].
Qed.

Lemma emits_wrapping {A} ctx (m : M A) s f v :
  emits m s f v → emits (wrapping ctx m) s f v.
Proof.
  unfold emits, wrapping. destruct (m s); simpl; done.
Qed.

Lemma emits_get_config s : emits get_config s [] (config (self s)).
Proof.
  split; [done|]. exists []. simpl. rewrite app_nil_r.
  repeat split; naive_solver.
Qed.

Lemma emits_logProgress m s : emits (logProgress m) s [] ().
Proof.
  pose proof (logProgress_keeps_fs m s) as (Hself & _ & Hlog).
  split; [done|]. exists []. rewrite app_nil_r. split; [done|].
  split; [done|]. by intros [].
Qed.

Lemma emits_Command tools argv s :
  emits (Command tools argv) s [argv]
    (tool_out (tools argv (fs (world s))),
     ExitError <$> tool_err (tools argv (fs (world s)))).
Proof.
  split; [done|]. exists [argv]. simpl. repeat split; naive_solver.
Qed.

Lemma emits_codesign tools component entitlementsPath s :
  emits (codesign tools component entitlementsPath) s
    [codesign_argv (Certificate (config (self s))) entitlementsPath component]
    ().
Proof.
  unfold codesign.
  apply (emits_bind _ _ _ [] [_] _ _ (emits_get_config s)).
  intros s1 [= <-] _.
  eapply (emits_bind _ _ _ [_] [] _ _ (emits_Command _ _ _)).
  intros s1 _ _. simpl.
  destruct (tool_err _); simpl; [|apply emits_ret].
  split; [done|]. exists []. simpl. rewrite app_nil_r. done.
Qed.

Lemma emits_sign_inner tools entitlementsPath components n s :
  emits (sign_inner tools entitlementsPath components n) s
    (inner_commands (config (self s)) entitlementsPath components n) ().
Proof.
  revert n s. induction components as [|x l IH]; intros n s; simpl.
  { apply emits_ret. }
  destruct (is_ext x ".appex").
  - apply (emits_bind _ _ _ [] _ _ _ (emits_get_config s)).
    intros ? [= <-] _.
    eapply emits_bind with
      (v1 := if nonempty (BundleID (config (self s))) then S n else n).
    { destruct (nonempty (BundleID (config (self s)))); [|apply emits_ret].
      apply (emits_bind _ _ _ [] [_] _ _ (emits_logProgress _ s)).
      intros s1 _ _.
      eapply (emits_bind _ _ _ [_] [] _ _ (emits_Command _ _ _)).
      intros s2 _ _.
      apply (emits_bind _ _ _ [] [] () _); [|intros; apply emits_ret].
      destruct (_.2); [apply emits_logProgress|apply emits_ret]. }
    intros s1 _ Hself. rewrite <-Hself.
    eapply (emits_bind _ _ _ [_] _ _ _).
    { apply emits_wrapping, emits_codesign. }
    intros s2 _ Hself2. rewrite <-Hself2. apply IH.
  - destruct (is_ext x ".framework" || is_ext x ".dylib"); [|apply IH].
    eapply (emits_bind _ _ _ [_] _ _ _).
    { apply emits_wrapping, emits_codesign. }
    intros s2 _ Hself2.
    rewrite <-Hself2. apply IH.
Qed.

(** ** findComponents as a function of the filesystem *)

Lemma foldl_snoc_filter {A} (P : A → Prop) `{∀ x, Decision (P x)}
  (l acc : list A) :
  foldl (λ acc x, if bool_decide (P x) then acc ++ [x] else acc) acc l
  = acc ++ filter P l.
Proof.
  revert acc. induction l as [|x l IH]; intros acc; simpl.
  { by rewrite app_nil_r. }
  rewrite IH. rewrite filter_cons.
  case_bool_decide; case_decide; try done.
  by rewrite <-(assoc_L (++)).
Qed.

Lemma foldl_snoc_filter_not {A} (P : A → Prop) `{∀ x, Decision (P x)}
  (l acc : list A) :
  foldl (λ acc x, if negb (bool_decide (P x)) then acc ++ [x] else acc) acc l
  = acc ++ filter (λ x, ¬ P x) l.
Proof.
  revert acc. induction l as [|x l IH]; intros acc; simpl.
  { by rewrite app_nil_r. }
  rewrite IH. rewrite filter_cons.
  case_bool_decide; case_decide; simpl; try done.
  by rewrite <-(assoc_L (++)).
Qed.

Lemma components_step path info (acc : list string) s :
  (if fi_isdir info then
     if is_ext path ".app" || is_ext path ".appex" || is_ext path ".framework"
     then ret (acc ++ [path]) else ret acc
   else
     if is_ext path ".dylib" then ret (acc ++ [path]) else ret acc) s
  = Ret (if is_component (path, info) then acc ++ [path] else acc) s.
Proof.
  unfold is_component. simpl.
  destruct (fi_isdir info); [destruct (_ || _ || _)|destruct (is_ext _ _)];
    done.
Qed.

Lemma walk_list_components root l acc s :
  walk_list (S := list string) (λ path info err components,
      match err, info with
      | Some e, _ => fail e
      | None, None => ret components
      | None, Some info =>
          if fi_isdir info then
            if is_ext path ".app" || is_ext path ".appex"
               || is_ext path ".framework"
            then ret (components ++ [path]) else ret components
          else
            if is_ext path ".dylib"
            then ret (components ++ [path]) else ret components
      end) root l acc s
  = Ret (acc ++ (filter (λ e, is_component e)
                   ((λ e, (walk_path root e.1, walk_info root e)) <$> l)).*1)
        s.
Proof.
  revert acc. induction l as [|e l IH]; intros acc.
  { simpl. by rewrite app_nil_r. }
  cbn [walk_list]. rewrite fmap_cons, filter_cons.
  set (p := walk_path root e.1). set (i := walk_info root e).
  unfold bind. rewrite components_step, IH.
  destruct (is_component (p, i)).
  - rewrite decide_True by done. by rewrite fmap_cons, <-(assoc_L (++)).
  - rewrite decide_False by (by intros []). done.
Qed.

Lemma findComponents_found appPath s n :
  fs (world s) !! filepath.path_key appPath = Some n →
  findComponents appPath s
  = Ret (apps_last (walked_components (fs (world s)) appPath n)) s.
Proof.
  intros Hn. unfold findComponents, Walk.
  unfold bind at 1. unfold bind at 1. unfold get_fs at 1. rewrite Hn.
  rewrite walk_list_components. unfold ret. f_equal.
  unfold is_ext.
  rewrite (foldl_snoc_filter (λ c, filepath.Ext c = ".app")).
  rewrite (foldl_snoc_filter_not (λ c, filepath.Ext c = ".app")).
  done.
Qed.

Lemma findComponents_missing appPath s :
  fs (world s) !! filepath.path_key appPath = None →
  findComponents appPath s = Err (PathError "lstat" appPath ENOENT) s.
Proof.
  intros Hn. unfold findComponents, Walk.
  unfold bind at 1. unfold bind at 1. unfold get_fs at 1. by rewrite Hn.
Qed.

(** findComponents reads the filesystem and changes nothing. *)
Lemma findComponents_same_fs appPath s s0 comps s1 :
  findComponents appPath s = Ret comps s0 →
  fs (world s1) = fs (world s) →
  s0 = s ∧ findComponents appPath s1 = Ret comps s1.
Proof.
  intros H Hfs.
  destruct (fs (world s) !! filepath.path_key appPath) as [n|] eqn:Hn.
  - rewrite (findComponents_found _ _ _ Hn) in H. injection H as <- <-.
    rewrite <-Hfs in Hn. rewrite (findComponents_found _ _ _ Hn).
    by rewrite Hfs.
  - by rewrite (findComponents_missing _ _ Hn) in H.
Qed.

Lemma emits_sign_apps tools entitlementsPath components s :
  emits (sign_apps tools entitlementsPath components) s
    (app_commands (config (self s)) entitlementsPath components) ().
Proof.
  revert s. induction components as [|x l IH]; intros s; simpl.
  { apply emits_ret. }
  unfold app_commands. rewrite filter_cons. unfold is_ext.
  case_bool_decide; case_decide; try (by exfalso); simpl.
  - eapply (emits_bind _ _ _ [_] _ _ _).
    { apply emits_wrapping, emits_codesign. }
    intros s2 _ Hself2. rewrite <-Hself2. apply IH.
  - apply IH.
Qed.

(** The commands of signComponents, for the components it finds. *)
Lemma emits_signComponents tools appPath entitlementsPath s comps s0 :
  findComponents appPath s = Ret comps s0 →
  emits (signComponents tools appPath entitlementsPath) s
    (inner_commands (config (self s)) entitlementsPath comps 0
     ++ app_commands (config (self s)) entitlementsPath comps) ().
Proof.
  intros Hfind. unfold signComponents.
  apply (emits_bind _ _ _ [] _ _ _ (emits_get_config s)).
  intros ? [= <-] _.
  apply (emits_bind _ _ _ [] _ _ _ (emits_logProgress _ s)).
  intros s1 Hs1 Hself1.
  assert (fs (world s1) = fs (world s)) as Hfs1.
  { pose proof (logProgress_keeps_fs
      ("Get list of components and sign with certificate: "
         +:+ Certificate (config (self s))) s) as (_ & Hfs & _).
    by rewrite Hs1 in Hfs. }
  destruct (findComponents_same_fs _ _ _ _ s1 Hfind Hfs1) as [_ Hfind1].
  apply (emits_bind _ _ _ [] _ comps _).
  { split; [by rewrite Hfind1|]. exists []. rewrite Hfind1. simpl.
    rewrite app_nil_r. repeat split; naive_solver. }
  intros s2 Hs2 Hself2. rewrite Hfind1 in Hs2. injection Hs2 as <-.
  apply (emits_bind _ _ _ [] _ _ _ (emits_logProgress _ s1)).
  intros s3 _ Hself3. rewrite <-Hself1, <-Hself3.
  eapply emits_bind; [apply emits_sign_inner|].
  intros s4 _ Hself4. rewrite <-Hself4.
  apply (emits_bind _ _ _ [] _ _ _ (emits_logProgress _ s4)).
  intros s5 _ Hself5. rewrite <-Hself5. apply emits_sign_apps.
Qed.

Lemma filter_prefix {A} (P : A → Prop) `{∀ x, Decision (P x)} (l1 l2 : list A) :
  l1 `prefix_of` l2 → filter P l1 `prefix_of` filter P l2.
Proof. intros [k ->]. rewrite filter_app. by apply prefix_app_r. Qed.

Lemma filter_PlistBuddy_inner c entitlementsPath components n :
  filter (is_tool PlistBuddy) (inner_commands c entitlementsPath components n)
  = if nonempty (BundleID c)
    then imap (λ i component,
                 plistbuddy_set (BundleID c +:+ ".extra" +:+ pretty (n + i))
                                (filepath.Join component "Info.plist"))
              (filter (λ x, filepath.Ext x = ".appex") components)
    else [].
Proof.
  revert n. induction components as [|x l IH]; intros n; simpl.
  { by destruct (nonempty _). }
  rewrite (filter_cons (λ x, filepath.Ext x = ".appex")). unfold is_ext.
  case_bool_decide; case_decide; try done.
  - destruct (nonempty (BundleID c)) eqn:Hb; simpl.
    + rewrite filter_cons_True by done. rewrite filter_cons_False by done.
      rewrite IH. rewrite Nat.add_0_r. f_equal.
      apply imap_ext. intros i y _. simpl. by rewrite Nat.add_succ_r.
    + rewrite filter_cons_False by done. by rewrite IH.
  - destruct (_ || _); [rewrite filter_cons_False by done|]; apply IH.
Qed.

Lemma filter_PlistBuddy_apps c entitlementsPath components :
  filter (is_tool PlistBuddy) (app_commands c entitlementsPath components) = [].
Proof.
  unfold app_commands.
  induction (filter _ components) as [|x l IH]; simpl; [done|].
  by rewrite filter_cons_False.
Qed.

(** C5: signComponents sets the identifiers of the extensions through
    PlistBuddy commands.  With [BundleID] set, these commands are, in
    order, a prefix of those that give the i-th extension found (from
    zero, in discovery order) the identifier [BundleID.extra{i}], and all
    of them when signComponents returns; with [BundleID] unset, there is
    no such command. *)
Theorem signComponents_extension_identifiers tools appPath entitlementsPath
  s comps s0 :
  findComponents appPath s = Ret comps s0 →
  let o := signComponents tools appPath entitlementsPath s in
  let bundle := BundleID (config (self s)) in
  ∃ cmds, execlog (world (final o)) = execlog (world s) ++ cmds
    ∧ if nonempty bundle then
        filter (is_tool PlistBuddy) cmds
          `prefix_of` extension_identifiers bundle comps
        ∧ (returned o = Some () →
           filter (is_tool PlistBuddy) cmds
           = extension_identifiers bundle comps)
      else filter (is_tool PlistBuddy) cmds = [].
Proof.
  intros Hfind. simpl.
  destruct (emits_signComponents tools appPath entitlementsPath s comps s0 Hfind)
    as (_ & cmds & Hlog & Hpre & Hret).
  exists cmds. split; [done|].
  apply (filter_prefix (is_tool PlistBuddy)) in Hpre.
  rewrite filter_app, filter_PlistBuddy_inner, filter_PlistBuddy_apps,
    app_nil_r in Hpre.
  unfold extension_identifiers.
  destruct (nonempty (BundleID (config (self s)))) eqn:Hb.
  - split; [done|]. intros Ho. destruct (Hret () Ho) as [_ ->].
    by rewrite filter_app, filter_PlistBuddy_inner, filter_PlistBuddy_apps,
      app_nil_r, Hb.
  - by apply prefix_nil_inv in Hpre.
Qed.

Lemma signComponents_extension_identifiers_witness :
  let s := extracted acme_config None acme_world in
  let appPath := "work/tmp/app/Payload/Acme.app" in
  let o := signComponents quiet_tools appPath "work/tmp/entitlements.plist" s in
  let bundle := BundleID (config (self s)) in
  ∃ cmds, execlog (world (final o)) = execlog (world s) ++ cmds
    ∧ if nonempty bundle then
        filter (is_tool PlistBuddy) cmds
          `prefix_of` extension_identifiers bundle
                        (default [] (returned (findComponents appPath s)))
        ∧ (returned o = Some () →
           filter (is_tool PlistBuddy) cmds
           = extension_identifiers bundle
               (default [] (returned (findComponents appPath s))))
      else filter (is_tool PlistBuddy) cmds = [].
Proof.
  apply (signComponents_extension_identifiers quiet_tools
           "work/tmp/app/Payload/Acme.app" "work/tmp/entitlements.plist"
           (extracted acme_config None acme_world) _
           (final (findComponents "work/tmp/app/Payload/Acme.app"
                     (extracted acme_config None acme_world)))).
  apply returned_Ret. vm_compute. reflexivity.
Defined.

(** The example of the specification: the identifiers of three
    extensions under [com.acme.app]. *)
Example acme_extension_identifiers :
  let s := extracted acme_config None acme_world in
  let appPath := "work/tmp/app/Payload/Acme.app" in
  returned (findComponents appPath s)
  = Some ["work/tmp/app/Payload/Acme.app/Frameworks/Core.framework";
          "work/tmp/app/Payload/Acme.app/Frameworks/libz.dylib";
          "work/tmp/app/Payload/Acme.app/PlugIns/Share.appex";
          "work/tmp/app/Payload/Acme.app/PlugIns/Today.appex";
          "work/tmp/app/Payload/Acme.app/PlugIns/Watch.appex";
          "work/tmp/app/Payload/Acme.app"]
  ∧ filter (is_tool PlistBuddy)
      (execlog (world (final (signComponents quiet_tools appPath
                                "work/tmp/entitlements.plist" s))))
    = [plistbuddy_set "com.acme.app.extra0"
         "work/tmp/app/Payload/Acme.app/PlugIns/Share.appex/Info.plist";
       plistbuddy_set "com.acme.app.extra1"
         "work/tmp/app/Payload/Acme.app/PlugIns/Today.appex/Info.plist";
       plistbuddy_set "com.acme.app.extra2"
         "work/tmp/app/Payload/Acme.app/PlugIns/Watch.appex/Info.plist"].
Proof. split; vm_compute; reflexivity. Qed.

(** ** Forced failures of the external tools *)

Lemma logProgress_quiet m s :
  quiet_state s →
  ∃ s', logProgress m s = Ret () s'
        ∧ self s' = self s ∧ fs (world s') = fs (world s)
        ∧ execlog (world s') = execlog (world s)
        ∧ stdout (world s') = stdout (world s) ++ [m].
Proof.
  unfold quiet_state, logProgress, bind, get_callback, call, Println.
  destruct (callback (self s)) as [cb|]; [intros ->|intros _];
    eexists; split; try reflexivity; done.
Qed.

Lemma quiet_state_self s s' : self s' = self s → quiet_state s → quiet_state s'.
Proof. unfold quiet_state. by intros ->. Qed.

Lemma codesign_succeeds_Ret tools component entitlementsPath s :
  codesign_succeeds tools →
  ∃ s', codesign tools component entitlementsPath s = Ret () s'
        ∧ self s' = self s ∧ stdout (world s') = stdout (world s).
Proof.
  intros Hok. unfold codesign, bind, get_config, Command. simpl.
  unfold codesign_argv. rewrite (Hok _ _). simpl. by eexists.
Qed.

Lemma sign_inner_forced tools st entitlementsPath components n s :
  quiet_state s → codesign_succeeds tools → PlistBuddy_fails tools st →
  BundleID (config (self s)) ≠ "" →
  ∃ s', sign_inner tools entitlementsPath components n s = Ret () s'
        ∧ self s' = self s
        ∧ stdout (world s) `prefix_of` stdout (world s')
        ∧ ∀ x, x ∈ components → filepath.Ext x = ".appex" →
               warning x st ∈ stdout (world s').
Proof.
  intros Hq Hcs Hpb Hb. revert n s Hq Hb.
  induction components as [|x l IH]; intros n s Hq Hb; simpl.
  { exists s. repeat split; try done. intros x Hx. by apply elem_of_nil in Hx. }
  unfold is_ext at 1. case_bool_decide as Hext.
  - unfold bind at 1, get_config at 1. unfold nonempty.
    rewrite bool_decide_false by done. simpl.
    destruct (logProgress_quiet
      ("Changing .appex bundle identifier with: "
         +:+ BundleID (config (self s)) +:+ ".extra" +:+ pretty n) s Hq)
      as (s1 & H1 & Hself1 & _ & _ & Hout1).
    unfold bind at 1. unfold bind at 1. rewrite H1.
    unfold bind at 1. unfold Command at 1. unfold plistbuddy_set at 2.
    rewrite (Hpb _ _). simpl.
    match goal with |- context [bind (logProgress ?m) _ ?s2] =>
      destruct (logProgress_quiet m s2) as (s3 & H3 & Hself3 & _ & _ & Hout3);
        [by apply (quiet_state_self s)|] end.
    rewrite (bind_Ret _ _ _ _ _ H3). unfold ret at 1. cbv beta iota.
    destruct (codesign_succeeds_Ret tools x entitlementsPath s3 Hcs)
      as (s4 & H4 & Hself4 & Hout4).
    rewrite (bind_Ret _ _ _ _ _ (wrapping_Ret _ _ _ _ _ H4)).
    simpl in Hself3, Hout3.
    assert (self s4 = self s) as Hself by congruence.
    destruct (IH (S n) s4) as (s' & H' & Hself' & Hout' & Hwarn).
    { by apply (quiet_state_self s). }
    { by rewrite Hself. }
    exists s'. split; [done|]. split; [congruence|].
    assert (stdout (world s3) `prefix_of` stdout (world s')) as Hpre.
    { by rewrite <-Hout4. }
    split.
    { etrans; [|exact Hpre]. rewrite Hout3, Hout1, <-(assoc_L (++)).
      by apply prefix_app_r. }
    intros y Hy Hey. apply elem_of_cons in Hy as [->|Hy]; [|by apply Hwarn].
    destruct Hpre as [k ->]. rewrite Hout3.
    apply elem_of_app. left. apply elem_of_app. right.
    apply list_elem_of_singleton. reflexivity.
  - assert (∀ m : M unit, (∃ s1, m s = Ret () s1 ∧ self s1 = self s
                                  ∧ stdout (world s1) = stdout (world s)) →
       ∃ s', bind m (λ _, sign_inner tools entitlementsPath l n) s = Ret () s'
         ∧ self s' = self s
         ∧ stdout (world s) `prefix_of` stdout (world s')
         ∧ ∀ y, y ∈ x :: l → filepath.Ext y = ".appex" →
                warning y st ∈ stdout (world s')) as Hrest.
    { intros m (s1 & H1 & Hself1 & Hout1).
      destruct (IH n s1) as (s' & H' & Hself' & Hout' & Hwarn).
      { by apply (quiet_state_self s). }
      { by rewrite Hself1. }
      exists s'. rewrite (bind_Ret _ _ _ _ _ H1).
      split; [done|]. split; [congruence|]. split; [by rewrite <-Hout1|].
      intros y Hy Hey. apply elem_of_cons in Hy as [->|Hy]; [done|].
      by apply Hwarn. }
    destruct (is_ext x ".framework" || is_ext x ".dylib").
    + apply Hrest.
      destruct (codesign_succeeds_Ret tools x entitlementsPath s Hcs)
        as (s1 & H1 & ? & ?).
      exists s1. by rewrite (wrapping_Ret _ _ _ _ _ H1).
    + destruct (Hrest (ret ())) as (s' & H' & ?); [by exists s|].
      by exists s'.
Qed.

Lemma sign_apps_succeeds tools entitlementsPath components s :
  codesign_succeeds tools →
  ∃ s', sign_apps tools entitlementsPath components s = Ret () s'
        ∧ self s' = self s ∧ stdout (world s') = stdout (world s).
Proof.
  intros Hcs. revert s. induction components as [|x l IH]; intros s; simpl.
  { by exists s. }
  destruct (is_ext x ".app"); simpl.
  - destruct (codesign_succeeds_Ret tools x entitlementsPath s Hcs)
      as (s1 & H1 & Hself1 & Hout1).
    rewrite (bind_Ret _ _ _ _ _ (wrapping_Ret _ _ _ _ _ H1)).
    destruct (IH s1) as (s' & H' & Hself' & Hout').
    exists s'. split; [done|]. split; congruence.
  - apply IH.
Qed.

Lemma filter_Codesign_inner c entitlementsPath components n :
  filter (is_tool Codesign) (inner_commands c entitlementsPath components n)
  = codesign_argv (Certificate c) entitlementsPath
      <$> filter signed_first components.
Proof.
  revert n. induction components as [|x l IH]; intros n; simpl; [done|].
  unfold is_ext.
  destruct (decide (filepath.Ext x = ".appex")) as [Ha|Ha].
  { rewrite bool_decide_true by done.
    rewrite (filter_cons_True signed_first) by (by left).
    rewrite filter_app.
    assert (filter (is_tool Codesign)
              (if nonempty (BundleID c)
               then [plistbuddy_set (BundleID c +:+ ".extra" +:+ pretty n)
                       (filepath.Join x "Info.plist")]
               else []) = []) as ->.
    { destruct (nonempty _); [|done]. by rewrite filter_cons_False. }
    simpl. rewrite filter_cons_True by done. by rewrite IH. }
  rewrite bool_decide_false by done.
  destruct (decide (filepath.Ext x = ".framework")) as [Hf|Hf].
  { rewrite bool_decide_true by done. simpl.
    rewrite (filter_cons_True signed_first) by (by right; left).
    rewrite filter_cons_True by done. by rewrite IH. }
  rewrite bool_decide_false by done.
  destruct (decide (filepath.Ext x = ".dylib")) as [Hd|Hd].
  { rewrite bool_decide_true by done. simpl.
    rewrite (filter_cons_True signed_first) by (by right; right).
    rewrite filter_cons_True by done. by rewrite IH. }
  rewrite bool_decide_false by done. simpl.
  rewrite (filter_cons_False signed_first); [apply IH|].
  by intros [?|[?|?]].
Qed.

Lemma filter_Codesign_apps c entitlementsPath components :
  filter (is_tool Codesign) (app_commands c entitlementsPath components)
  = app_commands c entitlementsPath components.
Proof.
  unfold app_commands.
  induction (filter _ components) as [|x l IH]; [done|].
  rewrite fmap_cons, filter_cons_True by done. by rewrite IH.
Qed.

Lemma filter_Forall_iff {A} (P Q : A → Prop) `{∀ x, Decision (P x)}
  `{∀ x, Decision (Q x)} (l : list A) :
  Forall (λ x, P x ↔ Q x) l → filter P l = filter Q l.
Proof.
  induction 1 as [|x l Hx _ IH]; [done|].
  rewrite !filter_cons, IH. repeat case_decide; try done; tauto.
Qed.

(** Every component found has one of the four extensions. *)
Lemma walked_components_ext f root n :
  Forall (λ x, signed_first x ∨ filepath.Ext x = ".app")
         (walked_components f root n).
Proof.
  unfold walked_components. apply Forall_fmap, Forall_forall.
  intros [p i] Hp%list_elem_of_filter. destruct Hp as [Hp _].
  unfold is_component, is_ext, signed_first in *. simpl in *.
  destruct (fi_isdir i); repeat case_bool_decide; naive_solver.
Qed.

Lemma signed_first_not_app x : signed_first x → filepath.Ext x ≠ ".app".
Proof. unfold signed_first. intros [H|[H|H]]; rewrite H; discriminate. Qed.

(** The two loops of signComponents sign every component found, in the
    order found. *)
Lemma apps_last_all_signed l :
  Forall (λ x, signed_first x ∨ filepath.Ext x = ".app") l →
  filter signed_first (apps_last l)
    ++ filter (λ x, filepath.Ext x = ".app") (apps_last l)
  = apps_last l.
Proof.
  intros Hl. unfold apps_last. rewrite !filter_app.
  assert (filter signed_first (filter (λ c, filepath.Ext c = ".app") l) = [])
    as ->.
  { induction l as [|x l IH]; [done|]. inversion_clear Hl.
    rewrite filter_cons. case_decide; [|by apply IH].
    rewrite filter_cons_False; [by apply IH|].
    intros ?%signed_first_not_app. done. }
  assert (filter (λ x, filepath.Ext x = ".app")
            (filter (λ c, filepath.Ext c ≠ ".app") l) = []) as ->.
  { clear Hl. induction l as [|x l IH]; [done|].
    rewrite filter_cons. case_decide; [|by apply IH].
    by rewrite filter_cons_False. }
  rewrite app_nil_r. simpl. f_equal; [|by rewrite list_filter_filter_l].
  rewrite list_filter_filter.
  apply filter_Forall_iff. eapply Forall_impl; [exact Hl|].
  intros x [Hx|Hx]; simpl; [|tauto].
  pose proof (signed_first_not_app x Hx). tauto.
Qed.

(** ** A run that stops before signing *)

#[local] Instance unsigned_preorder : PreOrder unsigned.
Proof.
  split.
  - intros s. repeat split. exists []. by rewrite app_nil_r.
  - intros a b c (Hc1 & Hb1 & l1 & Hl1 & Hf1) (Hc2 & Hb2 & l2 & Hl2 & Hf2).
    split; [congruence|]. split; [congruence|]. exists (l1 ++ l2).
    split; [by rewrite Hl2, Hl1, (assoc_L (++))|by apply Forall_app].
Qed.

Lemma unsigned_same s s' :
  config (self s') = config (self s) → callback (self s') = callback (self s) →
  execlog (world s') = execlog (world s) → unsigned s s'.
Proof.
  intros ?? Hlog. repeat split; try done. exists []. by rewrite app_nil_r.
Qed.

Lemma unsigned_put_fs f : preserves unsigned (put_fs f).
Proof. intros s. by apply unsigned_same. Qed.

Lemma unsigned_Println m : preserves unsigned (Println m).
Proof. intros s. by apply unsigned_same. Qed.

Lemma unsigned_call cb m : preserves unsigned (call cb m).
Proof. intros s. unfold call. destruct (cb _ _); by apply unsigned_same. Qed.

Lemma unsigned_set_dirs tmp app : preserves unsigned (set_dirs tmp app).
Proof. intros s. by apply unsigned_same. Qed.

Lemma unsigned_Command tools argv :
  ¬ is_tool Codesign argv → preserves unsigned (Command tools argv).
Proof.
  intros Hargv s. repeat split. exists [argv]. split; [done|].
  by repeat constructor.
Qed.

Lemma unsigned_logProgress m : preserves unsigned (logProgress m).
Proof.
  apply preserves_logProgress;
    [apply _|apply unsigned_Println|apply unsigned_call].
Qed.

Lemma halts_bind_l {A B} (m : M A) (k : A → M B) s :
  halts m s → halts (bind m k) s.
Proof. unfold halts, bind. intros [H U]. by destruct (m s). Qed.

Lemma halts_bind_r {A B} (m : M A) (k : A → M B) s :
  preserves unsigned m →
  (∀ a s1, m s = Ret a s1 → unsigned s s1 → halts (k a) s1) →
  halts (bind m k) s.
Proof.
  intros Hm Hk. specialize (Hm s). unfold halts, bind in *.
  destruct (m s) as [a s1|e s1|v s1]; simpl in *; [|done..].
  destruct (Hk a s1 eq_refl Hm) as [? ?]. split; [done|]. by etrans.
Qed.

Lemma halts_wrapping {A} ctx (m : M A) s : halts m s → halts (wrapping ctx m) s.
Proof. unfold halts, wrapping. intros [H U]. by destruct (m s). Qed.

Lemma handleBundleID_set tools appPath s :
  BundleID (config (self s)) ≠ "" →
  handleBundleID tools appPath s
  = (logProgress ("Changing bundle identifier with: "
                    +:+ BundleID (config (self s))) ;;;
     Run tools (plistbuddy_set (BundleID (config (self s)))
                  (filepath.Join appPath "Info.plist"))) s.
Proof.
  intros Hb. unfold handleBundleID. unfold bind at 1. unfold get_config.
  by rewrite bool_decide_false.
Qed.

(** handleBundleID, when the command it runs fails. *)
Lemma handleBundleID_fails tools st appPath s :
  BundleID (config (self s)) ≠ "" →
  primary_mutation_fails tools (config (self s)) st →
  halts (handleBundleID tools appPath) s
  ∧ (quiet_state s →
     failed (handleBundleID tools appPath s) = Some (ExitError st)).
Proof.
  intros Hb Hfail. unfold halts. rewrite (handleBundleID_set _ _ _ Hb).
  pose proof (unsigned_logProgress
    ("Changing bundle identifier with: " +:+ BundleID (config (self s))) s)
    as Hu.
  assert (∀ s1, Run tools (plistbuddy_set (BundleID (config (self s)))
                             (filepath.Join appPath "Info.plist")) s1
                = Err (ExitError st)
                    (final (Command tools
                              (plistbuddy_set (BundleID (config (self s)))
                                 (filepath.Join appPath "Info.plist")) s1)))
    as HRun.
  { intros s1. unfold Run, Output, bind, Command. by rewrite (Hfail _ _). }
  split.
  - destruct (logProgress _ s) as [[] s1|e s1|v s1] eqn:H1; simpl in Hu;
      [rewrite (bind_Ret _ _ _ _ _ H1)
      |rewrite (bind_Err _ _ _ _ _ H1); by split
      |rewrite (bind_Panicked _ _ _ _ _ H1); by split].
    rewrite HRun. split; [done|]. etrans; [exact Hu|].
    by apply unsigned_Command.
  - intros Hq.
    destruct (logProgress_quiet
      ("Changing bundle identifier with: " +:+ BundleID (config (self s)))
      s Hq) as (s1 & H1 & _).
    rewrite (bind_Ret _ _ _ _ _ H1). by rewrite HRun.
Qed.

Lemma Resign_body_halts tools c cb w st :
  BundleID c ≠ "" → primary_mutation_fails tools c st →
  halts (Resign_body tools) (start c cb w).
Proof.
  intros Hb Hfail. unfold Resign_body.
  assert (∀ args, ¬ is_tool Codesign ("security" :: args)) as Hsec by done.
  assert (∀ args, ¬ is_tool Codesign (PlistBuddy :: args)) as Hpb by done.
  apply halts_bind_r.
  { apply preserves_validate, _. }
  intros [] s1 _ U1. apply halts_bind_r; [apply unsigned_logProgress|].
  intros [] s2 _ U2. apply halts_bind_r.
  { apply preserves_wrapping, preserves_setupDirectories;
      [apply _|apply unsigned_put_fs|apply unsigned_set_dirs]. }
  intros [] s3 _ U3. apply halts_bind_r.
  { apply preserves_wrapping, preserves_extractApp;
      [apply _|apply unsigned_put_fs|apply unsigned_Println
      |apply unsigned_call]. }
  intros appPath s4 _ U4. apply halts_bind_r.
  { apply preserves_wrapping, preserves_handleMobileProvision;
      [apply _|apply unsigned_put_fs|apply unsigned_Println
      |apply unsigned_call]. }
  intros [] s5 _ U5. apply halts_bind_r.
  { apply preserves_wrapping,
      (preserves_extractEntitlements unsigned) with
        (allowed := λ argv, ¬ is_tool Codesign argv);
      [apply unsigned_put_fs|apply unsigned_Println|apply unsigned_call
      |intros; by apply unsigned_Command|done..]. }
  intros entitlementsPath s6 _ U6.
  apply halts_bind_l, halts_wrapping.
  assert (config (self s6) = c) as Hc.
  { destruct U1 as [E1 _], U2 as [E2 _], U3 as [E3 _], U4 as [E4 _],
      U5 as [E5 _], U6 as [E6 _]. by rewrite E6, E5, E4, E3, E2, E1. }
  apply (handleBundleID_fails tools st); by rewrite Hc.
Qed.

Lemma logProgress_same_observer m :
  related (agree same_observer) (logProgress m).
Proof.
  intros s1 s2 (?&?&?&?&Hout&?&Hobs&Hq).
  unfold observer in *. injection Hobs as Hcb Hdel. simpl in Hq.
  unfold logProgress, bind, get_callback, call, Println. rewrite <-Hcb.
  destruct (callback (self s1)) as [cb|] eqn:Hcb1.
  - rewrite !Hq. simpl. unfold agree, observer, same_observer. simpl.
    rewrite Hout, Hdel, <-Hcb, Hcb1. by repeat split.
  - simpl. unfold agree, observer, same_observer. simpl.
    rewrite Hout, Hdel, <-Hcb, Hcb1. by repeat split.
Qed.

(** The result of Resign is its named result: it never ends as an error
    of the monad. *)
Lemma Resign_deferred_never_Err rec err s e s' :
  Resign_deferred rec err s ≠ Err e s'.
Proof.
  unfold Resign_deferred. destruct rec as [v|].
  - destruct (logProgress ("ERROR: " +:+ Error (Errorf ("panic occurred: " +:+ v))) s)
      as [[] s1|e1 s1|v1 s1] eqn:Hl.
    + unfold bind at 1. unfold bind at 1. rewrite Hl.
      unfold bind, ret, get_tmpDir, when, fs_modify, bind, get_fs, put_fs.
      by destruct (nonempty _).
    + by apply logProgress_never_fails in Hl.
    + unfold bind at 1. unfold bind at 1. by rewrite Hl.
  - unfold bind, ret, get_tmpDir, when, fs_modify, bind, get_fs, put_fs.
    by destruct (nonempty _).
Qed.

Lemma Resign_never_Err tools s e s' : Resign tools s ≠ Err e s'.
Proof.
  unfold Resign. destruct (Resign_body tools s);
    apply Resign_deferred_never_Err.
Qed.

(** With a nil callback, or one that always returns, Resign returns. *)
Lemma Resign_returns tools s :
  quiet_state s → ∃ r, returned (Resign tools s) = Some r.
Proof.
  intros Hq.
  pose proof (related_Resign same_observer logProgress_same_observer tools s s)
    as H.
  assert (agree same_observer s s) as Hs by by repeat split.
  specialize (H Hs).
  destruct (Resign tools s) as [r s'|e s'|v s'] eqn:HR; simpl in H.
  - by exists r.
  - by destruct (Resign_never_Err tools s e s').
  - done.
Qed.

Lemma unsigned_Resign_deferred rec err :
  preserves unsigned (Resign_deferred rec err).
Proof.
  unfold Resign_deferred.
  apply preserves_bind; [apply _|..].
  { destruct rec; [|by apply preserves_ret, _].
    apply preserves_bind; [apply _|apply unsigned_logProgress|].
    intros _. by apply preserves_ret, _. }
  intros r. apply preserves_bind; [apply _|by apply preserves_get_tmpDir, _|].
  intros t. apply preserves_bind; [apply _|..]; [|intros; by apply preserves_ret, _].
  apply preserves_when; [apply _|].
  apply preserves_fs_modify; [apply _|apply unsigned_put_fs].
Qed.

Lemma Resign_deferred_value rec err s r :
  returned (Resign_deferred rec err s) = Some r →
  r = match rec with
      | Some v => Some (Errorf ("panic occurred: " +:+ v))
      | None => err
      end.
Proof.
  unfold Resign_deferred. destruct rec as [v|].
  - destruct (logProgress ("ERROR: " +:+ Error (Errorf ("panic occurred: " +:+ v))) s)
      as [[] s1|e1 s1|v1 s1] eqn:Hl;
      unfold bind at 1; unfold bind at 1; rewrite Hl; [|done..].
    unfold bind, ret, get_tmpDir, when, fs_modify, bind, get_fs, put_fs.
    destruct (nonempty _); simpl; congruence.
  - unfold bind, ret, get_tmpDir, when, fs_modify, bind, get_fs, put_fs.
    destruct (nonempty _); simpl; congruence.
Qed.

(** When the body of Resign does not return, Resign does not return nil,
    and if codesign has not run in the body it has not run at all. *)
Lemma Resign_of_halting_body tools s :
  halts (Resign_body tools) s →
  (∀ r, returned (Resign tools s) = Some r → r ≠ None)
  ∧ unsigned s (final (Resign tools s)).
Proof.
  intros [Hret Hu]. unfold Resign.
  destruct (Resign_body tools s) as [[] s1|e s1|v s1]; simpl in *; [done|..].
  - split; [|by etrans; [|apply unsigned_Resign_deferred]].
    intros r Hr%Resign_deferred_value. by subst r.
  - split; [|by etrans; [|apply unsigned_Resign_deferred]].
    intros r Hr%Resign_deferred_value. by subst r.
Qed.

(** C2: failures of the identifier mutations.
    (1) In signComponents, let every PlistBuddy command fail (with exit
    status [st]), let codesign succeed, and let the callback be nil or
    one that returns.  Then signComponents returns without error; the
    codesign commands it has run are those of all components found, in
    the order found; and for every extension found the warning of its
    failed mutation has been printed.
    (2) In Resign, let [BundleID] be set and let the command that sets
    the identifier of the primary bundle fail.  Then Resign returns an
    error, and no codesign command has been run.
    (3) The error of that step is "failed to handle bundle ID: [st]". *)
Theorem identifier_mutation_failures tools st :
  (∀ appPath entitlementsPath s comps s0,
     findComponents appPath s = Ret comps s0 →
     quiet_state s → codesign_succeeds tools → PlistBuddy_fails tools st →
     BundleID (config (self s)) ≠ "" →
     let o := signComponents tools appPath entitlementsPath s in
     returned o = Some ()
     ∧ (∃ cmds, execlog (world (final o)) = execlog (world s) ++ cmds
                ∧ filter (is_tool Codesign) cmds
                  = codesign_argv (Certificate (config (self s)))
                      entitlementsPath <$> comps)
     ∧ ∀ x, x ∈ comps → filepath.Ext x = ".appex" →
            warning x st ∈ stdout (world (final o)))
  ∧ (∀ c cb w,
       BundleID c ≠ "" → primary_mutation_fails tools c st →
       quiet_state (start c cb w) →
       let o := Resign tools (start c cb w) in
       (∃ e, returned o = Some (Some e))
       ∧ ∃ cmds, execlog (world (final o)) = execlog w ++ cmds
                 ∧ Forall (λ argv, ¬ is_tool Codesign argv) cmds)
  ∧ (∀ appPath s,
       BundleID (config (self s)) ≠ "" →
       primary_mutation_fails tools (config (self s)) st → quiet_state s →
       failed (wrapping "failed to handle bundle ID"
                 (handleBundleID tools appPath) s)
       = Some (Errorf ("failed to handle bundle ID: " +:+ st))).
Proof.
  split; [|split].
  - intros appPath ep s comps s0 Hfind Hq Hcs Hpb Hb. simpl.
    assert (∃ s', signComponents tools appPath ep s = Ret () s'
              ∧ ∀ x, x ∈ comps → filepath.Ext x = ".appex" →
                     warning x st ∈ stdout (world s')) as (s' & Hs' & Hwarn).
    { unfold signComponents. unfold bind at 1. unfold get_config at 1.
      destruct (logProgress_quiet
        ("Get list of components and sign with certificate: "
           +:+ Certificate (config (self s))) s Hq)
        as (s1 & H1 & Hself1 & Hfs1 & _).
      rewrite (bind_Ret _ _ _ _ _ H1).
      destruct (findComponents_same_fs _ _ _ _ s1 Hfind Hfs1) as [_ Hfind1].
      rewrite (bind_Ret _ _ _ _ _ Hfind1).
      destruct (logProgress_quiet "Sign plugins, frameworks, dylibs" s1)
        as (s2 & H2 & Hself2 & _); [by apply (quiet_state_self s)|].
      rewrite (bind_Ret _ _ _ _ _ H2).
      destruct (sign_inner_forced tools st ep comps 0 s2)
        as (s3 & H3 & Hself3 & _ & Hwarn); try done.
      { apply (quiet_state_self s); [congruence|done]. }
      { by rewrite Hself2, Hself1. }
      rewrite (bind_Ret _ _ _ _ _ H3).
      destruct (logProgress_quiet "Sign app" s3)
        as (s4 & H4 & Hself4 & _ & _ & Hout4).
      { apply (quiet_state_self s); [congruence|done]. }
      rewrite (bind_Ret _ _ _ _ _ H4).
      destruct (sign_apps_succeeds tools ep comps s4 Hcs)
        as (s5 & H5 & _ & Hout5).
      exists s5. split; [done|]. intros x Hx Hex.
      rewrite Hout5, Hout4. apply elem_of_app. left. by apply Hwarn. }
    rewrite Hs'. split; [done|]. split; [|done].
    destruct (emits_signComponents tools appPath ep s comps s0 Hfind)
      as (_ & cmds & Hlog & _ & Hret).
    rewrite Hs' in Hlog, Hret. destruct (Hret () eq_refl) as [_ ->].
    eexists. split; [exact Hlog|].
    rewrite filter_app, filter_Codesign_inner, filter_Codesign_apps.
    unfold app_commands. rewrite <-fmap_app. f_equal.
    destruct (fs (world s) !! filepath.path_key appPath) as [n|] eqn:Hn.
    + rewrite (findComponents_found _ _ _ Hn) in Hfind.
      injection Hfind as <- _.
      apply apps_last_all_signed, walked_components_ext.
    + by rewrite (findComponents_missing _ _ Hn) in Hfind.
  - intros c cb w Hb Hfail Hq. simpl.
    destruct (Resign_of_halting_body tools (start c cb w)
                (Resign_body_halts tools c cb w st Hb Hfail))
      as [Hnil (_ & _ & cmds & Hlog & Hcmds)].
    destruct (Resign_returns tools (start c cb w) Hq) as [r Hr].
    split; [|by exists cmds].
    destruct r as [e|]; [by exists e|]. by destruct (Hnil None Hr).
  - intros appPath s Hb Hfail Hq.
    destruct (handleBundleID_fails tools st appPath s Hb Hfail) as [_ Hf].
    specialize (Hf Hq). apply failed_Err in Hf.
    by rewrite (wrapping_Err _ _ _ _ _ Hf).
Qed.

Lemma identifier_mutation_failures_witness :
  let s := extracted acme_config None acme_world in
  let appPath := "work/tmp/app/Payload/Acme.app" in
  let o := signComponents failing_PlistBuddy appPath
             "work/tmp/entitlements.plist" s in
  let r := Resign failing_PlistBuddy
             (start acme_config_entitled None acme_world_entitled) in
  (returned o = Some ()
   ∧ warning "work/tmp/app/Payload/Acme.app/PlugIns/Today.appex"
       "exit status 1" ∈ stdout (world (final o)))
  ∧ ((∃ e, returned r = Some (Some e))
     ∧ ∃ cmds, execlog (world (final r)) = [] ++ cmds
               ∧ Forall (λ argv, ¬ is_tool Codesign argv) cmds)
  ∧ failed (wrapping "failed to handle bundle ID"
              (handleBundleID failing_PlistBuddy appPath) s)
    = Some (Errorf "failed to handle bundle ID: exit status 1").
Proof.
  pose proof (identifier_mutation_failures failing_PlistBuddy "exit status 1")
    as (Ha & Hb & Hc).
  assert (PlistBuddy_fails failing_PlistBuddy "exit status 1") as Hpb.
  { intros args f. reflexivity. }
  assert (∀ c, primary_mutation_fails failing_PlistBuddy c "exit status 1")
    as Hprim.
  { intros c p f. reflexivity. }
  split; [|split].
  - destruct (Ha "work/tmp/app/Payload/Acme.app" "work/tmp/entitlements.plist"
               (extracted acme_config None acme_world)
               (default [] (returned (findComponents
                  "work/tmp/app/Payload/Acme.app"
                  (extracted acme_config None acme_world))))
               (final (findComponents "work/tmp/app/Payload/Acme.app"
                  (extracted acme_config None acme_world))))
      as (Hret & _ & Hwarn).
    + apply returned_Ret. vm_compute. reflexivity.
    + vm_compute. exact I.
    + intros args f. reflexivity.
    + exact Hpb.
    + vm_compute. discriminate.
    + split; [exact Hret|]. apply Hwarn; [|vm_compute; reflexivity].
      vm_compute. do 3 right. left.
  - apply (Hb acme_config_entitled None acme_world_entitled).
    + vm_compute. discriminate.
    + apply Hprim.
    + vm_compute. exact I.
  - apply (Hc "work/tmp/app/Payload/Acme.app"
             (extracted acme_config None acme_world)).
    + vm_compute. discriminate.
    + apply Hprim.
    + vm_compute. exact I.
Defined.

(** The run that reaches handleBundleID and fails there. *)
Example primary_mutation_failure_stops_run :
  let r := Resign failing_primary
             (start acme_config_entitled None acme_world_entitled) in
  returned r
  = Some (Some (Errorf "failed to handle bundle ID: exit status 1"))
  ∧ execlog (world (final r))
    = [plistbuddy_set "com.acme.app"
         "work/tmp/app/Payload/Acme.app/Info.plist"]
  ∧ exists_at (world (final r)) "work/tmp" = false.
Proof. repeat split; vm_compute; reflexivity. Qed.

(** ** Paths: splitting, cleaning and joining *)

Lemma split_nonempty s : Str.split s ≠ [].
Proof. destruct s as [|c r]; simpl; [done|]. destruct (Str.is_slash c); [done|].
  by destruct (Str.split r). Qed.

Lemma split_app a b :
  Str.split (a +:+ "/" +:+ b) = Str.split a ++ Str.split b.
Proof.
  induction a as [|c a IH]; simpl; [done|].
  change (String c a +:+ "/" +:+ b) with (String c (a +:+ "/" +:+ b)).
  simpl. destruct (Str.is_slash c); [by rewrite IH|].
  rewrite IH. pose proof (split_nonempty a).
  by destruct (Str.split a).
Qed.

Lemma split_no_slash n : Str.has_slash n = false → Str.split n = [n].
Proof.
  induction n as [|c n IH]; simpl; [done|].
  intros [Hc Hn]%orb_false_iff. rewrite Hc, (IH Hn). done.
Qed.

Lemma split_elements_no_slash s :
  Forall (λ x, Str.has_slash x = false) (Str.split s).
Proof.
  induction s as [|c r IH]; simpl; [by repeat constructor|].
  destruct (Str.is_slash c) eqn:Hc; [by constructor|].
  destruct (Str.split r) as [|x l].
  { constructor; [simpl; by rewrite Hc|constructor]. }
  inversion_clear IH as [|?? Hx Hl]. constructor; [|done].
  simpl. by rewrite Hc.
Qed.

Lemma clean_step_valid rooted st n :
  valid_name n → filepath.clean_step rooted st n = n :: st.
Proof.
  intros (?&?&?&?). unfold filepath.clean_step.
  by rewrite !bool_decide_false.
Qed.

Lemma clean_elems_valid rooted st l :
  Forall valid_name l →
  filepath.clean_elems rooted st l = rev l ++ st.
Proof.
  intros Hl. revert st. unfold filepath.clean_elems.
  induction Hl as [|n l Hn _ IH]; intros st; [done|].
  simpl. rewrite clean_step_valid by done.
  rewrite IH. by rewrite <-(assoc_L (++)).
Qed.

Lemma clean_elems_app rooted st l1 l2 :
  filepath.clean_elems rooted st (l1 ++ l2)
  = filepath.clean_elems rooted (filepath.clean_elems rooted st l1) l2.
Proof. unfold filepath.clean_elems. apply foldl_app. Qed.

Lemma IsAbs_app a b : a ≠ "" → filepath.IsAbs (a +:+ b) = filepath.IsAbs a.
Proof. by destruct a. Qed.

(** The cleaned path of [p/rel], for names [rel]. *)
Lemma path_key_slash p rel :
  p ≠ "" → Forall valid_name rel →
  filepath.path_key (p +:+ "/" +:+ Str.join rel)
  = key_app (filepath.path_key p) rel.
Proof.
  intros Hp Hrel. unfold filepath.path_key, key_app. simpl.
  rewrite IsAbs_app by done. f_equal.
  rewrite split_app, clean_elems_app.
  destruct rel as [|n rel].
  { simpl. by rewrite app_nil_r. }
  assert (Str.split (Str.join (n :: rel)) = n :: rel) as ->.
  { clear Hp. revert n Hrel. induction rel as [|m rel IH]; intros n Hrel.
    - inversion_clear Hrel as [|?? (?&?&?&?) _]. by apply split_no_slash.
    - inversion_clear Hrel as [|?? (?&?&?&Hn) Hrel'].
      change (Str.join (n :: m :: rel))
        with (n +:+ "/" +:+ Str.join (m :: rel)).
      rewrite split_app, (split_no_slash n Hn), (IH m Hrel'). done. }
  rewrite clean_elems_valid by done.
  by rewrite rev_app_distr, rev_involutive.
Qed.

Lemma string_app_assoc (a b c : string) : (a +:+ b) +:+ c = a +:+ b +:+ c.
Proof.
  induction a as [|x a IH]; [done|].
  change ((String x a +:+ b) +:+ c) with (String x ((a +:+ b) +:+ c)).
  by rewrite IH.
Qed.

Lemma join_snoc l n :
  l ≠ [] → Str.join (l ++ [n]) = Str.join l +:+ "/" +:+ n.
Proof.
  induction l as [|x l IH]; [done|]. intros _.
  destruct l as [|y l]; [done|].
  change (Str.join ((x :: y :: l) ++ [n]))
    with (x +:+ "/" +:+ Str.join ((y :: l) ++ [n])).
  rewrite IH by done.
  change (Str.join (x :: y :: l)) with (x +:+ "/" +:+ Str.join (y :: l)).
  by rewrite !string_app_assoc.
Qed.

(** A rendered key that ends in the name [n] is [n] itself or ends in
    [/n]. *)
Lemma render_snoc r l n :
  filepath.render (r, l ++ [n]) = n
  ∨ ∃ a, filepath.render (r, l ++ [n]) = a +:+ "/" +:+ n.
Proof.
  destruct l as [|x l].
  - destruct r; simpl; [right; by exists ""|by left].
  - right. destruct r.
    + exists ("/" +:+ Str.join (x :: l)). unfold filepath.render.
      rewrite join_snoc by done. by rewrite !string_app_assoc.
    + exists (Str.join (x :: l)). unfold filepath.render.
      rewrite <-join_snoc by done. done.
Qed.

Lemma Ext_no_dot n :
  Str.has_slash n = false → Str.has_dot n = false → filepath.Ext n = "".
Proof.
  induction n as [|c n IH]; simpl; [done|].
  intros [Hc Hn]%orb_false_iff [Hd Hdn]%orb_false_iff.
  by rewrite Hn, Hdn, Hd.
Qed.

Lemma Ext_slash a n :
  Str.has_slash n = false → filepath.Ext (a +:+ "/" +:+ n) = filepath.Ext n.
Proof.
  intros Hn. induction a as [|c a IH].
  - change ("" +:+ "/" +:+ n) with (String "/" n). simpl. rewrite Hn. simpl.
    destruct (Str.has_dot n) eqn:Hd; [done|]. by rewrite Ext_no_dot.
  - change (String c a +:+ "/" +:+ n) with (String c (a +:+ "/" +:+ n)).
    simpl.
    assert (Str.has_slash (a +:+ "/" +:+ n) = true) as ->; [|done].
    clear. induction a as [|c a IH]; [done|].
    change (String c a +:+ "/" +:+ n) with (String c (a +:+ "/" +:+ n)).
    simpl. by rewrite IH, orb_true_r.
Qed.

Lemma path_key_shape p n :
  valid_name n →
  ∃ r l, filepath.Join p n = filepath.render (r, l ++ [n]).
Proof.
  intros Hn. pose proof Hn as (Hne&_&_&Hslash).
  unfold filepath.Join, filepath.Clean.
  destruct p as [|c p].
  - destruct n as [|d n]; [done|]. exists false, [].
    unfold filepath.path_key.
    rewrite (split_no_slash _ Hslash). simpl.
    rewrite clean_step_valid by done. simpl in Hslash.
    apply orb_false_iff in Hslash as [-> _]. done.
  - destruct n as [|d n]; [done|].
    pose proof (path_key_slash (String c p) [String d n]) as H.
    change (Str.join [String d n]) with (String d n) in H.
    rewrite H; [|done|by constructor].
    by eexists _, _.
Qed.

(** The extension of a joined path is the extension of the name. *)
Lemma Ext_Join p n : valid_name n → filepath.Ext (filepath.Join p n) = filepath.Ext n.
Proof.
  intros Hn. destruct (path_key_shape p n Hn) as (r & l & ->).
  destruct (render_snoc r l n) as [->|[a ->]]; [done|].
  apply Ext_slash, Hn.
Qed.

Lemma walk_path_snoc root rel n :
  walk_path root (rel ++ [n]) = filepath.Join (walk_path root rel) n.
Proof. unfold walk_path. by rewrite foldl_app. Qed.

Lemma Ext_walk_path root rel :
  rel ≠ [] → Forall valid_name rel →
  filepath.Ext (walk_path root rel) = filepath.Ext (List.last rel "").
Proof.
  intros Hne Hrel. destruct (exists_last Hne) as (l & n & ->).
  rewrite walk_path_snoc, last_last.
  apply Ext_Join. by apply Forall_app in Hrel as [_ Hn%Forall_inv].
Qed.

(** ** The order of the components *)

Lemma list_filter_fmap {A B} (f : A → B) (P : B → Prop)
  `{∀ x, Decision (P x)} (l : list A) :
  filter P (f <$> l) = f <$> filter (λ x, P (f x)) l.
Proof.
  induction l as [|x l IH]; [done|].
  rewrite fmap_cons, !filter_cons, IH. by case_decide.
Qed.

Lemma length_filter_iff {A} (P Q : A → Prop) `{∀ x, Decision (P x)}
  `{∀ x, Decision (Q x)} (l1 l2 : list A) :
  l1 ≡ₚ l2 → Forall (λ x, P x ↔ Q x) l2 →
  length (filter P l1) = length (filter Q l2).
Proof.
  intros Hp Hl. rewrite Hp. by rewrite (filter_Forall_iff P Q).
Qed.

Lemma below_root_nonempty f root :
  Forall (λ e : list string * node, e.1 ≠ []) (below_root f root).
Proof.
  apply Forall_forall. intros e He.
  apply list_elem_of_omap in He as (x & _ & Hx).
  unfold below_entry in Hx. destruct (os.below root x.1) as [[|a l]|];
    simplify_eq. done.
Qed.

(** How the walk function sees an entry below the root. *)
Lemma entry_is_component root (e : list string * node) :
  e.1 ≠ [] → Forall valid_name e.1 →
  let x := (walk_path root e.1, walk_info root e) in
  (filepath.Ext x.1 = ".app" ∧ is_component x
   ↔ entry_kind e = Some Application)
  ∧ (filepath.Ext x.1 ≠ ".app" ∧ is_component x
     ↔ entry_kind e = Some Extension ∨ entry_kind e = Some Framework
       ∨ entry_kind e = Some DynamicLibrary).
Proof.
  intros Hne Hval. simpl. unfold is_component, entry_kind, kind_of, is_ext.
  simpl. rewrite (Ext_walk_path root e.1 Hne Hval).
  destruct e.2; simpl; repeat case_bool_decide; simpl;
    split; split; try (intros [? ?]); try (intros [?|[?|?]]);
    try done; try congruence; try tauto; split; try done; congruence.
Qed.

Lemma count_three (l : list (list string * node)) :
  length (filter (λ e, entry_kind e = Some Extension
                       ∨ entry_kind e = Some Framework
                       ∨ entry_kind e = Some DynamicLibrary) l)
  = length (filter (λ e, entry_kind e = Some Extension) l)
    + length (filter (λ e, entry_kind e = Some Framework) l)
    + length (filter (λ e, entry_kind e = Some DynamicLibrary) l).
Proof.
  induction l as [|e l IH]; [done|].
  rewrite !filter_cons.
  destruct (entry_kind e) as [[]|]; repeat case_decide; simpl;
    try lia; exfalso; intuition congruence.
Qed.

Lemma valid_nameb_true n : valid_nameb n = true → valid_name n.
Proof.
  unfold valid_nameb, valid_name.
  intros [[[H1 H2]%andb_true_iff H3]%andb_true_iff H4]%andb_true_iff.
  apply negb_true_iff, bool_decide_eq_false in H1, H2, H3.
  by apply negb_true_iff in H4.
Qed.

Lemma valid_treeb_true f root : valid_treeb f root = true → valid_tree f root.
Proof.
  unfold valid_treeb, valid_tree. intros H.
  apply Forall_forall. intros e He. apply Forall_forall. intros n Hn.
  apply valid_nameb_true.
  rewrite forallb_forall in H. apply list_elem_of_In in He.
  specialize (H e He). rewrite forallb_forall in H.
  apply H. by apply list_elem_of_In.
Qed.

(** C1: for a bundle tree (a directory whose path ends in .app) with N
    extension bundles, M framework bundles, K dynamic-library files and
    A further application bundles nested below it, findComponents
    returns a list [nonapps ++ apps] of length N+M+K+1+A: [nonapps] are
    the N+M+K components that are no application bundles (.appex,
    .framework, .dylib), and [apps], the suffix, are the 1+A application
    bundles. *)
Theorem findComponents_apps_last s appPath mode :
  fs (world s) !! filepath.path_key appPath = Some (Directory mode) →
  filepath.Ext appPath = ".app" →
  valid_tree (fs (world s)) appPath →
  let count := count_kind (fs (world s)) appPath in
  ∃ nonapps apps,
    findComponents appPath s = Ret (nonapps ++ apps) s
    ∧ length (nonapps ++ apps)
      = count Extension + count Framework + count DynamicLibrary + 1
        + count Application
    ∧ length nonapps
      = count Extension + count Framework + count DynamicLibrary
    ∧ length apps = 1 + count Application
    ∧ Forall signed_first nonapps
    ∧ Forall (λ c, filepath.Ext c = ".app") apps.
Proof.
  intros Hroot Hext Hvalid. simpl.
  set (f := fs (world s)) in *. set (W := walked_components f appPath (Directory mode)).
  exists (filter (λ c, filepath.Ext c ≠ ".app") W),
         (filter (λ c, filepath.Ext c = ".app") W).
  split; [by apply findComponents_found|].
  set (g := λ e : list string * node,
              (walk_path appPath e.1, walk_info appPath e)).
  set (E := below_root f (filepath.path_key appPath)).
  assert (descendants f (filepath.path_key appPath) ≡ₚ E) as Hperm.
  { apply merge_sort_Permutation. }
  assert (Forall (λ e, (filepath.Ext (g e).1 = ".app" ∧ is_component (g e)
                        ↔ entry_kind e = Some Application)
                       ∧ (filepath.Ext (g e).1 ≠ ".app" ∧ is_component (g e)
                          ↔ entry_kind e = Some Extension
                            ∨ entry_kind e = Some Framework
                            ∨ entry_kind e = Some DynamicLibrary)) E) as HE.
  { pose proof (below_root_nonempty f (filepath.path_key appPath)) as Hne.
    assert (Forall (λ e : list string * node,
                      e.1 ≠ [] ∧ Forall valid_name e.1) E) as Hboth.
    { by apply Forall_and. }
    eapply Forall_impl; [exact Hboth|].
    intros e [? ?]. by apply entry_is_component. }
  assert (length (filter (λ c, filepath.Ext c = ".app") W)
          = 1 + count_kind f appPath Application) as Happs.
  { unfold W, walked_components, tree_entries. fold g.
    rewrite list_filter_fmap, length_fmap, list_filter_filter.
    rewrite fmap_cons, filter_cons_True.
    2:{ split; [done|]. unfold g, is_component, is_ext. simpl.
        by rewrite bool_decide_true. }
    rewrite list_filter_fmap, length_cons, length_fmap. f_equal.
    apply length_filter_iff; [done|].
    eapply Forall_impl; [exact HE|]. intros e [H1 _]. exact H1. }
  assert (length (filter (λ c, filepath.Ext c ≠ ".app") W)
          = count_kind f appPath Extension + count_kind f appPath Framework
            + count_kind f appPath DynamicLibrary) as Hnon.
  { unfold W, walked_components, tree_entries. fold g.
    rewrite list_filter_fmap, length_fmap, list_filter_filter.
    rewrite fmap_cons, filter_cons_False.
    2:{ intros [H _]. by apply H. }
    rewrite list_filter_fmap, length_fmap.
    unfold count_kind. rewrite <-count_three.
    apply length_filter_iff; [done|].
    eapply Forall_impl; [exact HE|]. intros e [_ H2]. exact H2. }
  split; [rewrite length_app, Happs, Hnon; lia|].
  split; [done|]. split; [done|]. split.
  - pose proof (walked_components_ext f appPath (Directory mode)) as Hw.
    fold W in Hw. apply Forall_forall.
    intros x [Hx Hin]%list_elem_of_filter.
    rewrite Forall_forall in Hw. destruct (Hw x Hin); done.
  - apply Forall_forall. by intros x [Hx _]%list_elem_of_filter.
Qed.

Lemma findComponents_apps_last_witness :
  let s := start demo_config None bundle_world in
  let count := count_kind (fs (world s)) "Demo.app" in
  ∃ nonapps apps,
    findComponents "Demo.app" s = Ret (nonapps ++ apps) s
    ∧ length (nonapps ++ apps)
      = count Extension + count Framework + count DynamicLibrary + 1
        + count Application
    ∧ length nonapps
      = count Extension + count Framework + count DynamicLibrary
    ∧ length apps = 1 + count Application
    ∧ Forall signed_first nonapps
    ∧ Forall (λ c, filepath.Ext c = ".app") apps.
Proof.
  apply (findComponents_apps_last (start demo_config None bundle_world)
           "Demo.app" 493).
  - vm_compute. reflexivity.
  - vm_compute. reflexivity.
  - apply valid_treeb_true. vm_compute. reflexivity.
Defined.

(** The bundle of the witness: one component of each kind and a nested
    application bundle; the two application bundles come last. *)
Example bundle_components :
  returned (findComponents "Demo.app" (start demo_config None bundle_world))
  = Some ["Demo.app/Frameworks/F.framework";
          "Demo.app/Frameworks/libz.dylib";
          "Demo.app/PlugIns/W.appex";
          "Demo.app"; "Demo.app/Watch/Inner.app"]
  ∧ count_kind (fs bundle_world) "Demo.app" <$>
      [Extension; Framework; DynamicLibrary; Application]
    = [1; 1; 1; 1].
Proof. split; vm_compute; reflexivity. Qed.

(** ** Cleaned paths are read back as they are written *)

Lemma replicate_snoc {A} (x : A) d : replicate d x ++ [x] = replicate (S d) x.
Proof. induction d as [|d IH]; [done|]. simpl. by rewrite IH. Qed.

Lemma clean_step_clean rooted st c :
  Str.has_slash c = false →
  clean_key (rooted, rev st) →
  clean_key (rooted, rev (filepath.clean_step rooted st c)).
Proof.
  intros Hc (d & v & Hst & Hv & Hd). simpl in *.
  unfold filepath.clean_step.
  case_bool_decide; [by exists d, v|].
  case_bool_decide; [by exists d, v|].
  case_bool_decide as Hdots.
  - subst c. destruct st as [|top rest].
    + destruct rooted; [by exists 0, []|].
      exists 1, []. by repeat split.
    + simpl in Hst. case_bool_decide as Htop.
      * subst top. destruct v as [|x v _] using rev_ind.
        -- rewrite app_nil_r in Hst. exists (S d), []. simpl.
           rewrite Hst, app_nil_r. split; [by rewrite replicate_snoc|].
           split; [done|]. intros Hr. specialize (Hd Hr). subst d.
           by destruct (rev rest).
        -- rewrite (assoc_L (++)) in Hst.
           apply app_inj_tail in Hst as [_ Hx'].
           apply Forall_app in Hv as [_ Hx%Forall_inv].
           destruct Hx as (_&_&Hx&_). by destruct Hx.
      * destruct v as [|x v _] using rev_ind.
        -- rewrite app_nil_r in Hst. destruct d as [|d]; [by destruct (rev rest)|].
           rewrite <-replicate_snoc in Hst.
           apply app_inj_tail in Hst as [_ Htop']. by destruct Htop.
        -- rewrite (assoc_L (++)) in Hst.
           apply app_inj_tail in Hst as [Hrest _].
           apply Forall_app in Hv as [Hv _]. by exists d, v.
  - exists d, (v ++ [c]). simpl. rewrite Hst, (assoc_L (++)).
    split; [done|]. split; [|done].
    apply Forall_app. split; [done|]. by repeat constructor.
Qed.

Lemma clean_elems_clean rooted st l :
  Forall (λ x, Str.has_slash x = false) l →
  clean_key (rooted, rev st) →
  clean_key (rooted, rev (filepath.clean_elems rooted st l)).
Proof.
  unfold filepath.clean_elems. intros Hl. revert st.
  induction Hl as [|c l Hc _ IH]; intros st Hst; [done|].
  simpl. apply IH. by apply clean_step_clean.
Qed.

Lemma path_key_clean p : clean_key (filepath.path_key p).
Proof.
  unfold filepath.path_key.
  apply clean_elems_clean; [apply split_elements_no_slash|].
  by exists 0, [].
Qed.

Lemma clean_key_no_slash k :
  clean_key k → Forall (λ x, x ≠ "" ∧ x ≠ "." ∧ Str.has_slash x = false) k.2.
Proof.
  intros (d & v & -> & Hv & _). apply Forall_app. split.
  - apply Forall_forall. intros x Hx%elem_of_replicate. by destruct Hx as [-> _].
  - eapply Forall_impl; [exact Hv|]. by intros x (?&?&?&?).
Qed.

Lemma split_join l :
  l ≠ [] → Forall (λ x, Str.has_slash x = false) l →
  Str.split (Str.join l) = l.
Proof.
  induction l as [|x l IH]; [done|]. intros _ Hl.
  inversion_clear Hl as [|?? Hx Hl'].
  destruct l as [|y l]; [by apply split_no_slash|].
  change (Str.join (x :: y :: l)) with (x +:+ "/" +:+ Str.join (y :: l)).
  rewrite split_app, (split_no_slash x Hx), IH; done.
Qed.

Lemma clean_elems_dots d st :
  (∀ x, x ∈ st → x = "..") →
  filepath.clean_elems false st (replicate d "..") = replicate d ".." ++ st.
Proof.
  revert st. induction d as [|d IH]; intros st Hst; [done|].
  unfold filepath.clean_elems in *. simpl.
  assert (filepath.clean_step false st ".." = ".." :: st) as ->.
  { unfold filepath.clean_step. simpl. destruct st as [|top rest]; [done|].
    rewrite bool_decide_true; [done|]. apply Hst. by left. }
  rewrite IH.
  - change (".." :: st) with ([".."] ++ st).
    by rewrite (assoc_L (++)), replicate_snoc.
  - intros x [->|?]%elem_of_cons; [done|]. by apply Hst.
Qed.

Lemma clean_elems_clean_key k :
  clean_key k → filepath.clean_elems k.1 [] k.2 = rev k.2.
Proof.
  intros (d & v & -> & Hv & Hd). rewrite clean_elems_app.
  destruct k.1 eqn:Hr.
  - rewrite (Hd eq_refl). simpl. rewrite clean_elems_valid by done.
    by rewrite app_nil_r.
  - rewrite clean_elems_dots by (by intros ? ?%elem_of_nil).
    rewrite app_nil_r, clean_elems_valid by done.
    rewrite rev_app_distr. f_equal.
    clear. induction d as [|d IH]; [done|].
    simpl. rewrite <-IH. by rewrite replicate_snoc.
Qed.

Lemma IsAbs_no_slash x r :
  x ≠ "" → Str.has_slash x = false → filepath.IsAbs (x +:+ r) = false.
Proof.
  destruct x as [|c x]; [done|]. simpl. intros _ H.
  by apply orb_false_iff in H as [-> _].
Qed.

(** The cleaned path of a rendered cleaned path is that path. *)
Lemma path_key_render k : clean_key k → filepath.path_key (filepath.render k) = k.
Proof.
  intros Hk. pose proof (clean_key_no_slash k Hk) as Hns.
  pose proof (clean_elems_clean_key k Hk) as Hce.
  destruct k as [r l]. simpl in *. unfold filepath.path_key.
  assert (Forall (λ x, Str.has_slash x = false) l) as Hsl.
  { eapply Forall_impl; [exact Hns|]. by intros x (_&_&?). }
  destruct r.
  - unfold filepath.render.
    change (filepath.IsAbs ("/" +:+ Str.join l)) with true.
    change ("/" +:+ Str.join l) with ("" +:+ "/" +:+ Str.join l).
    rewrite split_app. simpl. f_equal.
    destruct l as [|x l'].
    + done.
    + change (filepath.clean_step true [] "") with (@nil string).
      rewrite split_join by done.
      by rewrite Hce, rev_involutive.
  - destruct l as [|x l']; [done|].
    unfold filepath.render.
    assert (filepath.IsAbs (Str.join (x :: l')) = false) as ->.
    { inversion_clear Hns as [|?? (?&_&?) _].
      destruct l' as [|y l'].
      - change (Str.join [x]) with x. rewrite <-(IsAbs_no_slash x ""); try done.
        by destruct x.
      - change (Str.join (x :: y :: l'))
          with (x +:+ "/" +:+ Str.join (y :: l')).
        by apply IsAbs_no_slash. }
    rewrite split_join by done. by rewrite Hce, rev_involutive.
Qed.

Lemma path_key_Clean p : filepath.path_key (filepath.Clean p) = filepath.path_key p.
Proof. apply path_key_render, path_key_clean. Qed.

Lemma path_key_concat a b :
  a ≠ "" →
  filepath.path_key (a +:+ "/" +:+ b) = extend (filepath.path_key a) (Str.split b).
Proof.
  intros Ha. unfold filepath.path_key, extend. simpl.
  rewrite IsAbs_app by done. f_equal.
  by rewrite split_app, clean_elems_app, rev_involutive.
Qed.

(** The file that [Join a b] names, for a relative [b]. *)
Lemma path_key_Join a b :
  b ≠ "" → filepath.IsAbs b = false →
  filepath.path_key (filepath.Join a b)
  = extend (filepath.path_key a) (Str.split b).
Proof.
  intros Hb Hrel. unfold filepath.Join.
  destruct a as [|c a], b as [|d b]; try done.
  - rewrite path_key_Clean. unfold filepath.path_key, extend.
    rewrite Hrel. done.
  - rewrite path_key_Clean. by apply path_key_concat.
Qed.






(** ** The entries below a directory *)

Lemma strip_prefix_Some root l rel :
  os.strip_prefix root l = Some rel ↔ l = root ++ rel.
Proof.
  revert l. induction root as [|x root IH]; intros l; simpl.
  { split; congruence. }
  destruct l as [|y l]; [done|].
  case_bool_decide as Hxy.
  - subst y. rewrite IH. split; [by intros ->|by intros [= ->]].
  - split; [done|]. intros [= ? ?]. by destruct Hxy.
Qed.

Lemma below_Some root k rel : os.below root k = Some rel ↔ k = key_app root rel.
Proof.
  unfold os.below, key_app. destruct root as [r l], k as [r' l']. simpl.
  case_bool_decide as Hr.
  - subst r'. rewrite strip_prefix_Some. split; [by intros ->|by intros [= ->]].
  - split; [done|]. intros [= ? ?]. by destruct Hr.
Qed.






(** ** [os.MkdirAll] below an existing directory *)

Lemma mkdir_all_exists r rl perm g m :
  g !! (r, rev rl) = Some (Directory m) → os.mkdir_all r rl perm g = Some g.
Proof. intros H. destruct rl; simpl in *; by rewrite H. Qed.


(** ** The paths of the archive entries *)



Lemma Join_render a b :
  b ≠ "" →
  filepath.Join a b = filepath.render (filepath.path_key (filepath.Join a b)).
Proof.
  intros Hb. unfold filepath.Join.
  destruct a, b; try done; by rewrite path_key_Clean.
Qed.

Lemma string_app_nil_r s : s +:+ "" = s.
Proof.
  induction s as [|c s IH]; [done|].
  change (String c s +:+ "") with (String c (s +:+ "")). by rewrite IH.
Qed.




Lemma render_names rel : rel ≠ [] → filepath.render (false, rel) = Str.join rel.
Proof. by destruct rel. Qed.



Lemma has_slash_app a b : Str.has_slash (a +:+ "/" +:+ b) = true.
Proof.
  induction a as [|c a IH]; [done|].
  change (String c a +:+ "/" +:+ b) with (String c (a +:+ "/" +:+ b)).
  simpl. rewrite IH. apply orb_true_r.
Qed.

Lemma dir_part_no_slash n : Str.has_slash n = false → filepath.dir_part n = "".
Proof.
  destruct n as [|c n]; simpl; [done|].
  intros [Hc Hn]%orb_false_iff. by rewrite Hn, Hc.
Qed.

Lemma dir_part_app a n :
  Str.has_slash n = false → filepath.dir_part (a +:+ "/" +:+ n) = a +:+ "/".
Proof.
  intros Hn. induction a as [|c a IH].
  - change ("" +:+ "/" +:+ n) with (String "/" n). simpl. rewrite Hn.
    change (Str.is_slash "/") with true. simpl.
    by rewrite dir_part_no_slash.
  - change (String c a +:+ "/" +:+ n) with (String c (a +:+ "/" +:+ n)).
    simpl. rewrite has_slash_app. simpl. by rewrite IH.
Qed.

Lemma render_snoc_eq r l n :
  l ≠ [] →
  filepath.render (r, l ++ [n]) = filepath.render (r, l) +:+ "/" +:+ n.
Proof.
  intros Hl. destruct r.
  - unfold filepath.render. by rewrite join_snoc.
  - rewrite !render_names; [by apply join_snoc|done|by destruct l].
Qed.


Lemma render_nonempty k : clean_key k → filepath.render k ≠ "".
Proof.
  intros Hk H. pose proof (path_key_render k Hk) as E.
  rewrite H in E. rewrite <-E in H. by vm_compute in H.
Qed.

(** The directory of the path of an entry is the path of its parent. *)
Lemma path_key_Dir k n :
  clean_key k → valid_name n →
  filepath.path_key (filepath.Dir (filepath.render (key_app k [n]))) = k.
Proof.
  intros Hk Hn. pose proof Hn as (Hne & _ & _ & Hs).
  unfold filepath.Dir. rewrite path_key_Clean.
  destruct k as [r l]. unfold key_app. cbn [fst snd].
  destruct (decide (l = [])) as [->|Hl].
  - destruct r.
    + change (filepath.render (true, [] ++ [n])) with ("" +:+ "/" +:+ n).
      by rewrite dir_part_app.
    + change (filepath.render (false, [] ++ [n])) with n.
      by rewrite dir_part_no_slash.
  - rewrite render_snoc_eq, dir_part_app by done.
    change (filepath.render (r, l) +:+ "/")
      with (filepath.render (r, l) +:+ "/" +:+ "").
    rewrite path_key_concat by by apply render_nonempty.
    rewrite path_key_render by done. unfold extend. simpl.
    change (filepath.clean_step r (rev l) "") with (rev l).
    by rewrite rev_involutive.
Qed.

(** ** Names of archive entries that end in a slash *)

Lemma HasPrefix_nil s : Str.HasPrefix s "" = true.
Proof. by destruct s. Qed.

Lemma HasPrefix_app_slash x y :
  x ≠ "" → Str.HasPrefix (x +:+ y) "/" = Str.HasPrefix x "/".
Proof.
  destruct x as [|a x]; [done|]. intros _.
  change (String a x +:+ y) with (String a (x +:+ y)).
  cbn [Str.HasPrefix]. by rewrite !HasPrefix_nil.
Qed.

Lemma rev_app_append s acc : String.rev_app s acc = String.rev s +:+ acc.
Proof.
  unfold String.rev. revert acc. induction s as [|a s IH]; intros acc; [done|].
  simpl. rewrite (IH (String a acc)), (IH (String a "")).
  by rewrite string_app_assoc.
Qed.

Lemma rev_cons c s : String.rev (String c s) = String.rev s +:+ String c "".
Proof. unfold String.rev at 1. simpl. apply rev_app_append. Qed.

Lemma HasSuffix_slash_cons c s :
  s ≠ "" → Str.HasSuffix (String c s) "/" = Str.HasSuffix s "/".
Proof.
  intros Hs. unfold Str.HasSuffix.
  rewrite rev_cons. change (String.rev "/") with "/".
  apply HasPrefix_app_slash. destruct s as [|d s]; [done|].
  rewrite rev_cons. by destruct (String.rev s).
Qed.

Lemma HasSuffix_app a s :
  s ≠ "" → Str.HasSuffix (a +:+ s) "/" = Str.HasSuffix s "/".
Proof.
  intros Hs. induction a as [|c a IH]; [done|].
  change (String c a +:+ s) with (String c (a +:+ s)).
  rewrite HasSuffix_slash_cons; [done|]. by destruct a.
Qed.

Lemma HasSuffix_no_slash s :
  Str.has_slash s = false → Str.HasSuffix s "/" = false.
Proof.
  induction s as [|c s IH]; [done|]. intros H.
  cbn [Str.has_slash] in H. apply orb_false_iff in H as [Hc Hs].
  destruct (decide (s = "")) as [->|Hne].
  - unfold Str.is_slash in Hc. apply bool_decide_eq_false in Hc.
    unfold Str.HasSuffix. simpl. rewrite bool_decide_false; [done|congruence].
  - rewrite HasSuffix_slash_cons by done. by apply IH.
Qed.


(** ** Extracting the entries of a tree *)








(** ** unzip and zipDirectory as functions of the filesystem *)

Lemma with_fs_id s : with_fs (fs (world s)) s = s.
Proof. by destruct s as [r []]. Qed.

Lemma fs_update_inr h s g :
  h (fs (world s)) = inr g → fs_update h s = Ret () (with_fs g s).
Proof. intros H. unfold fs_update, bind, get_fs. by rewrite H. Qed.

Lemma fs_update_inl h s e : h (fs (world s)) = inl e → fs_update h s = Err e s.
Proof. intros H. unfold fs_update, bind, get_fs. by rewrite H. Qed.

Lemma unzip_files_extract dest files s g' :
  extract_files dest files (fs (world s)) = inr g' →
  unzip_files dest files s = Ret () (with_fs g' s).
Proof.
  revert s. induction files as [|z files IH]; intros s.
  { intros [= <-]. by rewrite with_fs_id. }
  cbn [extract_files unzip_files]. unfold extract_file.
  destruct (zIsDir z).
  - destruct (os.MkdirAll (fs (world s)) (filepath.Join dest (zname z)) ModePerm)
      as [e|g1] eqn:Hm; intros H.
    + erewrite bind_Ret; [by apply IH|].
      erewrite bind_Ret; [done|]. unfold try.
      by erewrite fs_update_inl.
    + erewrite bind_Ret; [by apply (IH (with_fs g1 s))|].
      erewrite bind_Ret; [done|]. unfold try.
      by erewrite fs_update_inr.
  - destruct (os.MkdirAll (fs (world s)) _ ModePerm) as [e|g1] eqn:Hm; [done|].
    destruct (os.OpenFile g1 _ (zmode z)) as [e|g2] eqn:Ho; [done|].
    intros H.
    erewrite bind_Ret;
      [by apply (IH (with_fs (os.write_all g2 (filepath.Join dest (zname z))
                                (zbody z)) s))|].
    erewrite bind_Ret; [|by apply fs_update_inr].
    erewrite bind_Ret; [|by apply fs_update_inr]. done.
Qed.

Lemma fs_modify_with h g s : fs_modify h (with_fs g s) = Ret () (with_fs (h g) s).
Proof. done. Qed.


Lemma fs_read_with {A} (h : FS → error + A) g s a :
  h g = inr a → fs_read h (with_fs g s) = Ret a (with_fs g s).
Proof. intros H. unfold fs_read, bind, get_fs. cbn [with_fs world fs set_fs]. by rewrite H. Qed.


Lemma archive_modify f1 target mt C (h : content → content) :
  match os.read_all (<[filepath.path_key target := File mt C]> f1) target with
  | inr a => os.write_all (<[filepath.path_key target := File mt C]> f1) target (h a)
  | inl _ => <[filepath.path_key target := File mt C]> f1
  end = <[filepath.path_key target := File mt (h C)]> f1.
Proof.
  unfold os.read_all, os.write_all. rewrite lookup_insert_eq.
  by rewrite insert_insert_eq.
Qed.










(** The tree of the witness is the extraction of the package: the
    directories and files of its six entries, eight in all. *)
Example round_trip_start_extracted :
  returned (unzip "work/MyApp.ipa" "work/out"
              (start demo_config None round_trip_world)) = Some ()
  ∧ length (below_root (fs (world round_trip_start))
              (filepath.path_key "work/out")) = 8
  ∧ fs (world round_trip_start)
    !! filepath.path_key "work/out/Payload/MyApp.app/Info.plist"
    = Some (File 420 (Raw ["073"%byte])).
Proof. vm_compute. done. Qed.

(** ** copyFile *)

Lemma fs_check_ok h s : h (fs (world s)) = None → fs_check h s = Ret () s.
Proof. intros H. unfold fs_check, bind, get_fs. by rewrite H. Qed.

Lemma fs_check_fails h s e : h (fs (world s)) = Some e → fs_check h s = Err e s.
Proof. intros H. unfold fs_check, bind, get_fs. by rewrite H. Qed.

Lemma fs_read_inr {A} (h : FS → error + A) s a :
  h (fs (world s)) = inr a → fs_read h s = Ret a s.
Proof. intros H. unfold fs_read, bind, get_fs. by rewrite H. Qed.

Lemma fs_read_inl {A} (h : FS → error + A) s e :
  h (fs (world s)) = inl e → fs_read h s = Err e s.
Proof. intros H. unfold fs_read, bind, get_fs. by rewrite H. Qed.

Lemma fs_modify_eq h s : fs_modify h s = Ret () (with_fs (h (fs (world s))) s).
Proof. done. Qed.

Lemma Create_result f path f1 :
  os.Create f path = inr f1 →
  f1 = <[filepath.path_key path := File (created_mode f path) (Raw [])]> f.
Proof.
  unfold os.Create, os.OpenFile, created_mode.
  destruct (f !! filepath.path_key path) as [[m c|m]|] eqn:Hk.
  - by intros [= <-].
  - done.
  - destruct (os.parent_check f _); [done|]. by intros [= <-].
Qed.

Lemma can_create_inr f path :
  can_create f path = true →
  os.Create f path
  = inr (<[filepath.path_key path := File (created_mode f path) (Raw [])]> f).
Proof.
  unfold can_create. destruct (os.Create f path) as [e|f1] eqn:H; [done|].
  intros _. f_equal. by apply Create_result.
Qed.



(** X3: copyFile of a file onto itself (two paths that name the same
    file) returns nil and leaves the file empty: [os.Create] truncates
    it before it is read. *)
Theorem copyFile_onto_itself src dst s m c :
  filepath.path_key src = filepath.path_key dst →
  fs (world s) !! filepath.path_key src = Some (File m c) →
  copyFile src dst s
  = Ret () (with_fs (<[filepath.path_key src := File m (Raw [])]>
                       (fs (world s))) s).
Proof.
  intros Heq Hsrc. unfold copyFile.
  erewrite bind_Ret; [|apply fs_check_ok; unfold os.Open; by rewrite Hsrc].
  erewrite bind_Ret.
  2: { apply fs_update_inr. unfold os.Create, os.OpenFile.
       by rewrite <-Heq, Hsrc. }
  erewrite bind_Ret.
  2: { apply fs_read_with. unfold os.read_all. by rewrite lookup_insert_eq. }
  rewrite fs_modify_with. unfold os.write_all.
  by rewrite <-Heq, lookup_insert_eq, insert_insert_eq.
Qed.

Lemma copyFile_onto_itself_witness :
  let s := start demo_config None demo_world in
  copyFile "work/my.plist" "work/../work/./my.plist" s
  = Ret () (with_fs (<[filepath.path_key "work/my.plist" := File 420 (Raw [])]>
                       (fs (world s))) s).
Proof.
  apply (copyFile_onto_itself "work/my.plist" "work/../work/./my.plist"
           (start demo_config None demo_world) 420
           (Raw ["060"%byte; "077"%byte])).
  - vm_compute. reflexivity.
  - vm_compute. reflexivity.
Defined.

(** X4: copyFile of a directory fails with the error of the read, after
    the destination has been created: a new empty file is left behind,
    or the file that was there has lost its contents. *)
Theorem copyFile_of_directory src dst s m :
  fs (world s) !! filepath.path_key src = Some (Directory m) →
  can_create (fs (world s)) dst = true →
  copyFile src dst s
  = Err (PathError "read" src EISDIR)
        (with_fs (<[filepath.path_key dst :=
                      File (created_mode (fs (world s)) dst) (Raw [])]>
                    (fs (world s))) s).
Proof.
  intros Hsrc Hc. unfold copyFile.
  assert (filepath.path_key src ≠ filepath.path_key dst) as Hne.
  { intros Heq. unfold can_create, os.Create, os.OpenFile in Hc.
    by rewrite <-Heq, Hsrc in Hc. }
  erewrite bind_Ret; [|apply fs_check_ok; unfold os.Open; by rewrite Hsrc].
  erewrite bind_Ret; [|apply fs_update_inr; by apply can_create_inr].
  erewrite bind_Err; [done|].
  apply fs_read_inl. cbn [with_fs world fs set_fs]. unfold os.read_all.
  rewrite lookup_insert_ne by done. by rewrite Hsrc.
Qed.

Lemma copyFile_of_directory_witness :
  let s := start demo_config None demo_world in
  copyFile "work" "work/copy.plist" s
  = Err (PathError "read" "work" EISDIR)
        (with_fs (<[filepath.path_key "work/copy.plist" :=
                      File (created_mode (fs (world s)) "work/copy.plist")
                        (Raw [])]>
                    (fs (world s))) s).
Proof.
  apply (copyFile_of_directory "work" "work/copy.plist"
           (start demo_config None demo_world) 493).
  - vm_compute. reflexivity.
  - vm_compute. reflexivity.
Defined.

(** ** unzip: entries that are directories, names that leave the
    destination *)

Lemma extract_files_directories dest files g :
  Forall (λ f, zIsDir f = true) files →
  ∃ g', extract_files dest files g = inr g'.
Proof.
  intros H. revert g. induction H as [|f files Hf _ IH]; intros g.
  { by exists g. }
  cbn [extract_files]. unfold extract_file. rewrite Hf.
  destruct (os.MkdirAll g _ ModePerm); apply IH.
Qed.

(** X5: unzip of an archive that has directory entries only returns nil
    whatever the destination is: the result of [os.MkdirAll] for a
    directory entry is not looked at. *)
Theorem unzip_directories_never_fail src dest s ms files :
  fs (world s) !! filepath.path_key src = Some (File ms (Archive files)) →
  Forall (λ f, zIsDir f = true) files →
  ∃ g, unzip src dest s = Ret () (with_fs g s).
Proof.
  intros Hsrc Hdirs.
  destruct (extract_files_directories dest files (fs (world s)) Hdirs)
    as [g Hg].
  exists g. unfold unzip. erewrite bind_Ret.
  2: { apply fs_read_inr. by rewrite Hsrc. }
  by apply unzip_files_extract.
Qed.

Lemma unzip_directories_never_fail_witness :
  ∃ g, unzip "work/dirs.ipa" "work/taken" (start demo_config None dirs_world)
       = Ret () (with_fs g (start demo_config None dirs_world)).
Proof.
  apply (unzip_directories_never_fail "work/dirs.ipa" "work/taken"
           (start demo_config None dirs_world) 420
           [ZFile "Payload/" 493 true (Raw []);
            ZFile "Payload/MyApp.app/" 493 true (Raw [])]).
  - vm_compute. reflexivity.
  - repeat constructor.
Defined.

(** In the world of the witness the destination is a regular file: no
    directory is made, and unzip returns nil all the same. *)
Example unzip_directories_nothing_made :
  let o := unzip "work/dirs.ipa" "work/taken"
             (start demo_config None dirs_world) in
  returned o = Some ()
  ∧ exists_at (world (final o)) "work/taken/Payload" = false
  ∧ exists_at (world (final o)) "work/taken/Payload/MyApp.app" = false.
Proof. vm_compute. done. Qed.

Lemma clean_key_parent r l d :
  clean_key (r, l ++ [d]) → valid_name d → clean_key (r, l).
Proof.
  intros (dd & v & Hk & Hv & Hd) Hvalid. cbn [fst snd] in *.
  destruct v as [|x v _] using rev_ind.
  - rewrite app_nil_r in Hk. exfalso.
    assert (d ∈ replicate dd "..") as [-> _]%elem_of_replicate.
    { rewrite <-Hk. apply elem_of_app. right. by constructor. }
    by destruct Hvalid as (_&_&?&_).
  - rewrite (assoc_L (++)) in Hk. apply app_inj_tail in Hk as [-> ->].
    apply Forall_app in Hv as [Hv _]. by exists dd, v.
Qed.

(** X6: unzip does not keep the entries of an archive inside the
    destination.  An entry named [../n] is written as [n] into the
    directory above the destination; the destination itself need not
    exist. *)
Theorem unzip_writes_outside_dest src dest s ms r l d n m c :
  filepath.path_key dest = (r, l ++ [d]) → valid_name d → valid_name n →
  fs (world s) !! filepath.path_key src
  = Some (File ms (Archive [ZFile ("../" +:+ n) m false c])) →
  (∃ md, fs (world s) !! (r, l) = Some (Directory md)) →
  fs (world s) !! (r, l ++ [n]) = None →
  unzip src dest s
  = Ret () (with_fs (<[(r, l ++ [n]) := File m c]> (fs (world s))) s).
Proof.
  intros Hdest Hd Hn Hsrc [md Hparent] Hfree.
  change (fs (world s) !! ((r, l) : key) = Some (Directory md)) in Hparent.
  change (fs (world s) !! ((r, l ++ [n]) : key) = None) in Hfree.
  pose proof Hn as (Hne & _ & _ & Hns).
  set (fpath := filepath.Join dest ("../" +:+ n)).
  assert (Hk : filepath.path_key fpath = (r, l ++ [n])).
  { unfold fpath. rewrite path_key_Join by done. rewrite Hdest.
    change ("../" +:+ n) with (".." +:+ "/" +:+ n).
    rewrite split_app, (split_no_slash n Hns). unfold extend. cbn [fst snd].
    f_equal. rewrite rev_app_distr.
    change (filepath.clean_elems r (rev [d] ++ rev l) (Str.split ".." ++ [n]))
      with (filepath.clean_step r
              (filepath.clean_step r (d :: rev l) "..") n).
    assert (filepath.clean_step r (d :: rev l) ".." = rev l) as ->.
    { unfold filepath.clean_step.
      rewrite (bool_decide_false (".." = "")) by done.
      rewrite (bool_decide_false (".." = ".")) by done.
      rewrite (bool_decide_true (".." = "..")) by done.
      rewrite bool_decide_false; [done|]. by destruct Hd as (_&_&?&_). }
    rewrite clean_step_valid by done. cbn [rev]. by rewrite rev_involutive. }
  assert (Hkd : filepath.path_key (filepath.Dir fpath) = (r, l)).
  { unfold fpath. rewrite Join_render by done. fold fpath. rewrite Hk.
    apply (path_key_Dir (r, l) n); [|done].
    apply (clean_key_parent r l d); [|done].
    rewrite <-Hdest. apply path_key_clean. }
  unfold unzip. erewrite bind_Ret.
  2: { apply fs_read_inr. by rewrite Hsrc. }
  apply unzip_files_extract. cbn [extract_files]. unfold extract_file.
  assert (zIsDir (ZFile ("../" +:+ n) m false c) = false) as ->.
  { unfold zIsDir. cbn [orb]. rewrite HasSuffix_app by done.
    by apply HasSuffix_no_slash. }
  cbn [zname zmode zbody]. fold fpath.
  assert (os.MkdirAll (fs (world s)) (filepath.Dir fpath) ModePerm
          = inr (fs (world s))) as ->.
  { unfold os.MkdirAll. rewrite Hkd. cbn [fst snd].
    rewrite mkdir_all_exists with (m := md); [done|].
    by rewrite rev_involutive. }
  unfold os.OpenFile, os.write_all, os.parent_check, os.parent.
  rewrite Hk. cbn [fst snd]. rewrite Hfree.
  rewrite removelast_last, Hparent.
  destruct (l ++ [n]) eqn:E; [by destruct l|].
  by rewrite lookup_insert_eq, insert_insert_eq.
Qed.

Lemma unzip_writes_outside_dest_witness :
  let s := start demo_config None slip_world in
  unzip "work/slip.ipa" "work/out" s
  = Ret () (with_fs (<[(false, ["work"] ++ ["evil.sh"]) :=
                         File 493 (Raw ["035"%byte])]> (fs (world s))) s).
Proof.
  apply (unzip_writes_outside_dest "work/slip.ipa" "work/out"
           (start demo_config None slip_world) 420 false ["work"] "out"
           "evil.sh" 493 (Raw ["035"%byte])).
  - vm_compute. reflexivity.
  - vm_compute. repeat split; discriminate.
  - vm_compute. repeat split; discriminate.
  - vm_compute. reflexivity.
  - exists 493%N. vm_compute. reflexivity.
  - vm_compute. reflexivity.
Defined.

(** ** What the helpers never do to the files that are there *)

#[local] Instance same_kind_refl : Reflexive same_kind.
Proof. by intros []. Qed.

#[local] Instance same_kind_trans : Transitive same_kind.
Proof. intros [] [] []; simpl; intros; try done; congruence. Qed.

#[local] Instance entries_kept_preorder : PreOrder entries_kept.
Proof.
  split.
  - intros f k x Hx. by exists x.
  - intros f g h Hfg Hgh k x Hx.
    destruct (Hfg k x Hx) as (y & Hy & Hxy).
    destruct (Hgh k y Hy) as (z & Hz & Hyz).
    exists z. split; [done|]. by etrans.
Qed.

#[local] Instance keeps_entries_preorder : PreOrder keeps_entries.
Proof.
  split.
  - intros s. unfold keeps_entries. reflexivity.
  - intros a b c. unfold keeps_entries. apply transitivity.
Qed.

Lemma entries_kept_insert_new f k x :
  f !! k = None → entries_kept f (<[k := x]> f).
Proof.
  intros Hk k' y Hy. exists y. split; [|done].
  rewrite lookup_insert_ne; [done|]. intros <-. congruence.
Qed.

Lemma entries_kept_insert_file f k m c c' :
  f !! k = Some (File m c) → entries_kept f (<[k := File m c']> f).
Proof.
  intros Hk k' y Hy. destruct (decide (k = k')) as [<-|Hne].
  - rewrite lookup_insert_eq. eexists. split; [done|].
    assert (y = File m c) as -> by congruence. done.
  - exists y. by rewrite lookup_insert_ne.
Qed.

Lemma mkdir_all_keeps r rl perm g g' :
  os.mkdir_all r rl perm g = Some g' → entries_kept g g'.
Proof.
  revert g'. induction rl as [|n rl IH]; intros g'; cbn [os.mkdir_all].
  - match goal with
    | |- context [match ?x with _ => _ end] => destruct x as [[|]|] eqn:Hk
    end; intros [= <-]; [reflexivity|].
    by apply entries_kept_insert_new.
  - match goal with
    | |- context [match ?x with _ => _ end] => destruct x as [[|]|] eqn:Hk
    end; [done|by intros [= <-]|].
    destruct (os.mkdir_all r rl perm g) as [g1|] eqn:Hg1; [|done].
    intros [= <-]. intros k x Hx.
    destruct (IH g1 eq_refl k x Hx) as (y & Hy & Hxy).
    exists y. split; [|done]. rewrite lookup_insert_ne; [done|].
    intros <-. pose proof (eq_trans (eq_sym Hk) Hx). done.
Qed.

Lemma MkdirAll_keeps g path perm g' :
  os.MkdirAll g path perm = inr g' → entries_kept g g'.
Proof.
  unfold os.MkdirAll.
  destruct (os.mkdir_all _ _ perm g) as [g1|] eqn:H; [|done].
  intros [= <-]. by eapply mkdir_all_keeps.
Qed.

Lemma OpenFile_keeps g path perm g' :
  os.OpenFile g path perm = inr g' → entries_kept g g'.
Proof.
  unfold os.OpenFile.
  destruct (g !! filepath.path_key path) as [[m c|m]|] eqn:Hk.
  - intros [= <-]. by eapply entries_kept_insert_file.
  - done.
  - destruct (os.parent_check g _); [done|]. intros [= <-].
    by apply entries_kept_insert_new.
Qed.

Lemma write_all_keeps g path c : entries_kept g (os.write_all g path c).
Proof.
  unfold os.write_all.
  destruct (g !! filepath.path_key path) as [[m c'|m]|] eqn:Hk;
    [|reflexivity..].
  by eapply entries_kept_insert_file.
Qed.

Lemma keeps_fs_update h :
  (∀ g g', h g = inr g' → entries_kept g g') →
  preserves keeps_entries (fs_update h).
Proof.
  intros Hh s. unfold fs_update, bind, get_fs.
  destruct (h (fs (world s))) as [e|g'] eqn:Hg; cbn; [reflexivity|].
  by apply Hh.
Qed.

Lemma keeps_fs_modify h :
  (∀ g, entries_kept g (h g)) → preserves keeps_entries (fs_modify h).
Proof. intros Hh s. apply Hh. Qed.

Lemma keeps_archive_step target (h : content → content) :
  preserves keeps_entries
    (fs_modify (λ f, match os.read_all f target with
                     | inr c => os.write_all f target (h c)
                     | inl _ => f
                     end)).
Proof.
  apply keeps_fs_modify. intros g.
  destruct (os.read_all g target); [reflexivity|apply write_all_keeps].
Qed.

Lemma keeps_copyFile src dst : preserves keeps_entries (copyFile src dst).
Proof.
  unfold copyFile.
  apply preserves_bind; [apply _|apply preserves_fs_check, _|intros _].
  apply preserves_bind; [apply _| |intros _].
  { apply keeps_fs_update. intros g g'. apply OpenFile_keeps. }
  apply preserves_bind; [apply _|apply preserves_fs_read, _|intros data].
  apply keeps_fs_modify. intros g. apply write_all_keeps.
Qed.

Lemma keeps_Rel a b : preserves keeps_entries (Rel a b).
Proof.
  unfold Rel. destruct (filepath.Rel a b);
    [apply preserves_ret|apply preserves_fail]; apply _.
Qed.

Lemma keeps_copyDir src dst : preserves keeps_entries (copyDir src dst).
Proof.
  unfold copyDir. apply preserves_Walk; [apply _|].
  intros p [i|] [e|] []; try (apply preserves_fail || apply preserves_ret);
    try apply _.
  apply preserves_bind; [apply _|apply keeps_Rel|intros relPath].
  destruct (fi_isdir i); [|apply keeps_copyFile].
  apply keeps_fs_update. intros g g'. apply MkdirAll_keeps.
Qed.

Lemma keeps_unzip_files dest files :
  preserves keeps_entries (unzip_files dest files).
Proof.
  induction files as [|f files IH]; cbn [unzip_files].
  { apply preserves_ret, _. }
  apply preserves_bind; [apply _| |by intros _].
  destruct (zIsDir f).
  - apply preserves_bind; [apply _| |intros _; apply preserves_ret, _].
    apply preserves_try.
    apply keeps_fs_update. intros g g'. apply MkdirAll_keeps.
  - apply preserves_bind; [apply _| |intros _].
    { apply keeps_fs_update. intros g g'. apply MkdirAll_keeps. }
    apply preserves_bind; [apply _| |intros _].
    { apply keeps_fs_update. intros g g'. apply OpenFile_keeps. }
    apply keeps_fs_modify. intros g. apply write_all_keeps.
Qed.

Lemma keeps_unzip src dest : preserves keeps_entries (unzip src dest).
Proof.
  unfold unzip, zip.OpenReader.
  apply preserves_bind; [apply _|apply preserves_fs_read, _|intros files].
  apply keeps_unzip_files.
Qed.

Lemma keeps_zipDirectory source target :
  preserves keeps_entries (zipDirectory source target).
Proof.
  unfold zipDirectory.
  apply preserves_bind; [apply _| |intros _].
  { apply keeps_fs_update. intros g g'. apply OpenFile_keeps. }
  apply preserves_bind; [apply _| |intros r].
  { apply preserves_try. apply preserves_Walk; [apply _|].
    intros p [i|] [e|] []; try (apply preserves_fail || apply preserves_ret);
      try apply _.
    apply preserves_bind; [apply _|apply keeps_Rel|intros relPath].
    apply preserves_bind; [apply _|apply keeps_archive_step|intros _].
    destruct (negb (fi_isdir i)); [|apply preserves_ret, _].
    apply preserves_bind; [apply _|apply preserves_fs_check, _|intros _].
    apply preserves_bind; [apply _|apply preserves_fs_read, _|intros data].
    apply keeps_archive_step. }
  apply preserves_bind; [apply _|apply keeps_archive_step|intros _].
  destruct r; [apply preserves_fail|apply preserves_ret]; apply _.
Qed.

(** X7: whether they return nil or an error, unzip, zipDirectory,
    copyFile and copyDir remove nothing: every entry that is there when
    one of them is called is there afterwards, a directory still a
    directory and a file still a file, with the mode it had.  Only the
    bytes of files change. *)
Theorem helpers_keep_entries s :
  (∀ src dest,
     entries_kept (fs (world s)) (fs (world (final (unzip src dest s)))))
  ∧ (∀ source target,
       entries_kept (fs (world s))
         (fs (world (final (zipDirectory source target s)))))
  ∧ (∀ src dst,
       entries_kept (fs (world s)) (fs (world (final (copyFile src dst s)))))
  ∧ (∀ src dst,
       entries_kept (fs (world s)) (fs (world (final (copyDir src dst s))))).
Proof.
  repeat split; intros a b.
  - apply (keeps_unzip a b s).
  - apply (keeps_zipDirectory a b s).
  - apply (keeps_copyFile a b s).
  - apply (keeps_copyDir a b s).
Qed.

(** ** The errors of Resign *)








(** ** The checks of the command line *)

Lemma bundle_loop_spec s h :
  cmd.bundle_loop s h = true
  ↔ (h || Str.has_dot s) = true
    ∧ Forall bundle_charset (list_ascii_of_string s).
Proof.
  revert h. induction s as [|ch s IH]; intros h; cbn [cmd.bundle_loop].
  { cbn. rewrite orb_false_r. split; [by intros ->|by intros [-> _]]. }
  cbn [list_ascii_of_string Str.has_dot]. unfold Str.is_dot.
  rewrite Forall_cons. case_bool_decide as Hdot.
  - rewrite IH. cbn [orb]. rewrite orb_true_r.
    split; [intros [_ ?]|intros (_ & _ & ?)]; repeat split; try done.
    by left.
  - cbn [orb]. destruct (cmd.is_bundle_char ch) eqn:Hch; cbn [negb].
    + rewrite IH. split; [intros [? ?]|intros (? & _ & ?)];
        repeat split; try done. by right.
    + split; [done|]. intros (_ & [?|?] & _); congruence.
Qed.

(** X9: isValidBundleID accepts exactly the strings that have a dot and
    are made of ASCII letters, digits, hyphens and dots; nothing is asked
    of the parts between the dots. *)
Theorem isValidBundleID_spec bundleID :
  cmd.isValidBundleID bundleID = true
  ↔ Str.has_dot bundleID = true
    ∧ Forall bundle_charset (list_ascii_of_string bundleID).
Proof.
  unfold cmd.isValidBundleID. case_bool_decide as Hlen.
  - destruct bundleID; [|done]. cbn. split; [done|by intros [? _]].
  - apply bundle_loop_spec.
Qed.

(** Strings of dots and hyphens pass, also as the [-b] flag. *)
Example isValidBundleID_dots :
  cmd.isValidBundleID "." = true ∧ cmd.isValidBundleID "-.-" = true
  ∧ cmd.isValidBundleID "com.acme.app" = true
  ∧ cmd.isValidBundleID "comacmeapp" = false
  ∧ cmd.isValidBundleID "com.acme_app" = false
  ∧ cmd.validateCLIArguments
      {| SourceIPA := "work/MyApp.ipa"; Certificate := "Test Cert";
         Entitlements := ""; MobileProvision := ""; BundleID := "..." |}
      (fs demo_world) = None.
Proof. vm_compute. done. Qed.

Lemma length_substring s n m :
  (n + m ≤ String.length s)%nat →
  String.length (String.substring n m s) = m.
Proof.
  revert n m. induction s as [|c s IH]; intros n m; cbn [String.length].
  { intros H. assert (n = 0 ∧ m = 0)%nat as [-> ->] by lia. done. }
  intros H. destruct n as [|n]; cbn [String.substring].
  - destruct m as [|m]; [done|]. cbn [String.length]. rewrite IH; lia.
  - apply IH. lia.
Qed.

Lemma length_slice_from s n :
  (n ≤ String.length s)%nat →
  String.length (cmd.slice_from s n) = (String.length s - n)%nat.
Proof. intros H. unfold cmd.slice_from. apply length_substring. lia. Qed.

Lemma orelse_None a b : cmd.orelse a b = None ↔ a = None ∧ b = None.
Proof. destruct a; cbn; [|tauto]. split; [done|by intros [? _]]. Qed.

Lemma check_None c e : cmd.check c e = None ↔ c = false.
Proof. by destruct c. Qed.

(** X10: validateCLIArguments refuses every call that names a
    provisioning profile: when the file exists, the last 17 bytes of its
    path are compared with the 16 bytes of [.mobileprovision]. *)
Theorem validateCLIArguments_refuses_profiles flags f :
  MobileProvision flags ≠ "" →
  is_Some (cmd.validateCLIArguments flags f).
Proof.
  intros Hp.
  destruct (cmd.validateCLIArguments flags f) as [e|] eqn:Hv; [by eexists|].
  exfalso. unfold cmd.validateCLIArguments in Hv. cbv zeta in Hv.
  repeat (apply orelse_None in Hv as [? Hv]).
  unfold nonempty in *. rewrite (bool_decide_false _ Hp) in *. cbn [negb] in *.
  match goal with
  | H : cmd.orelse (cmd.stat_check _ (MobileProvision _) _ _) _ = None |- _ =>
      apply orelse_None in H as [_ H]; apply check_None in H;
      apply orb_false_iff in H as [Hlen Heq]
  end.
  apply Nat.ltb_ge in Hlen. apply negb_false_iff, String.eqb_eq in Heq.
  apply (f_equal String.length) in Heq.
  rewrite length_slice_from in Heq by lia. cbn in Heq. lia.
Qed.

Lemma validateCLIArguments_refuses_profiles_witness :
  is_Some (cmd.validateCLIArguments profile_flags (fs profile_world)).
Proof.
  apply validateCLIArguments_refuses_profiles. vm_compute. discriminate.
Defined.

(** The flags of the witness are those of a usual call; the error is
    that of the test of the extension. *)
Example validateCLIArguments_profile_error :
  cmd.validateCLIArguments profile_flags (fs profile_world)
  = Some (Errorf ("mobile provision file must be .mobileprovision, got: "
                    +:+ "work/My.mobileprovision"))
  ∧ cmd.validateGUIInputs "work/MyApp.ipa" "Test Cert" ""
      "work/My.mobileprovision" "com.acme.app" (fs profile_world) = [].
Proof. vm_compute. done. Qed.

(** ** Suffixes and extensions *)

Lemma substring_full s : String.substring 0 (String.length s) s = s.
Proof. induction s as [|c s IH]; [done|]. cbn. by rewrite IH. Qed.

Lemma substring_split s n :
  (n ≤ String.length s)%nat →
  s = String.substring 0 n s +:+ cmd.slice_from s n.
Proof.
  unfold cmd.slice_from. revert n.
  induction s as [|c s IH]; intros n Hn; cbn [String.length] in *.
  { by assert (n = 0)%nat as -> by lia. }
  destruct n as [|n].
  - change (String.substring 0 0 (String c s)) with "".
    rewrite Nat.sub_0_r.
    change (S (String.length s)) with (String.length (String c s)).
    by rewrite (substring_full (String c s)).
  - cbn [String.substring Nat.sub].
    change (String c (String.substring 0 n s) +:+ ?x)
      with (String c (String.substring 0 n s +:+ x)).
    f_equal. apply IH. lia.
Qed.

Lemma ends_with_suffix s ext :
  cmd.ends_with s ext = true → ∃ a, s = a +:+ ext.
Proof.
  unfold cmd.ends_with.
  intros [Hlen Heq%String.eqb_eq]%andb_true_iff. apply Nat.leb_le in Hlen.
  exists (String.substring 0 (String.length s - String.length ext) s).
  pose proof (substring_split s (String.length s - String.length ext)) as Hs.
  rewrite Heq in Hs. apply Hs. lia.
Qed.

Lemma has_dot_app a e : Str.has_dot (a +:+ String "." e) = true.
Proof.
  induction a as [|c a IH]; [done|].
  change (String c a +:+ String "." e) with (String c (a +:+ String "." e)).
  cbn [Str.has_dot]. rewrite IH. apply orb_true_r.
Qed.

Lemma Ext_suffix a e :
  Str.has_slash e = false → Str.has_dot e = false →
  filepath.Ext (a +:+ String "." e) = String "." e.
Proof.
  intros Hs Hd. induction a as [|c a IH].
  - change ("" +:+ String "." e) with (String "." e).
    cbn [filepath.Ext]. by rewrite Hs, Hd.
  - change (String c a +:+ String "." e) with (String c (a +:+ String "." e)).
    cbn [filepath.Ext]. by rewrite has_dot_app, orb_true_r.
Qed.

Lemma lower_ascii_marks c :
  Str.is_slash (Str.lower_ascii c) = Str.is_slash c
  ∧ Str.is_dot (Str.lower_ascii c) = Str.is_dot c.
Proof. destruct c as [[] [] [] [] [] [] [] []]; by vm_compute. Qed.

Lemma ToLower_marks s :
  Str.has_slash (Str.ToLower s) = Str.has_slash s
  ∧ Str.has_dot (Str.ToLower s) = Str.has_dot s.
Proof.
  induction s as [|c s [IH1 IH2]]; [done|].
  cbn [Str.ToLower Str.has_slash Str.has_dot].
  destruct (lower_ascii_marks c) as [-> ->]. by rewrite IH1, IH2.
Qed.

Lemma ToLower_Ext s : Str.ToLower (filepath.Ext s) = filepath.Ext (Str.ToLower s).
Proof.
  induction s as [|c s IH]; [done|].
  cbn [Str.ToLower filepath.Ext].
  destruct (ToLower_marks s) as [-> ->].
  destruct (lower_ascii_marks c) as [_ ->].
  destruct (Str.has_slash s || Str.has_dot s); [done|].
  by destruct (Str.is_dot c).
Qed.

Lemma ToLower_app a b : Str.ToLower (a +:+ b) = Str.ToLower a +:+ Str.ToLower b.
Proof.
  induction a as [|c a IH]; [done|].
  change (String c a +:+ b) with (String c (a +:+ b)).
  cbn [Str.ToLower]. by rewrite IH.
Qed.

Lemma rev_append a b : String.rev (a +:+ b) = String.rev b +:+ String.rev a.
Proof.
  induction a as [|c a IH].
  - change ("" +:+ b) with b. change (String.rev "") with "".
    by rewrite string_app_nil_r.
  - change (String c a +:+ b) with (String c (a +:+ b)).
    by rewrite !rev_cons, IH, string_app_assoc.
Qed.

Lemma rev_rev s : String.rev (String.rev s) = s.
Proof.
  induction s as [|c s IH]; [done|].
  by rewrite rev_cons, rev_append, IH.
Qed.

Lemma HasPrefix_app x y : Str.HasPrefix (x +:+ y) x = true.
Proof.
  induction x as [|c x IH]; [apply HasPrefix_nil|].
  change (String c x +:+ y) with (String c (x +:+ y)).
  cbn [Str.HasPrefix]. by rewrite bool_decide_true, IH.
Qed.

Lemma HasPrefix_inv s p : Str.HasPrefix s p = true → ∃ t, s = p +:+ t.
Proof.
  revert s. induction p as [|c p IH]; intros s.
  { by exists s. }
  destruct s as [|d s]; cbn [Str.HasPrefix]; [done|].
  intros [Hc Hs]%andb_true_iff. apply bool_decide_eq_true in Hc as ->.
  destruct (IH s Hs) as [t ->]. by exists t.
Qed.

Lemma HasSuffix_app_self a p : Str.HasSuffix (a +:+ p) p = true.
Proof. unfold Str.HasSuffix. rewrite rev_append. apply HasPrefix_app. Qed.

Lemma HasSuffix_inv s p : Str.HasSuffix s p = true → ∃ a, s = a +:+ p.
Proof.
  unfold Str.HasSuffix. intros [t Ht]%HasPrefix_inv.
  exists (String.rev t). apply (f_equal String.rev) in Ht.
  by rewrite rev_rev, rev_append, rev_rev in Ht.
Qed.

(** The extension gate of extractApp is passed by a source whose
    lower-cased path ends in [.ipa] or [.app]. *)
Lemma lower_suffix_gate s :
  Str.HasSuffix (Str.ToLower s) ".ipa" = true
  ∨ Str.HasSuffix (Str.ToLower s) ".app" = true →
  Str.ToLower (filepath.Ext s) = ".ipa" ∨ Str.ToLower (filepath.Ext s) = ".app".
Proof.
  rewrite ToLower_Ext.
  intros [[a ->]%HasSuffix_inv|[a ->]%HasSuffix_inv]; [left|right];
    by apply Ext_suffix.
Qed.

Lemma stat_check_None f path a b :
  cmd.stat_check f path a b = None → f !! filepath.path_key path ≠ None.
Proof.
  unfold cmd.stat_check, os.Stat.
  destruct (f !! filepath.path_key path); [done|]. by cbn.
Qed.

Lemma cli_profile_branch f p (e : error) :
  (if nonempty p then
     cmd.orelse (cmd.stat_check f p "mobile provision file does not exist: "
                   "cannot access mobile provision file ")
       (cmd.check ((String.length p <? 17)%nat
                   || negb (String.eqb
                              (cmd.slice_from p (String.length p - 17))
                              ".mobileprovision")) e)
   else None) = None →
  p = "".
Proof.
  unfold nonempty. case_bool_decide as Hp; [done|]. cbn [negb].
  intros [_ H]%orelse_None. apply check_None in H.
  apply orb_false_iff in H as [Hlen Heq].
  apply Nat.ltb_ge in Hlen. apply negb_false_iff, String.eqb_eq in Heq.
  apply (f_equal String.length) in Heq.
  rewrite length_slice_from in Heq by lia. cbn in Heq. lia.
Qed.

Lemma cli_accepted flags f :
  cmd.validateCLIArguments flags f = None →
  SourceIPA flags ≠ "" ∧ Certificate flags ≠ ""
  ∧ f !! filepath.path_key (SourceIPA flags) ≠ None
  ∧ (∃ a, SourceIPA flags = a +:+ ".ipa" ∨ SourceIPA flags = a +:+ ".app")
  ∧ (Entitlements flags = ""
     ∨ f !! filepath.path_key (Entitlements flags) ≠ None
       ∧ ∃ a, Entitlements flags = a +:+ ".plist")
  ∧ MobileProvision flags = ""
  ∧ (BundleID flags = "" ∨ cmd.isValidBundleID (BundleID flags) = true).
Proof.
  unfold cmd.validateCLIArguments. cbv zeta. intros Hv.
  apply orelse_None in Hv as [H1 Hv]. apply orelse_None in Hv as [H2 Hv].
  apply orelse_None in Hv as [H3 Hv]. apply orelse_None in Hv as [H4 Hv].
  apply orelse_None in Hv as [H5 Hv]. apply orelse_None in Hv as [H6 H7].
  apply check_None, bool_decide_eq_false in H1.
  apply check_None, bool_decide_eq_false in H2.
  apply stat_check_None in H3.
  apply check_None, negb_false_iff in H4. cbn [existsb] in H4.
  rewrite orb_false_r in H4. apply orb_true_iff in H4.
  apply cli_profile_branch in H6.
  split; [done|]. split; [done|]. split; [done|]. split.
  { destruct H4 as [[a Ha]%ends_with_suffix|[a Ha]%ends_with_suffix];
      exists a; eauto. }
  split.
  { unfold nonempty in H5. case_bool_decide as He; [by left|right].
    cbn [negb] in H5. apply orelse_None in H5 as [Hs Hc].
    split; [by eapply stat_check_None|].
    apply check_None, orb_false_iff in Hc as [Hlen Heq].
    apply Nat.ltb_ge in Hlen. apply negb_false_iff, String.eqb_eq in Heq.
    exists (String.substring 0 (String.length (Entitlements flags) - 6)
              (Entitlements flags)).
    pose proof (substring_split (Entitlements flags)
                  (String.length (Entitlements flags) - 6)) as Hsplit.
    rewrite Heq in Hsplit. apply Hsplit. lia. }
  split; [done|].
  unfold nonempty in H7. case_bool_decide; [by left|right].
  cbn [negb] in H7. apply check_None, orb_false_iff in H7 as [_ H7].
  by apply negb_false_iff in H7.
Qed.

(** X11: a call that validateCLIArguments accepts is accepted by
    validate of the Resigner made from its flags, in the same filesystem,
    and its source passes the test of the extension in extractApp: from
    the command line, Resign fails neither on its inputs being missing
    nor with [unsupported file type]. *)
Theorem CLI_accepted_passes_validate flags w cb :
  cmd.validateCLIArguments flags (fs w) = None →
  validate (start flags cb w) = Ret () (start flags cb w)
  ∧ (Str.ToLower (filepath.Ext (SourceIPA flags)) = ".ipa"
     ∨ Str.ToLower (filepath.Ext (SourceIPA flags)) = ".app").
Proof.
  intros (H1 & H2 & H3 & [a H4] & H5 & H6 & _)%cli_accepted. split.
  - destruct (validate_cases (start flags cb w)) as [[Hv _]|(e & _ & Hr)];
      [done|].
    exfalso. unfold rejected in Hr. cbn in Hr.
    destruct Hr as [?|[?|[?|[[? ?]|[? ?]]]]]; try done.
    destruct H5 as [?|[? _]]; done.
  - destruct H4 as [-> | ->]; [left|right]; by rewrite Ext_suffix.
Qed.

Lemma CLI_accepted_passes_validate_witness :
  validate (start demo_config None demo_world)
  = Ret () (start demo_config None demo_world)
  ∧ (Str.ToLower (filepath.Ext (SourceIPA demo_config)) = ".ipa"
     ∨ Str.ToLower (filepath.Ext (SourceIPA demo_config)) = ".app").
Proof.
  apply (CLI_accepted_passes_validate demo_config demo_world None).
  vm_compute. reflexivity.
Defined.

Lemma gui_accepted c f :
  cmd.validateGUIInputs (SourceIPA c) (Certificate c) (Entitlements c)
    (MobileProvision c) (BundleID c) f = [] →
  SourceIPA c ≠ "" ∧ Certificate c ≠ ""
  ∧ f !! filepath.path_key (SourceIPA c) ≠ None
  ∧ (Str.HasSuffix (Str.ToLower (SourceIPA c)) ".ipa" = true
     ∨ Str.HasSuffix (Str.ToLower (SourceIPA c)) ".app" = true)
  ∧ (Entitlements c = "" ∨ f !! filepath.path_key (Entitlements c) ≠ None)
  ∧ (MobileProvision c = ""
     ∨ f !! filepath.path_key (MobileProvision c) ≠ None).
Proof.
  unfold cmd.validateGUIInputs, nonempty. rewrite !stat_not_exist_spec.
  intros H.
  apply app_eq_nil in H as [H1 H]. apply app_eq_nil in H as [H2 H].
  apply app_eq_nil in H as [H3 H]. apply app_eq_nil in H as [H4 _].
  destruct (bool_decide (SourceIPA c = "")) eqn:E1; [done|].
  apply bool_decide_eq_false in E1.
  destruct (bool_decide (f !! filepath.path_key (SourceIPA c) = None)) eqn:E2;
    [done|].
  apply bool_decide_eq_false in E2.
  destruct (negb (Str.HasSuffix (Str.ToLower (SourceIPA c)) ".ipa")
            && negb (Str.HasSuffix (Str.ToLower (SourceIPA c)) ".app"))
    eqn:E3; [done|].
  apply andb_false_iff in E3. rewrite !negb_false_iff in E3.
  destruct (bool_decide (Certificate c = "")) eqn:E4; [done|].
  apply bool_decide_eq_false in E4.
  repeat split; try done.
  - destruct (bool_decide (Entitlements c = "")) eqn:E5.
    + left. by apply bool_decide_eq_true in E5.
    + right. cbn [negb] in H3.
      destruct (bool_decide (f !! filepath.path_key (Entitlements c) = None))
        eqn:E6; [done|].
      by apply bool_decide_eq_false in E6.
  - destruct (bool_decide (MobileProvision c = "")) eqn:E5.
    + left. by apply bool_decide_eq_true in E5.
    + right. cbn [negb] in H4.
      destruct (bool_decide (f !! filepath.path_key (MobileProvision c) = None))
        eqn:E6; [done|].
      by apply bool_decide_eq_false in E6.
Qed.

(** X12: inputs for which validateGUIInputs has no message are accepted
    by validate of the Resigner made from them, and the source passes
    the test of the extension in extractApp. *)
Theorem GUI_accepted_passes_validate c w cb :
  cmd.validateGUIInputs (SourceIPA c) (Certificate c) (Entitlements c)
    (MobileProvision c) (BundleID c) (fs w) = [] →
  validate (start c cb w) = Ret () (start c cb w)
  ∧ (Str.ToLower (filepath.Ext (SourceIPA c)) = ".ipa"
     ∨ Str.ToLower (filepath.Ext (SourceIPA c)) = ".app").
Proof.
  intros (H1 & H2 & H3 & H4 & H5 & H6)%gui_accepted. split.
  - destruct (validate_cases (start c cb w)) as [[Hv _]|(e & _ & Hr)];
      [done|].
    exfalso. unfold rejected in Hr. cbn in Hr.
    destruct Hr as [?|[?|[?|[[? ?]|[? ?]]]]]; try done.
    + destruct H6 as [?|?]; done.
    + destruct H5 as [?|?]; done.
  - by apply lower_suffix_gate.
Qed.

Lemma GUI_accepted_passes_validate_witness :
  validate (start profile_flags None profile_world)
  = Ret () (start profile_flags None profile_world)
  ∧ (Str.ToLower (filepath.Ext (SourceIPA profile_flags)) = ".ipa"
     ∨ Str.ToLower (filepath.Ext (SourceIPA profile_flags)) = ".app").
Proof.
  apply (GUI_accepted_passes_validate profile_flags profile_world None).
  vm_compute. reflexivity.
Defined.

(** X13: what validateCLIArguments accepts, validateGUIInputs accepts:
    the checks of the command line are the stricter ones. *)
Theorem CLI_accepted_GUI_accepted flags f :
  cmd.validateCLIArguments flags f = None →
  cmd.validateGUIInputs (SourceIPA flags) (Certificate flags)
    (Entitlements flags) (MobileProvision flags) (BundleID flags) f = [].
Proof.
  intros (H1 & H2 & H3 & [a H4] & H5 & H6 & H7)%cli_accepted.
  unfold cmd.validateGUIInputs, nonempty. rewrite !stat_not_exist_spec.
  rewrite (bool_decide_false _ H1), (bool_decide_false _ H2),
    (bool_decide_false _ H3), H6.
  assert (negb (Str.HasSuffix (Str.ToLower (SourceIPA flags)) ".ipa")
          && negb (Str.HasSuffix (Str.ToLower (SourceIPA flags)) ".app")
          = false) as ->.
  { destruct H4 as [-> | ->]; rewrite ToLower_app.
    - change (Str.ToLower ".ipa") with ".ipa".
      by rewrite HasSuffix_app_self.
    - change (Str.ToLower ".app") with ".app".
      by rewrite (HasSuffix_app_self _ ".app"), andb_false_r. }
  cbn [app negb bool_decide].
  assert ((if negb (bool_decide (Entitlements flags = "")) then
             if bool_decide (f !! filepath.path_key (Entitlements flags) = None)
             then [cmd.bullet +:+ "Entitlements file does not exist: "
                     +:+ Entitlements flags]
             else if negb (Str.HasSuffix (Str.ToLower (Entitlements flags))
                             ".plist")
                  then [cmd.bullet +:+ "Entitlements file must be .plist"]
                  else []
           else []) = []) as ->.
  { destruct H5 as [->|[He [b Hb]]]; [done|].
    destruct (bool_decide (Entitlements flags = "")); [done|]. cbn [negb].
    rewrite (bool_decide_false _ He). rewrite Hb at 1. rewrite ToLower_app.
    change (Str.ToLower ".plist") with ".plist".
    by rewrite HasSuffix_app_self. }
  destruct H7 as [->|H7]; [done|].
  destruct (bool_decide (BundleID flags = "")); [done|]. by rewrite H7.
Qed.

Lemma CLI_accepted_GUI_accepted_witness :
  cmd.validateGUIInputs (SourceIPA demo_config) (Certificate demo_config)
    (Entitlements demo_config) (MobileProvision demo_config)
    (BundleID demo_config) (fs demo_world) = [].
Proof.
  apply (CLI_accepted_GUI_accepted demo_config (fs demo_world)).
  vm_compute. reflexivity.
Defined.

(** The converse does not hold: the window accepts an extension in
    capitals and a bundle identifier of one character, and the command
    line accepts neither. *)
Example GUI_accepted_CLI_refused :
  let f := fs (mkworld [(".", Directory 493); ("A.IPA", File 420 demo_ipa)]) in
  let g := fs (mkworld [(".", Directory 493); ("A.ipa", File 420 demo_ipa)]) in
  cmd.validateGUIInputs "A.IPA" "Cert" "" "" "" f = []
  ∧ cmd.validateCLIArguments
      {| SourceIPA := "A.IPA"; Certificate := "Cert"; Entitlements := "";
         MobileProvision := ""; BundleID := "" |} f ≠ None
  ∧ cmd.validateGUIInputs "A.ipa" "Cert" "" "" "." g = []
  ∧ cmd.validateCLIArguments
      {| SourceIPA := "A.ipa"; Certificate := "Cert"; Entitlements := "";
         MobileProvision := ""; BundleID := "." |} g ≠ None.
Proof. vm_compute. by repeat split. Qed.

(** ** The order of the walk *)

Lemma ascii_compare_refl x : Ascii.compare x x = Eq.
Proof. unfold Ascii.compare. apply N.compare_refl. Qed.

Lemma ascii_compare_Lt_trans x y z :
  Ascii.compare x y = Lt → Ascii.compare y z = Lt → Ascii.compare x z = Lt.
Proof.
  unfold Ascii.compare. rewrite !N.compare_lt_iff. apply N.lt_trans.
Qed.

Lemma string_leb_trans a b c :
  String.leb a b = true → String.leb b c = true → String.leb a c = true.
Proof.
  unfold String.leb. revert b c.
  induction a as [|x a IH]; intros [|y b] [|z c]; cbn [String.compare];
    try done.
  destruct (Ascii.compare x y) eqn:Hxy; [|clear IH|done].
  - apply Ascii.compare_eq_iff in Hxy as ->.
    destruct (Ascii.compare y z); [apply IH|done..].
  - destruct (Ascii.compare y z) eqn:Hyz; [| |done].
    + apply Ascii.compare_eq_iff in Hyz as ->. by rewrite Hxy.
    + by rewrite (ascii_compare_Lt_trans x y z).
Qed.

Lemma lex_leb_trans a b c :
  lex_leb a b = true → lex_leb b c = true → lex_leb a c = true.
Proof.
  revert b c. induction a as [|x a IH]; intros [|y b] [|z c];
    cbn [lex_leb]; try done.
  repeat case_bool_decide; subst; try done.
  - apply IH.
  - intros H1 H2. destruct H. by apply String.leb_antisym.
  - apply string_leb_trans.
Qed.

Lemma lex_leb_total a b : lex_leb a b = true ∨ lex_leb b a = true.
Proof.
  revert b. induction a as [|x a IH]; intros [|y b]; cbn [lex_leb];
    [by left..|by right|].
  repeat case_bool_decide; subst; try done. apply String.leb_total.
Qed.


#[local] Instance walk_le_trans : Transitive walk_le.
Proof.
  intros a b c. unfold walk_le. rewrite !Is_true_true. apply lex_leb_trans.
Qed.

#[local] Instance walk_le_total : Total walk_le.
Proof.
  intros a b. unfold walk_le. rewrite !Is_true_true. apply lex_leb_total.
Qed.




(** ** copyDir *)










(** In the bundle of the witness the file [PlugIns/W.appex/W] can be
    executed (mode 0755); its copy cannot (mode 0666). *)
Example copyDir_drops_file_modes :
  let s := start demo_config None bundle_world in
  let s' := final (copyDir "Demo.app" "Copy.app" s) in
  fs (world s) !! filepath.path_key "Demo.app/PlugIns/W.appex/W"
  = Some (File 493 (Raw []))
  ∧ fs (world s') !! filepath.path_key "Copy.app/PlugIns/W.appex/W"
    = Some (File 438 (Raw []))
  ∧ fs (world s') !! filepath.path_key "Copy.app/PlugIns/W.appex"
    = Some (Directory 493).
Proof. vm_compute. done. Qed.

(** ** What [os.MkdirAll] makes *)

Lemma mkdir_all_spec r rl perm g g' :
  os.mkdir_all r rl perm g = Some g' →
  (∀ k x, g !! k = Some x → g' !! k = Some x)
  ∧ (∀ k, g !! k = None →
          g' !! k = None
          ∨ (g' !! k = Some (Directory perm)
             ∧ ∃ l' rest, k = (r, l') ∧ rev rl = l' ++ rest))
  ∧ ∃ m, g' !! ((r, rev rl) : key) = Some (Directory m).
Proof.
  revert g'. induction rl as [|n rl IH]; intros g'; cbn [os.mkdir_all].
  - match goal with
    | |- context [match ?x with _ => _ end] => destruct x as [[|m]|] eqn:Hk
    end; intros [= <-].
    + repeat split; eauto.
    + split; [|split].
      * intros k x Hx. rewrite lookup_insert_ne; [done|].
        intros <-. pose proof (eq_trans (eq_sym Hk) Hx). done.
      * intros k Hnone. destruct (decide (((r, rev []) : key) = k)) as [<-|Hne].
        -- right. rewrite lookup_insert_eq. split; [done|]. by exists [], [].
        -- left. by rewrite lookup_insert_ne.
      * rewrite lookup_insert_eq. eauto.
  - match goal with
    | |- context [match ?x with _ => _ end] => destruct x as [[|m]|] eqn:Hk
    end; [done|intros [= <-]; repeat split; eauto|].
    destruct (os.mkdir_all r rl perm g) as [g1|] eqn:Hg1; [|done].
    intros [= <-]. destruct (IH g1 eq_refl) as (H1 & H2 & _).
    split; [|split].
    + intros k x Hx. rewrite lookup_insert_ne; [by apply H1|].
      intros <-. pose proof (eq_trans (eq_sym Hk) Hx). done.
    + intros k Hnone.
      destruct (decide (((r, rev (n :: rl)) : key) = k)) as [<-|Hne].
      * right. rewrite lookup_insert_eq. split; [done|].
        exists (rev (n :: rl)), []. by rewrite app_nil_r.
      * rewrite lookup_insert_ne by done.
        destruct (H2 k Hnone) as [?|(? & l' & rest & -> & Hl)]; [by left|].
        right. split; [done|]. exists l', (rest ++ [n]). split; [done|].
        cbn [rev]. by rewrite Hl, (assoc_L (++)).
    + rewrite lookup_insert_eq. eauto.
Qed.

(** X15: setupDirectories either fails and changes nothing (the
    temporary directory is not recorded), or records
    [<directory of the source>/tmp] and [.../tmp/app] and leaves the
    latter a directory; no entry that was there has changed, and every
    new entry is a directory of mode 0755 at or above [.../tmp/app]. *)
Theorem setupDirectories_spec s :
  let c := config (self s) in
  let tmp := filepath.Join (filepath.Dir (SourceIPA c)) "tmp" in
  let app := filepath.Join tmp "app" in
  (∃ e, setupDirectories s = Err e s)
  ∨ (∃ g, setupDirectories s
          = Ret () {| self := {| config := c; callback := callback (self s);
                                 tmpDir := tmp; appDir := app |};
                      world := set_fs g (world s) |}
          ∧ (∃ m, g !! filepath.path_key app = Some (Directory m))
          ∧ (∀ k x, fs (world s) !! k = Some x → g !! k = Some x)
          ∧ (∀ k, fs (world s) !! k = None →
                  g !! k = None
                  ∨ (g !! k = Some (Directory 493)
                     ∧ is_Some (os.below k (filepath.path_key app))))).
Proof.
  cbv zeta.
  unfold setupDirectories, bind, get_config, fs_update, get_fs, bind,
    os.MkdirAll.
  set (app := filepath.Join _ "app").
  destruct (os.mkdir_all _ _ 493 (fs (world s))) as [g|] eqn:Hg; cbn.
  - right. exists g. split; [done|].
    apply mkdir_all_spec in Hg as (H1 & H2 & H3).
    rewrite rev_involutive in H2, H3.
    split; [by destruct (filepath.path_key app)|]. split; [done|].
    intros k Hk. destruct (H2 k Hk) as [?|(? & l' & rest & -> & Hl)];
      [by left|right].
    split; [done|]. exists rest. apply below_Some.
    unfold key_app. cbn [fst snd]. rewrite <-Hl.
    by destruct (filepath.path_key app).
  - left. by eexists.
Qed.

(** ** What zipDirectory and copyFile leave alone *)

#[local] Instance only_at_preorder k : PreOrder (only_at k).
Proof.
  split; [by intros s k'|].
  intros a b c Hab Hbc k' Hk. by rewrite (Hbc k' Hk), (Hab k' Hk).
Qed.

Lemma only_at_fs_update k h :
  (∀ g g' k', h g = inr g' → k' ≠ k → g' !! k' = g !! k') →
  preserves (only_at k) (fs_update h).
Proof.
  intros Hh s. unfold fs_update, bind, get_fs.
  destruct (h (fs (world s))) as [e|g'] eqn:Hg; cbn; [reflexivity|].
  intros k' Hk'. by apply (Hh _ _ _ Hg).
Qed.

Lemma only_at_fs_modify k h :
  (∀ g k', k' ≠ k → h g !! k' = g !! k') →
  preserves (only_at k) (fs_modify h).
Proof. intros Hh s k' Hk'. by apply Hh. Qed.

Lemma OpenFile_only g path perm g' k' :
  os.OpenFile g path perm = inr g' → k' ≠ filepath.path_key path →
  g' !! k' = g !! k'.
Proof.
  unfold os.OpenFile. intros H Hk'.
  destruct (g !! filepath.path_key path) as [[m c|m]|];
    [|done|destruct (os.parent_check g _); [done|]];
    injection H as <-; by rewrite lookup_insert_ne.
Qed.

Lemma write_all_only g path c k' :
  k' ≠ filepath.path_key path → os.write_all g path c !! k' = g !! k'.
Proof.
  unfold os.write_all. intros Hk'.
  destruct (g !! filepath.path_key path) as [[m c'|m]|]; [|done..].
  by rewrite lookup_insert_ne.
Qed.

Lemma only_at_archive_step target (h : content → content) :
  preserves (only_at (filepath.path_key target))
    (fs_modify (λ f, match os.read_all f target with
                     | inr c => os.write_all f target (h c)
                     | inl _ => f
                     end)).
Proof.
  apply only_at_fs_modify. intros g k' Hk'.
  destruct (os.read_all g target); [done|by apply write_all_only].
Qed.

Lemma only_at_Rel k a b : preserves (only_at k) (Rel a b).
Proof.
  unfold Rel. destruct (filepath.Rel a b);
    [apply preserves_ret|apply preserves_fail]; apply _.
Qed.

Lemma only_at_zipDirectory source target :
  preserves (only_at (filepath.path_key target)) (zipDirectory source target).
Proof.
  unfold zipDirectory.
  apply preserves_bind; [apply _| |intros _].
  { apply only_at_fs_update. intros g g' k'. apply OpenFile_only. }
  apply preserves_bind; [apply _| |intros r].
  { apply preserves_try. apply preserves_Walk; [apply _|].
    intros p [i|] [e|] []; try (apply preserves_fail || apply preserves_ret);
      try apply _.
    apply preserves_bind; [apply _|apply only_at_Rel|intros relPath].
    apply preserves_bind; [apply _|apply only_at_archive_step|intros _].
    destruct (negb (fi_isdir i)); [|apply preserves_ret, _].
    apply preserves_bind; [apply _|apply preserves_fs_check, _|intros _].
    apply preserves_bind; [apply _|apply preserves_fs_read, _|intros data].
    apply only_at_archive_step. }
  apply preserves_bind; [apply _|apply only_at_archive_step|intros _].
  destruct r; [apply preserves_fail|apply preserves_ret]; apply _.
Qed.

Lemma only_at_copyFile src dst :
  preserves (only_at (filepath.path_key dst)) (copyFile src dst).
Proof.
  unfold copyFile.
  apply preserves_bind; [apply _|apply preserves_fs_check, _|intros _].
  apply preserves_bind; [apply _| |intros _].
  { apply only_at_fs_update. intros g g' k'. apply OpenFile_only. }
  apply preserves_bind; [apply _|apply preserves_fs_read, _|intros data].
  apply only_at_fs_modify. intros g k'. apply write_all_only.
Qed.

(** X16: whether they return nil or an error, zipDirectory changes no
    path but that of the archive it writes, and copyFile no path but its
    destination. *)
Theorem writers_change_one_path s (k : key) :
  (∀ source target, k ≠ filepath.path_key target →
     fs (world (final (zipDirectory source target s))) !! k
     = fs (world s) !! k)
  ∧ (∀ src dst, k ≠ filepath.path_key dst →
       fs (world (final (copyFile src dst s))) !! k = fs (world s) !! k).
Proof.
  split; intros a b Hk.
  - by apply (only_at_zipDirectory a b s).
  - by apply (only_at_copyFile a b s).
Qed.

(** ** createResignedIPA *)

Lemma bind_Ret_inv {A B} (m : M A) (k : A → M B) s b s' :
  bind m k s = Ret b s' → ∃ a s1, m s = Ret a s1 ∧ k a s1 = Ret b s'.
Proof. unfold bind. destruct (m s) as [a s1|e s1|v s1]; [eauto|done..]. Qed.

Lemma logProgress_Ret_fs m s s' :
  logProgress m s = Ret () s' → fs (world s') = fs (world s).
Proof.
  intros H. pose proof (logProgress_keeps_fs m s) as Hk.
  rewrite H in Hk. by destruct Hk as (_ & ? & _).
Qed.

(** X17: when createResignedIPA returns nil for a source with the
    extension [.ipa], the directory [Resigned] beside the source holds
    nothing but the archive just written: what an earlier run or the
    user has left there is removed. *)
Theorem createResignedIPA_replaces_output appPath s s' :
  let c := config (self s) in
  let resignedDir :=
    filepath.Join (filepath.Dir (SourceIPA c)) "Resigned" in
  let appName := filepath.Base appPath in
  let outputPath :=
    filepath.Join resignedDir
      (Str.TrimSuffix appName (filepath.Ext appName) +:+ ".ipa") in
  Str.ToLower (filepath.Ext (SourceIPA c)) = ".ipa" →
  createResignedIPA appPath s = Ret () s' →
  ∀ rel, rel ≠ [] →
         key_app (filepath.path_key resignedDir) rel
         ≠ filepath.path_key outputPath →
         fs (world s') !! key_app (filepath.path_key resignedDir) rel = None.
Proof.
  cbv zeta. intros Hext H rel Hrel Hout.
  unfold createResignedIPA in H.
  apply bind_Ret_inv in H as (c & s0 & [= <- <-] & H).
  apply bind_Ret_inv in H as (appDir & s0 & [= <- <-] & H).
  apply bind_Ret_inv in H as ([] & s1 & [= <-] & H).
  apply bind_Ret_inv in H as ([] & s2 & Hmk & H).
  rewrite Hext in H. rewrite bool_decide_true in H by done.
  apply bind_Ret_inv in H as ([] & s3 & Hlog1 & H).
  apply bind_Ret_inv in H as ([] & s4 & Hzip & H).
  rewrite (logProgress_Ret_fs _ _ _ H).
  match type of Hzip with
  | zipDirectory ?a ?b _ = _ =>
      pose proof (only_at_zipDirectory a b s3 _ Hout) as Hframe
  end.
  rewrite Hzip in Hframe. cbn [final] in Hframe. rewrite Hframe.
  rewrite (logProgress_Ret_fs _ _ _ Hlog1).
  unfold fs_update, bind, get_fs, os.MkdirAll in Hmk.
  cbn [with_fs world fs set_fs] in Hmk.
  set (resigned := filepath.Join _ "Resigned") in *.
  destruct (os.mkdir_all _ _ 493 _) as [g|] eqn:Hg; [|done].
  injection Hmk as <-. cbn [world fs set_fs].
  apply mkdir_all_spec in Hg as (_ & H2 & _).
  destruct (H2 (key_app (filepath.path_key resigned) rel))
    as [?|(_ & l' & rest & Hk & Hl)]; [|done|].
  { apply RemoveAll_lookup_below. exists rel. by apply below_Some. }
  exfalso. rewrite rev_involutive in Hl. unfold key_app in Hk.
  apply (f_equal snd) in Hk. cbn [snd] in Hk. rewrite <-Hk in Hl.
  apply (f_equal length) in Hl. rewrite !length_app in Hl.
  destruct rel; [done|]. cbn in Hl. lia.
Qed.

Lemma createResignedIPA_replaces_output_witness :
  let appPath := "work/tmp/app/Payload/MyApp.app" in
  let s' := final (createResignedIPA appPath stale_state) in
  createResignedIPA appPath stale_state = Ret () s'
  ∧ ∀ rel, rel ≠ [] →
           key_app (filepath.path_key "work/Resigned") rel
           ≠ filepath.path_key "work/Resigned/MyApp.ipa" →
           fs (world s') !! key_app (filepath.path_key "work/Resigned") rel
           = None.
Proof.
  split; [apply returned_Ret; vm_compute; reflexivity|].
  apply (createResignedIPA_replaces_output "work/tmp/app/Payload/MyApp.app"
           stale_state).
  - vm_compute. reflexivity.
  - apply returned_Ret. vm_compute. reflexivity.
Defined.

(** In the state of the witness, the archive and the notes of an earlier
    run are gone and the new archive is there. *)
Example createResignedIPA_stale_output_gone :
  let s' := final (createResignedIPA "work/tmp/app/Payload/MyApp.app"
                     stale_state) in
  exists_at (world stale_state) "work/Resigned/Old.ipa" = true
  ∧ exists_at (world s') "work/Resigned/Old.ipa" = false
  ∧ exists_at (world s') "work/Resigned/notes/todo.txt" = false
  ∧ exists_at (world s') "work/Resigned/MyApp.ipa" = true.
Proof. vm_compute. done. Qed.

(** X18: zipDirectory makes the archive file before it looks at the
    source.  For a source that does not exist it returns the error of the
    walk, and leaves at the target an archive without entries: a file
    that was there has lost its contents. *)
Theorem zipDirectory_missing_source source target s :
  fs (world s) !! filepath.path_key source = None →
  filepath.path_key source ≠ filepath.path_key target →
  can_create (fs (world s)) target = true →
  zipDirectory source target s
  = Err (PathError "lstat" source ENOENT)
        (with_fs (<[filepath.path_key target :=
                      File (created_mode (fs (world s)) target) (Archive [])]>
                    (fs (world s))) s).
Proof.
  intros Hsrc Hne Hc. unfold zipDirectory.
  erewrite bind_Ret; [|apply fs_update_inr; by apply can_create_inr].
  erewrite bind_Ret.
  2: { unfold try, Walk. erewrite bind_Ret by reflexivity.
       cbn [with_fs world fs set_fs].
       rewrite lookup_insert_ne by done. rewrite Hsrc. reflexivity. }
  unfold zip.Close. erewrite bind_Ret by apply fs_modify_with.
  cbv beta.
  by rewrite (archive_modify _ target _ _ (λ c, Archive (zip.in_progress c))).
Qed.

Lemma zipDirectory_missing_source_witness :
  let s := start demo_config None demo_world in
  zipDirectory "work/nowhere" "work/MyApp.ipa" s
  = Err (PathError "lstat" "work/nowhere" ENOENT)
        (with_fs (<[filepath.path_key "work/MyApp.ipa" :=
                      File (created_mode (fs (world s)) "work/MyApp.ipa")
                        (Archive [])]>
                    (fs (world s))) s).
Proof.
  apply (zipDirectory_missing_source "work/nowhere" "work/MyApp.ipa"
           (start demo_config None demo_world)).
  - vm_compute. reflexivity.
  - vm_compute. discriminate.
  - vm_compute. reflexivity.
Defined.
